(** * SIEM detection, correlation and escalation core

    A shallow embedding of the backend services of the SIEM
    (intrusionDetector.js, the correlation engine, notificationService.js,
    logCollector.js, the IntrusionAlert and Log models and the queries of
    the routes), with the properties of its design description checked
    against the embedded code, and further properties of the code.

    Modelling conventions
    - JavaScript numbers are idealised as real numbers ([R]) where the code
      only compares, scales and caps them; [Math.min] and [Math.max] are
      [Rmin] and [Rmax].  The statistics of the anomalous-traffic rule,
      where rounding decides a test, are computed in binary64 ([Double]).
      Lengths and counters are [nat]; dates are milliseconds in [Z].
    - JavaScript strings are [string] (ASCII).
    - A [Map] is an association list in insertion order, which is the order
      [Map.prototype.forEach] visits.
    - The MongoDB collections are lists of documents in insertion order;
      [save] runs the schema's pre-save middleware and writes the document.
      The validators of the log schema are modelled ([LogDoc.validate]):
      [storeLog] stores nothing when they fail.  Those of the alert schema
      are modelled where a stored alert is saved again by [updateStatus]
      ([AlertSchema.validate]); elsewhere the save of an alert is taken to
      succeed.  The
      documents the detector builds from schema-valid logs do pass them.  The
      types of the correlation rules are outside the schema's enum for
      [type], so the running service rejects the save of a new correlated
      alert where the model stores it; what is proved of
      [createCorrelatedAlert] is about the branch that finds a stored alert
      and saves nothing.
    - The winston logger is a journal of structured entries.
    - A call of a service runs to its end: calls are not interleaved at
      their [await]s.
    - The clock is an argument: [now] stands for [Date.now()] and
      [new Date()] at the time of the call. *)

From Stdlib Require Import String Ascii List ZArith Reals Lra Lia Bool Arith.
From Stdlib Require Import DecimalString DecimalZ DecimalPos Sorted.
From Stdlib Require Import Permutation.
From Stdlib Require SpecFloat.
Import ListNotations.

Local Open Scope string_scope.

(* ================================================================== *)
(** ** JavaScript numbers *)

Module JS.

Local Open Scope R_scope.

Definition Math_min (a b : R) : R := Rmin a b.
Definition Math_max (a b : R) : R := Rmax a b.

(** [a > b] and [a >= b] as tests. *)
Definition gtb (a b : R) : bool := if Rlt_dec b a then true else false.
Definition geb (a b : R) : bool := if Rle_dec b a then true else false.

(** Truthiness of an optional string: [undefined], [null] and the empty
    string are falsy. *)
Definition truthy (s : option string) : bool :=
  match s with
  | Some (String _ _) => true
  | _ => false
  end.

(** [String.prototype.toLowerCase] on ASCII. *)
Definition lowerChar (c : ascii) : ascii :=
  let n := nat_of_ascii c in
  if (65 <=? n)%nat && (n <=? 90)%nat then ascii_of_nat (n + 32) else c.

Fixpoint toLowerCase (s : string) : string :=
  match s with
  | EmptyString => EmptyString
  | String c s' => String (lowerChar c) (toLowerCase s')
  end.

(** [String.prototype.includes]. *)
Fixpoint includes (s sub : string) : bool :=
  String.prefix sub s ||
  match s with
  | EmptyString => false
  | String _ s' => includes s' sub
  end.

(** [Array.prototype.join]. *)
Fixpoint join (sep : string) (l : list string) : string :=
  match l with
  | [] => EmptyString
  | [x] => x
  | x :: tl => x ++ sep ++ join sep tl
  end.

End JS.

(* ================================================================== *)
(** ** Double-precision numbers

    The binary64 format of IEEE 754 and its operations, rounding to
    nearest with ties to even, as the library's [SpecFloat] defines
    them. *)

Module Double.

Import SpecFloat.

Definition prec : Z := 53.
Definition emax : Z := 1024.

Definition t : Type := spec_float.

Definition zero : t := S754_zero false.

Definition add : t -> t -> t := SFadd prec emax.
Definition sub : t -> t -> t := SFsub prec emax.
Definition mul : t -> t -> t := SFmul prec emax.
Definition div : t -> t -> t := SFdiv prec emax.
Definition sqrt : t -> t := SFsqrt prec emax.

(** [a > b]: false when one of the two is not a number. *)
Definition gtb (a b : t) : bool := SFltb b a.

(** The double nearest to an integer; an integer below 2^53 in magnitude
    is a double. *)
Definition ofZ (n : Z) : t := binary_normalize prec emax n 0 false.

Definition ofNat (n : nat) : t := ofZ (Z.of_nat n).

(** [Math.pow(x, 2)]: the rounded product of [x] with itself. *)
Definition pow2 (x : t) : t := mul x x.

(** The real number a double stands for.  An infinity is carried as
    2^1024 with its sign, beyond every double; what is not a number is
    carried as 0. *)
Definition toR (x : t) : R :=
  match x with
  | S754_zero _ => 0%R
  | S754_finite s m e => (IZR (cond_Zopp s (Zpos m)) * powerRZ 2 e)%R
  | S754_infinity s => (IZR (cond_Zopp s 1) * powerRZ 2 emax)%R
  | S754_nan => 0%R
  end.

End Double.

(* ================================================================== *)
(** ** Regular expressions

    The patterns of the rules use literals, [\s], [.], [+], [*] and
    alternation, all with the [i] flag and without anchors.  They are
    matched with Brzozowski derivatives. *)

Module RegExp.

Inductive t : Type :=
| Void
| Eps
| Sym (p : ascii -> bool)
| Cat (r1 r2 : t)
| Alt (r1 r2 : t)
| Star (r : t).

Fixpoint nullable (r : t) : bool :=
  match r with
  | Void => false
  | Eps => true
  | Sym _ => false
  | Cat r1 r2 => nullable r1 && nullable r2
  | Alt r1 r2 => nullable r1 || nullable r2
  | Star _ => true
  end.

Definition cat (r1 r2 : t) : t :=
  match r1, r2 with
  | Void, _ => Void
  | _, Void => Void
  | Eps, _ => r2
  | _, Eps => r1
  | _, _ => Cat r1 r2
  end.

Definition alt (r1 r2 : t) : t :=
  match r1, r2 with
  | Void, _ => r2
  | _, Void => r1
  | _, _ => Alt r1 r2
  end.

Fixpoint deriv (c : ascii) (r : t) : t :=
  match r with
  | Void => Void
  | Eps => Void
  | Sym p => if p c then Eps else Void
  | Cat r1 r2 =>
      if nullable r1
      then alt (cat (deriv c r1) r2) (deriv c r2)
      else cat (deriv c r1) r2
  | Alt r1 r2 => alt (deriv c r1) (deriv c r2)
  | Star r1 => cat (deriv c r1) (Star r1)
  end.

Fixpoint matches (r : t) (s : string) : bool :=
  match s with
  | EmptyString => nullable r
  | String c s' => matches (deriv c r) s'
  end.

(** Character classes. *)
Definition anyChar : t := Sym (fun _ => true).

(** [.] excludes the line terminators. *)
Definition dot : t :=
  Sym (fun c => negb (Ascii.eqb c "010"%char || Ascii.eqb c "013"%char)).

(** [\s]: tab, line feed, vertical tab, form feed, carriage return, space. *)
Definition space : t :=
  Sym (fun c =>
         let n := nat_of_ascii c in
         ((9 <=? n)%nat && (n <=? 13)%nat) || (n =? 32)%nat).

(** A literal character, and a literal string. *)
Definition chr (c : ascii) : t := Sym (Ascii.eqb c).

Fixpoint lit (s : string) : t :=
  match s with
  | EmptyString => Eps
  | String c s' => Cat (chr c) (lit s')
  end.

(** The same under the [i] flag. *)
Definition chri (c : ascii) : t :=
  Sym (fun x => Ascii.eqb (JS.lowerChar x) (JS.lowerChar c)).

Fixpoint liti (s : string) : t :=
  match s with
  | EmptyString => Eps
  | String c s' => Cat (chri c) (liti s')
  end.

Definition plus (r : t) : t := Cat r (Star r).

Fixpoint seq (rs : list t) : t :=
  match rs with
  | [] => Eps
  | [r] => r
  | r :: tl => Cat r (seq tl)
  end.

Fixpoint anyOf (rs : list t) : t :=
  match rs with
  | [] => Void
  | [r] => r
  | r :: tl => Alt r (anyOf tl)
  end.

(** [RegExp.prototype.test] for a pattern without anchors: some substring
    matches. *)
Definition test (r : t) (s : string) : bool :=
  matches (Cat (Star anyChar) (Cat r (Star anyChar))) s.

End RegExp.

(* ================================================================== *)
(** ** Data model *)

Inductive Category : Type :=
| security | system | application | network | database.

Definition Category_eqb (a b : Category) : bool :=
  match a, b with
  | security, security | system, system | application, application
  | network, network | database, database => true
  | _, _ => false
  end.

Inductive Severity : Type := low | medium | high | critical.

Definition Severity_eqb (a b : Severity) : bool :=
  match a, b with
  | low, low | medium, medium | high, high | critical, critical => true
  | _, _ => false
  end.

Inductive Status : Type := active | investigating | resolved | false_positive.

Definition Status_eqb (a b : Status) : bool :=
  match a, b with
  | active, active | investigating, investigating
  | resolved, resolved | false_positive, false_positive => true
  | _, _ => false
  end.

Definition Status_name (s : Status) : string :=
  match s with
  | active => "active"
  | investigating => "investigating"
  | resolved => "resolved"
  | false_positive => "false_positive"
  end.

Definition option_eqb {A : Type} (eqb : A -> A -> bool) (x y : option A)
    : bool :=
  match x, y with
  | Some a, Some b => eqb a b
  | None, None => true
  | _, _ => false
  end.

(** Models/Log.js: the fields the services read. *)
Module Log.

Record Details : Type := mkDetails { size : option Z }.

Record t : Type := mk {
  _id : Z;
  timestamp : Z;
  source : string;
  message : string;
  details : option Details;
  category : Category;
  sourceIp : option string;
  processed : bool
}.

Definition setProcessed (b : bool) (l : t) : t :=
  mk (_id l) (timestamp l) (source l) (message l) (details l)
     (category l) (sourceIp l) b.

End Log.

(** Models/IntrusionAlert.js. *)
Module Alert.

Record TimelineEntry : Type := mkEntry {
  entry_timestamp : Z;
  event : string;
  entry_details : string;
  user : option Z
}.

Record Notification : Type := mkNotification {
  method : string;
  recipient : string;
  sentAt : Z;
  notif_status : string
}.

Record t : Type := mk {
  _id : Z;
  title : string;
  severity : Severity;
  type : string;
  status : Status;
  sourceIp : option string;
  affectedAssets : list string;
  attackVector : option string;
  confidence : R;
  riskScore : R;
  relatedLogs : list Z;
  correlationId : option string;
  detectionMethod : string;
  timeline : list TimelineEntry;
  notifications : list Notification;
  resolvedAt : option Z;
  resolvedBy : option Z;
  resolutionNotes : option string;
  createdAt : Z
}.

Definition setConfidence (c : R) (a : t) : t :=
  mk (_id a) (title a) (severity a) (type a) (status a) (sourceIp a)
     (affectedAssets a) (attackVector a) c (riskScore a) (relatedLogs a)
     (correlationId a) (detectionMethod a) (timeline a) (notifications a)
     (resolvedAt a) (resolvedBy a) (resolutionNotes a) (createdAt a).

Definition setRiskScore (r : R) (a : t) : t :=
  mk (_id a) (title a) (severity a) (type a) (status a) (sourceIp a)
     (affectedAssets a) (attackVector a) (confidence a) r (relatedLogs a)
     (correlationId a) (detectionMethod a) (timeline a) (notifications a)
     (resolvedAt a) (resolvedBy a) (resolutionNotes a) (createdAt a).

Definition setRelatedLogs (l : list Z) (a : t) : t :=
  mk (_id a) (title a) (severity a) (type a) (status a) (sourceIp a)
     (affectedAssets a) (attackVector a) (confidence a) (riskScore a) l
     (correlationId a) (detectionMethod a) (timeline a) (notifications a)
     (resolvedAt a) (resolvedBy a) (resolutionNotes a) (createdAt a).

Definition setStatus (s : Status) (a : t) : t :=
  mk (_id a) (title a) (severity a) (type a) s (sourceIp a)
     (affectedAssets a) (attackVector a) (confidence a) (riskScore a)
     (relatedLogs a) (correlationId a) (detectionMethod a) (timeline a)
     (notifications a) (resolvedAt a) (resolvedBy a) (resolutionNotes a)
     (createdAt a).

Definition setTimeline (tl : list TimelineEntry) (a : t) : t :=
  mk (_id a) (title a) (severity a) (type a) (status a) (sourceIp a)
     (affectedAssets a) (attackVector a) (confidence a) (riskScore a)
     (relatedLogs a) (correlationId a) (detectionMethod a) tl
     (notifications a) (resolvedAt a) (resolvedBy a) (resolutionNotes a)
     (createdAt a).

Definition setNotifications (ns : list Notification) (a : t) : t :=
  mk (_id a) (title a) (severity a) (type a) (status a) (sourceIp a)
     (affectedAssets a) (attackVector a) (confidence a) (riskScore a)
     (relatedLogs a) (correlationId a) (detectionMethod a) (timeline a)
     ns (resolvedAt a) (resolvedBy a) (resolutionNotes a) (createdAt a).

Definition setResolution (at_ by_ : option Z) (notes : option string)
    (a : t) : t :=
  mk (_id a) (title a) (severity a) (type a) (status a) (sourceIp a)
     (affectedAssets a) (attackVector a) (confidence a) (riskScore a)
     (relatedLogs a) (correlationId a) (detectionMethod a) (timeline a)
     (notifications a) at_ by_ notes (createdAt a).

(** The table of the pre-save middleware. *)
Definition severityWeight (s : Severity) : R :=
  match s with
  | low => 2
  | medium => 5
  | high => 8
  | critical => 10
  end.

(** [intrusionAlertSchema.pre('save')].  Every severity of the schema's enum
    has a nonzero weight, so the [|| 5] fallback of the lookup is never
    taken. *)
Definition preSave (a : t) : t :=
  let baseScore := severityWeight (severity a) in
  setRiskScore (JS.Math_min 10 (baseScore * (confidence a / 100))) a.

(** The fields a caller passes to [new IntrusionAlert(...)]; the rest takes
    the schema's defaults. *)
Record Init : Type := mkInit {
  init_title : string;
  init_severity : Severity;
  init_type : string;
  init_sourceIp : option string;
  init_affectedAssets : option (list string);
  init_attackVector : option string;
  init_confidence : option R;
  init_relatedLogs : option (list Z);
  init_correlationId : option string;
  init_detectionMethod : string
}.

Definition orElse {A : Type} (o : option A) (d : A) : A :=
  match o with Some x => x | None => d end.

(** [new IntrusionAlert(init)], given the fresh id and the creation time
    the timestamps option records at the first save. *)
Definition new (id now : Z) (i : Init) : t :=
  mk id (init_title i) (init_severity i) (init_type i) active
     (init_sourceIp i) (orElse (init_affectedAssets i) [])
     (init_attackVector i) (orElse (init_confidence i) 50%R) 5%R
     (orElse (init_relatedLogs i) []) (init_correlationId i)
     (init_detectionMethod i) [] [] None None None now.

(** [updateStatus(newStatus, userId, notes)] up to the final save. *)
Definition updateStatus_body (now : Z) (newStatus : Status) (userId : Z)
    (notes : option string) (a : t) : t :=
  let oldStatus := status a in
  let a1 := setStatus newStatus a in
  let a2 :=
    setTimeline
      (timeline a1 ++
       [mkEntry now "Status Changed"
          ("Status changed from " ++ Status_name oldStatus ++ " to " ++
           Status_name newStatus ++
           (if JS.truthy notes then ": " ++ orElse notes EmptyString
            else EmptyString))
          (Some userId)]) a1 in
  match newStatus with
  | resolved =>
      setResolution (Some now) (Some userId)
        (if JS.truthy notes then notes else resolutionNotes a2) a2
  | _ => a2
  end.

(** [assignTo] and [addEvidence] touch fields outside this model apart from
    the timeline entry they push. *)
Definition pushTimeline (e : TimelineEntry) (a : t) : t :=
  setTimeline (timeline a ++ [e]) a.

End Alert.

(* ================================================================== *)
(** ** The repository and the logger *)

(** What the services write to the logger.  An alert is named by its
    document id where the source prints its [alertId]. *)
Inductive Entry : Type :=
| DetectionCycleStarted
| DetectionCycleCompleted
| RuleError (ruleName : string) (error : string)
| AlertUpdated (id : Z)
| AlertCreated (id : Z) (title : string)
| ImmediateAttention (severity : Severity) (title : string)
| CorrelationExists (correlationId : option string)
| CorrelatedAlertCreated (id : Z) (title : string)
| CheckingEscalations
| Escalating (id : Z) (severity : Severity)
| NotificationQueued (id : Z) (channels : list string)
| ProcessingNotifications (n : nat)
| ChannelNotification (channel : string) (title : string)
| NotificationSent (id : Z).

Module World.

Record t : Type := mk {
  logs : list Log.t;
  alerts : list Alert.t;
  journal : list Entry;
  nextId : Z
}.

Definition empty : t := mk [] [] [] 0.

Definition log (e : Entry) (w : t) : t :=
  mk (logs w) (alerts w) (journal w ++ [e]) (nextId w).

Definition setAlerts (l : list Alert.t) (w : t) : t :=
  mk (logs w) l (journal w) (nextId w).

Definition setLogs (l : list Log.t) (w : t) : t :=
  mk l (alerts w) (journal w) (nextId w).

(** [Model.findOne(filter)]: the first document of the collection that
    passes the filter. *)
Definition findOne (f : Alert.t -> bool) (w : t) : option Alert.t :=
  List.find f (alerts w).

(** [Model.find(filter)]. *)
Definition find (f : Alert.t -> bool) (w : t) : list Alert.t :=
  List.filter f (alerts w).

(** Replace the stored document that has the id of [a]. *)
Fixpoint replace (a : Alert.t) (l : list Alert.t) : list Alert.t :=
  match l with
  | [] => []
  | x :: tl =>
      if (Alert._id x =? Alert._id a)%Z then a :: tl
      else x :: replace a tl
  end.

(** [doc.save()] on a document read from the collection. *)
Definition save (a : Alert.t) (w : t) : t :=
  setAlerts (replace (Alert.preSave a) (alerts w)) w.

(** [new IntrusionAlert(init)] followed by [save()]: the document gets a
    fresh id and its creation time.  Returns the stored document. *)
Definition create (now : Z) (i : Alert.Init) (w : t) : Alert.t * t :=
  let a := Alert.preSave (Alert.new (nextId w) now i) in
  (a, mk (logs w) (alerts w ++ [a]) (journal w) (nextId w + 1)).

(** [findByIdAndUpdate(id, update)]: no middleware runs. *)
Fixpoint updateById (id : Z) (f : Alert.t -> Alert.t) (l : list Alert.t)
    : list Alert.t :=
  match l with
  | [] => []
  | x :: tl =>
      if (Alert._id x =? id)%Z then f x :: tl
      else x :: updateById id f tl
  end.

Definition findByIdAndUpdate (id : Z) (f : Alert.t -> Alert.t) (w : t) : t :=
  setAlerts (updateById id f (alerts w)) w.

End World.

(* ================================================================== *)
(** ** [Map] with string keys, in insertion order *)

Module JSMap.

Section WithValues.
Variable V : Type.

Definition t : Type := list (string * V).

Fixpoint get (k : string) (m : t) : option V :=
  match m with
  | [] => None
  | (k', v) :: tl => if String.eqb k' k then Some v else get k tl
  end.

Definition has (k : string) (m : t) : bool :=
  match get k m with Some _ => true | None => false end.

(** [set] keeps the position of a key that is already present. *)
Fixpoint set (k : string) (v : V) (m : t) : t :=
  match m with
  | [] => [(k, v)]
  | (k', v') :: tl =>
      if String.eqb k' k then (k, v) :: tl else (k', v') :: set k v tl
  end.

Definition keys (m : t) : list string := List.map fst m.
Definition values (m : t) : list V := List.map snd m.

End WithValues.

Arguments get {V} k m.
Arguments has {V} k m.
Arguments set {V} k v m.
Arguments keys {V} m.
Arguments values {V} m.

End JSMap.

(** A call that returns or throws. *)
Inductive Result (A : Type) : Type :=
| Ok (a : A)
| Throw (error : string).

Arguments Ok {A} a.
Arguments Throw {A} error.

(* ================================================================== *)
(** ** services/intrusionDetector.js *)

Module IntrusionDetector.

Local Open Scope R_scope.

Record Detection : Type := mkDetection {
  title : string;
  sourceIp : option string;
  confidence : R;
  relatedLogs : option (list Z);
  attackVector : string;
  affectedAssets : list string
}.

Record Thresholds : Type := mkThresholds {
  bruteForceAttempts : nat;
  timeWindow : Z;
  anomalyThreshold : Double.t;
  dataTransferThreshold : Z
}.

Definition alertThresholds : Thresholds :=
  mkThresholds 5 300000 (Double.ofZ 3) (100 * 1024 * 1024).

(** An entry of [this.detectionRules].  The condition is a method bound to
    the detector, so it reads the thresholds when it is called. *)
Record Rule : Type := mkRule {
  name : string;
  type : string;
  condition : Thresholds -> list Log.t -> Result (list Detection);
  severity : Severity;
  enabled : bool
}.

Definition ipOf (log : Log.t) : string :=
  Alert.orElse (Log.sourceIp log) EmptyString.

(** *** detectBruteForce *)

Definition isFailedLogin (log : Log.t) : bool :=
  Category_eqb (Log.category log) security &&
  JS.includes (JS.toLowerCase (Log.message log)) "failed" &&
  JS.truthy (Log.sourceIp log).

Definition recordAttempt (m : JSMap.t (list Log.t)) (log : Log.t)
    : JSMap.t (list Log.t) :=
  if isFailedLogin log then
    let m' := if JSMap.has (ipOf log) m then m else JSMap.set (ipOf log) [] m in
    JSMap.set (ipOf log)
      (Alert.orElse (JSMap.get (ipOf log) m') [] ++ [log])%list m'
  else m.

Definition failedAttempts (logs : list Log.t) : JSMap.t (list Log.t) :=
  fold_left recordAttempt logs [].

Definition bruteForceDetection (sourceIp : string) (attempts : list Log.t)
    : Detection :=
  mkDetection
    ("Brute Force Attack Detected from " ++ sourceIp)
    (Some sourceIp)
    (JS.Math_min 95 (60 + INR (length attempts) * 5))
    (Some (map Log._id attempts))
    "Authentication brute force"
    ["Authentication System"%string].

Definition detectBruteForce (th : Thresholds) (logs : list Log.t)
    : list Detection :=
  flat_map
    (fun entry : string * list Log.t =>
       let (sourceIp, attempts) := entry in
       if (bruteForceAttempts th <=? length attempts)%nat
       then [bruteForceDetection sourceIp attempts]
       else [])
    (failedAttempts logs).

(** *** detectSQLInjection *)

Definition sqlPatterns : list RegExp.t :=
  let s := RegExp.space in
  [ RegExp.seq [RegExp.liti "union"; RegExp.plus s; RegExp.liti "select"];
    RegExp.seq [RegExp.liti "or"; RegExp.plus s; RegExp.liti "1";
                RegExp.Star s; RegExp.liti "="; RegExp.Star s; RegExp.liti "1"];
    RegExp.seq [RegExp.liti "drop"; RegExp.plus s; RegExp.liti "table"];
    RegExp.seq [RegExp.liti "insert"; RegExp.plus s; RegExp.liti "into"];
    RegExp.seq [RegExp.liti "delete"; RegExp.plus s; RegExp.liti "from"];
    RegExp.seq [RegExp.liti "update"; RegExp.plus s; RegExp.Star RegExp.dot;
                RegExp.plus s; RegExp.liti "set"];
    RegExp.seq [RegExp.liti "exec"; RegExp.Star s; RegExp.liti "("];
    RegExp.seq [RegExp.liti "script"; RegExp.Star s; RegExp.liti ">"] ].

Definition detectSQLInjection (logs : list Log.t) : list Detection :=
  flat_map
    (fun log =>
       if Category_eqb (Log.category log) application ||
          Category_eqb (Log.category log) database
       then
         let message := JS.toLowerCase (Log.message log) in
         if existsb (fun pattern => RegExp.test pattern message) sqlPatterns
         then [mkDetection "SQL Injection Attempt Detected"
                 (Log.sourceIp log) 85 (Some [Log._id log])
                 "SQL Injection" ["Database"; "Web Application"]%string]
         else []
       else [])
    logs.

(** *** detectAnomalousTraffic *)

Definition countRequest (m : JSMap.t nat) (log : Log.t) : JSMap.t nat :=
  if JS.truthy (Log.sourceIp log) && Category_eqb (Log.category log) application
  then
    let m' :=
      if JSMap.has (ipOf log) m then m else JSMap.set (ipOf log) 0%nat m in
    JSMap.set (ipOf log)
      (Alert.orElse (JSMap.get (ipOf log) m') 0%nat + 1)%nat m'
  else m.

Definition trafficByIp (logs : list Log.t) : JSMap.t nat :=
  fold_left countRequest logs [].

(** The baseline, in the arithmetic of the code: every sum, quotient,
    square and root is rounded to a double.  A count is an integer below
    2^53, which a double carries exactly. *)
Definition mean (requestCounts : list nat) : Double.t :=
  Double.div
    (fold_left (fun a b => Double.add a (Double.ofNat b)) requestCounts
       Double.zero)
    (Double.ofNat (length requestCounts)).

Definition variance (requestCounts : list nat) : Double.t :=
  Double.div
    (fold_left
       (fun a b =>
          Double.add a
            (Double.pow2 (Double.sub (Double.ofNat b) (mean requestCounts))))
       requestCounts Double.zero)
    (Double.ofNat (length requestCounts)).

Definition stdDev (requestCounts : list nat) : Double.t :=
  Double.sqrt (variance requestCounts).

Definition threshold (th : Thresholds) (requestCounts : list nat)
    : Double.t :=
  Double.add (mean requestCounts)
    (Double.mul (anomalyThreshold th) (stdDev requestCounts)).

(** The confidence is computed in doubles; [Math.min] rounds nothing and
    is taken over the reals. *)
Definition anomalyDetection (th : Thresholds) (requestCounts : list nat)
    (sourceIp : string) (count : nat) : Detection :=
  let threshold := threshold th requestCounts in
  mkDetection
    ("Anomalous Traffic Pattern Detected from " ++ sourceIp)
    (Some sourceIp)
    (JS.Math_min 90
       (Double.toR
          (Double.add (Double.ofZ 50)
             (Double.mul
                (Double.div (Double.sub (Double.ofNat count) threshold)
                   threshold)
                (Double.ofZ 40)))))
    None
    "Traffic anomaly"
    ["Web Application"%string].

Definition detectAnomalousTraffic (th : Thresholds) (logs : list Log.t)
    : list Detection :=
  let trafficByIp := trafficByIp logs in
  let requestCounts := JSMap.values trafficByIp in
  if (0 <? length requestCounts)%nat then
    flat_map
      (fun entry : string * nat =>
         let (sourceIp, count) := entry in
         if Double.gtb (Double.ofNat count) (threshold th requestCounts) &&
            Double.gtb (Double.ofNat count) (Double.ofZ 50)
         then [anomalyDetection th requestCounts sourceIp count]
         else [])
      trafficByIp
  else [].

(** *** detectPrivilegeEscalation *)

Definition privilegePatterns : list RegExp.t :=
  let s := RegExp.space in
  let any := RegExp.Star RegExp.dot in
  [ RegExp.seq [RegExp.liti "sudo"; RegExp.plus s; RegExp.liti "su"];
    RegExp.seq [RegExp.liti "chmod"; RegExp.plus s; RegExp.liti "777"];
    RegExp.seq [RegExp.liti "chown"; RegExp.plus s; RegExp.liti "root"];
    RegExp.seq [RegExp.liti "privilege"; any; RegExp.liti "escalat"];
    RegExp.seq [RegExp.liti "admin"; any; RegExp.liti "access"];
    RegExp.seq [RegExp.liti "root"; any; RegExp.liti "shell"] ].

Definition detectPrivilegeEscalation (logs : list Log.t) : list Detection :=
  flat_map
    (fun log =>
       if Category_eqb (Log.category log) system ||
          Category_eqb (Log.category log) security
       then
         let message := JS.toLowerCase (Log.message log) in
         if existsb (fun pattern => RegExp.test pattern message)
              privilegePatterns
         then [mkDetection "Privilege Escalation Attempt Detected"
                 (Log.sourceIp log) 75 (Some [Log._id log])
                 "Privilege escalation" ["System"%string]]
         else []
       else [])
    logs.

(** *** detectDataExfiltration

    [details.size] is taken to be an integer that a JavaScript number
    carries exactly, at most 2^53 - 1 in magnitude: [parseInt] returns such
    a number as it is, and a sum of such numbers is exact while it stays in
    that range.  Zero is falsy. *)

Definition sizeOf (log : Log.t) : option Z :=
  match Log.details log with
  | Some d =>
      match Log.size d with
      | Some n => if (n =? 0)%Z then None else Some n
      | None => None
      end
  | None => None
  end.

Definition addTransfer (m : JSMap.t Z) (log : Log.t) : JSMap.t Z :=
  match sizeOf log with
  | Some size =>
      if JS.truthy (Log.sourceIp log) then
        let m' :=
          if JSMap.has (ipOf log) m then m else JSMap.set (ipOf log) 0%Z m in
        JSMap.set (ipOf log)
          (Alert.orElse (JSMap.get (ipOf log) m') 0%Z + size)%Z m'
      else m
  | None => m
  end.

Definition dataTransferByIp (logs : list Log.t) : JSMap.t Z :=
  fold_left addTransfer logs [].

Definition detectDataExfiltration (th : Thresholds) (logs : list Log.t)
    : list Detection :=
  flat_map
    (fun entry : string * Z =>
       let (sourceIp, totalSize) := entry in
       if (dataTransferThreshold th <? totalSize)%Z
       then [mkDetection ("Potential Data Exfiltration from " ++ sourceIp)
               (Some sourceIp) 70 None "Data exfiltration"
               ["Data Storage"; "Network"]%string]
       else [])
    (dataTransferByIp logs).

(** *** The rule table of the constructor *)

Definition detectionRules : list Rule :=
  [ mkRule "Brute Force Detection" "brute_force"
      (fun th logs => Ok (detectBruteForce th logs)) high true;
    mkRule "SQL Injection Detection" "sql_injection"
      (fun _ logs => Ok (detectSQLInjection logs)) critical true;
    mkRule "Unusual Traffic Pattern" "anomaly"
      (fun th logs => Ok (detectAnomalousTraffic th logs)) medium true;
    mkRule "Privilege Escalation" "privilege_escalation"
      (fun _ logs => Ok (detectPrivilegeEscalation logs)) high true;
    mkRule "Data Exfiltration" "data_exfiltration"
      (fun th logs => Ok (detectDataExfiltration th logs)) critical true ].

(** *** createAlert *)

(** The argument of [createAlert]: a detection with the rule's fields
    spread over it. *)
Record AlertData : Type := mkAlertData {
  detection : Detection;
  data_type : string;
  data_severity : Severity;
  data_detectionMethod : string
}.

Definition isOpen (a : Alert.t) : bool :=
  Status_eqb (Alert.status a) active ||
  Status_eqb (Alert.status a) investigating.

(** The filter of the [findOne] call. *)
Definition similarAlert (th : Thresholds) (now : Z) (alertData : AlertData)
    (a : Alert.t) : bool :=
  String.eqb (Alert.type a) (data_type alertData) &&
  option_eqb String.eqb (Alert.sourceIp a) (sourceIp (detection alertData)) &&
  isOpen a &&
  (now - timeWindow th <=? Alert.createdAt a)%Z.

Definition toInit (alertData : AlertData) : Alert.Init :=
  let d := detection alertData in
  Alert.mkInit (title d) (data_severity alertData) (data_type alertData)
    (sourceIp d) (Some (affectedAssets d)) (Some (attackVector d))
    (Some (confidence d)) (relatedLogs d) None
    (data_detectionMethod alertData).

Definition triggerImmediateNotification (alert : Alert.t) (w : World.t)
    : World.t :=
  World.log (ImmediateAttention (Alert.severity alert) (Alert.title alert)) w.

Definition createAlert (th : Thresholds) (now : Z) (alertData : AlertData)
    (w : World.t) : Alert.t * World.t :=
  match World.findOne (similarAlert th now alertData) w with
  | Some existingAlert =>
      let a1 :=
        Alert.setConfidence
          (JS.Math_max (Alert.confidence existingAlert)
             (confidence (detection alertData))) existingAlert in
      let a2 :=
        match relatedLogs (detection alertData) with
        | Some ids => Alert.setRelatedLogs (Alert.relatedLogs a1 ++ ids) a1
        | None => a1
        end in
      let w1 := World.save a2 w in
      (Alert.preSave a2, World.log (AlertUpdated (Alert._id a2)) w1)
  | None =>
      let (alert, w1) := World.create now (toInit alertData) w in
      let w2 :=
        World.log (AlertCreated (Alert._id alert) (Alert.title alert)) w1 in
      let w3 :=
        match Alert.severity alert with
        | high | critical => triggerImmediateNotification alert w2
        | _ => w2
        end in
      (alert, w3)
  end.

(** *** executeDetectionRule *)

Definition executeDetectionRule (th : Thresholds) (now : Z) (rule : Rule)
    (logs : list Log.t) (w : World.t) : World.t :=
  match condition rule th logs with
  | Ok detections =>
      fold_left
        (fun w detection =>
           snd (createAlert th now
                  (mkAlertData detection (type rule) (severity rule)
                     "signature") w))
        detections w
  | Throw error => World.log (RuleError (name rule) error) w
  end.

(** *** runDetectionCycle *)

(** [sort({ timestamp: -1 })]. *)
Fixpoint insertByTimestamp (l : Log.t) (sorted : list Log.t) : list Log.t :=
  match sorted with
  | [] => [l]
  | x :: tl =>
      if (Log.timestamp x <? Log.timestamp l)%Z then l :: sorted
      else x :: insertByTimestamp l tl
  end.

Definition sortByTimestampDesc (logs : list Log.t) : list Log.t :=
  fold_left (fun sorted l => insertByTimestamp l sorted) logs [].

(** The [Log.find] of the cycle: recent and not yet processed. *)
Definition recentLogs (th : Thresholds) (now : Z) (w : World.t) : list Log.t :=
  sortByTimestampDesc
    (filter
       (fun l => (now - timeWindow th <=? Log.timestamp l)%Z &&
                 negb (Log.processed l))
       (World.logs w)).

(** The loop over the rules. *)
Definition runRules (th : Thresholds) (rules : list Rule) (now : Z)
    (logs : list Log.t) (w : World.t) : World.t :=
  fold_left
    (fun w rule =>
       if enabled rule then executeDetectionRule th now rule logs w else w)
    rules w.

(** [Log.updateMany({ _id: { $in: logIds } }, { processed: true })]. *)
Definition markProcessed (logIds : list Z) (w : World.t) : World.t :=
  World.setLogs
    (map (fun l =>
            if existsb (Z.eqb (Log._id l)) logIds
            then Log.setProcessed true l else l)
       (World.logs w)) w.

Definition runDetectionCycle (th : Thresholds) (rules : list Rule) (now : Z)
    (w : World.t) : World.t :=
  let w0 := World.log DetectionCycleStarted w in
  let recentLogs := recentLogs th now w0 in
  let w1 := runRules th rules now recentLogs w0 in
  let logIds := map Log._id recentLogs in
  let w2 := if (0 <? length logIds)%nat then markProcessed logIds w1 else w1 in
  World.log DetectionCycleCompleted w2.

End IntrusionDetector.

(* ================================================================== *)
(** ** The correlation engine *)

Module CorrelationEngine.

Local Open Scope R_scope.

Record CorrelationData : Type := mkCorrelationData {
  title : string;
  sourceIp : option string;
  confidence : option R;
  relatedLogs : option (list Z);
  attackVector : option string;
  affectedAssets : option (list string);
  correlationId : option string
}.

(** An entry of [this.correlationRules]. *)
Record Rule : Type := mkRule {
  name : string;
  type : string;
  condition :
    list Log.t -> list Alert.t -> Z -> Result (list CorrelationData);
  timeWindow : Z;
  enabled : bool
}.

(** [x || 50] on a number: [undefined] and [0] are falsy. *)
Definition orFifty (x : option R) : R :=
  match x with
  | Some c => if Req_dec_T c 0 then 50 else c
  | None => 50
  end.

Definition calculateCorrelationSeverity (correlationData : CorrelationData)
    : Severity :=
  let confidence := orFifty (confidence correlationData) in
  let assetCount :=
    length (Alert.orElse (affectedAssets correlationData) []) in
  if JS.geb confidence 80 && (3 <=? assetCount)%nat then critical
  else if JS.geb confidence 70 || (2 <=? assetCount)%nat then high
  else if JS.geb confidence 60 then medium
  else low.

(** The filter of the [findOne] call. *)
Definition sameCorrelation (correlationData : CorrelationData) (a : Alert.t)
    : bool :=
  option_eqb String.eqb (Alert.correlationId a)
    (correlationId correlationData) &&
  IntrusionDetector.isOpen a.

Definition toInit (correlationData : CorrelationData) (rule : Rule)
    : Alert.Init :=
  Alert.mkInit (title correlationData)
    (calculateCorrelationSeverity correlationData) (type rule)
    (sourceIp correlationData) (affectedAssets correlationData)
    (attackVector correlationData) (confidence correlationData)
    (relatedLogs correlationData) (correlationId correlationData)
    "correlation".

Definition createCorrelatedAlert (now : Z) (correlationData : CorrelationData)
    (rule : Rule) (w : World.t) : Alert.t * World.t :=
  match World.findOne (sameCorrelation correlationData) w with
  | Some existingAlert =>
      (existingAlert,
       World.log (CorrelationExists (correlationId correlationData)) w)
  | None =>
      let (alert, w1) := World.create now (toInit correlationData rule) w in
      (alert,
       World.log (CorrelatedAlertCreated (Alert._id alert) (Alert.title alert))
         w1)
  end.

Definition executeCorrelationRule (now : Z) (rule : Rule) (logs : list Log.t)
    (alerts : list Alert.t) (w : World.t) : World.t :=
  match condition rule logs alerts (timeWindow rule) with
  | Ok correlations =>
      fold_left
        (fun w correlation =>
           snd (createCorrelatedAlert now correlation rule w))
        correlations w
  | Throw error => World.log (RuleError (name rule) error) w
  end.

End CorrelationEngine.

(* ================================================================== *)
(** ** services/notificationService.js *)

Module NotificationService.

Record Channel : Type := mkChannel {
  name : string;
  enabled : bool
}.

Record EscalationRule : Type := mkEscalationRule {
  severity : Severity;
  escalateAfter : Z;
  channels : list string
}.

Definition escalationRules : list EscalationRule :=
  [ mkEscalationRule critical 300000 ["email"; "webhook"; "dashboard"]%string;
    mkEscalationRule high 900000 ["email"; "dashboard"]%string;
    mkEscalationRule medium 1800000 ["dashboard"]%string ].

Inductive QueueStatus : Type := pending | sent | failed.

Definition QueueStatus_name (s : QueueStatus) : string :=
  match s with
  | pending => "pending"
  | sent => "sent"
  | failed => "failed"
  end.

(** An element of [this.notificationQueue]. *)
Record Notification : Type := mkNotification {
  alertId : Z;
  alert : Alert.t;
  notif_channels : list string;
  priority : nat;
  createdAt : Z;
  attempts : nat;
  maxAttempts : nat;
  status : QueueStatus;
  sentAt : option Z
}.

(** The service object: its channel table and its queue. *)
Record t : Type := mk {
  notificationChannels : list Channel;
  notificationQueue : list Notification
}.

Definition initial : t :=
  mk [ mkChannel "email" true; mkChannel "webhook" true;
       mkChannel "dashboard" true ] [].

Definition setQueue (q : list Notification) (s : t) : t :=
  mk (notificationChannels s) q.

Definition calculatePriority (sev : Severity) : nat :=
  match sev with
  | critical => 1
  | high => 2
  | medium => 3
  | low => 4
  end.

(** The three handlers only write to the logger. *)
Definition runHandler (channelName : string) (n : Notification) (w : World.t)
    : World.t :=
  World.log (ChannelNotification channelName (Alert.title (alert n))) w.

(** [updateAlertNotificationStatus]. *)
Definition updateAlertNotificationStatus (n : Notification) (w : World.t)
    : World.t :=
  World.findByIdAndUpdate (alertId n)
    (fun a =>
       Alert.setNotifications
         (Alert.notifications a ++
          [Alert.mkNotification (JS.join "," (notif_channels n))
             "security-team" (Alert.orElse (sentAt n) 0%Z)
             (QueueStatus_name (status n))]) a)
    w.

(** [processNotification]: none of the handlers throws, so the catch
    branch is not reached. *)
Definition processNotification (now : Z) (s : t) (n : Notification)
    (w : World.t) : Notification * World.t :=
  let w1 :=
    fold_left
      (fun w channelName =>
         match List.find (fun c => String.eqb (name c) channelName)
                 (notificationChannels s) with
         | Some channel =>
             if enabled channel then runHandler channelName n w else w
         | None => w
         end)
      (notif_channels n) w in
  let n' :=
    mkNotification (alertId n) (alert n) (notif_channels n) (priority n)
      (createdAt n) (attempts n + 1) (maxAttempts n) sent (Some now) in
  let w2 := updateAlertNotificationStatus n' w1 in
  (n', World.log (NotificationSent (alertId n)) w2).

Definition isPending (n : Notification) : bool :=
  match status n with pending => true | _ => false end.

(** The loop over the pending notifications; the queue holds the same
    objects, so it sees their new state. *)
Fixpoint processAll (now : Z) (s : t) (q : list Notification) (w : World.t)
    : list Notification * World.t :=
  match q with
  | [] => ([], w)
  | n :: tl =>
      if isPending n then
        let (n', w1) := processNotification now s n w in
        let (tl', w2) := processAll now s tl w1 in
        (n' :: tl', w2)
      else
        let (tl', w2) := processAll now s tl w in
        (n :: tl', w2)
  end.

Definition processNotificationQueue (now : Z) (s : t) (w : World.t)
    : t * World.t :=
  match notificationQueue s with
  | [] => (s, w)
  | _ =>
      let w0 :=
        World.log (ProcessingNotifications (length (notificationQueue s))) w in
      let (q, w1) := processAll now s (notificationQueue s) w0 in
      (setQueue
         (filter (fun n => isPending n && (attempts n <? maxAttempts n)%nat) q)
         s,
       w1)
  end.

Definition queueNotification (now : Z) (a : Alert.t) (chans : list string)
    (s : t) (w : World.t) : t * World.t :=
  let notification :=
    mkNotification (Alert._id a) a chans
      (calculatePriority (Alert.severity a)) now 0 3 pending None in
  let s1 := setQueue (notificationQueue s ++ [notification]) s in
  let w1 := World.log (NotificationQueued (Alert._id a) chans) w in
  match Alert.severity a with
  | critical => processNotificationQueue now s1 w1
  | _ => (s1, w1)
  end.

(** The pattern [rule.channels.join('|')] of the [$regex]. *)
Definition channelsPattern (chans : list string) : RegExp.t :=
  RegExp.anyOf (map RegExp.lit chans).

(** ['notifications.method': { $not: { $regex: ... } }]: no element of the
    array has a method the pattern matches. *)
Definition notNotifiedVia (chans : list string) (a : Alert.t) : bool :=
  negb (existsb
          (fun n => RegExp.test (channelsPattern chans) (Alert.method n))
          (Alert.notifications a)).

(** The filter of the [find] call of [checkEscalations]. *)
Definition toEscalate (now : Z) (rule : EscalationRule) (a : Alert.t) : bool :=
  Severity_eqb (Alert.severity a) (severity rule) &&
  Status_eqb (Alert.status a) active &&
  (Alert.createdAt a <=? now - escalateAfter rule)%Z &&
  notNotifiedVia (channels rule) a.

Definition escalate (now : Z) (rule : EscalationRule)
    (st : t * World.t) (a : Alert.t) : t * World.t :=
  let (s, w) := st in
  let w1 := World.log (Escalating (Alert._id a) (severity rule)) w in
  queueNotification now a (channels rule) s w1.

Definition checkEscalationRule (now : Z) (st : t * World.t)
    (rule : EscalationRule) : t * World.t :=
  let alertsToEscalate := World.find (toEscalate now rule) (snd st) in
  fold_left (escalate now rule) alertsToEscalate st.

Definition checkEscalations (now : Z) (rules : list EscalationRule)
    (s : t) (w : World.t) : t * World.t :=
  fold_left (checkEscalationRule now) rules
    (s, World.log CheckingEscalations w).

(** [cleanupOldNotifications]: pull from every alert the notification
    records sent before the cutoff date.  [cutoffDate] is the date the
    function computes from the clock: the same time of day thirty days
    earlier on the local calendar. *)
Definition cleanupOldNotifications (cutoffDate : Z) (w : World.t)
    : World.t :=
  World.setAlerts
    (map (fun a =>
            Alert.setNotifications
              (filter (fun n => negb (Alert.sentAt n <? cutoffDate)%Z)
                 (Alert.notifications a)) a)
       (World.alerts w)) w.

End NotificationService.

(* ================================================================== *)
(** ** The host process: timers, cron jobs and the lines of the logger *)

Module Host.

(** A line of the logger: its level and its text. *)
Record Line : Type := mkLine {
  level : string;
  text : string
}.

(** The intervals that are alive, each with its handle and its period in
    milliseconds, the schedules given to [cron.schedule], and what was
    logged.  [setInterval] hands out a fresh handle. *)
Record t : Type := mk {
  intervals : list (nat * Z);
  nextHandle : nat;
  cronJobs : list string;
  lines : list Line
}.

Definition start : t := mk [] 0 [] [].

Definition log (lvl msg : string) (h : t) : t :=
  mk (intervals h) (nextHandle h) (cronJobs h) (lines h ++ [mkLine lvl msg]).

Definition setInterval (ms : Z) (h : t) : nat * t :=
  (nextHandle h,
   mk (intervals h ++ [(nextHandle h, ms)]) (S (nextHandle h)) (cronJobs h)
      (lines h)).

Definition clearInterval (handle : nat) (h : t) : t :=
  mk (filter (fun i => negb (fst i =? handle)%nat) (intervals h))
     (nextHandle h) (cronJobs h) (lines h).

Definition schedule (expression : string) (h : t) : t :=
  mk (intervals h) (nextHandle h) (cronJobs h ++ [expression]) (lines h).

End Host.

(* ================================================================== *)
(** ** The detector as a service object *)

Module DetectorService.

(** The fields of the [IntrusionDetector] instance. *)
Record t : Type := mk {
  isRunning : bool;
  detectionRules : list IntrusionDetector.Rule;
  detectionInterval : option nat;
  alertThresholds : IntrusionDetector.Thresholds
}.

Definition constructor : t :=
  mk false IntrusionDetector.detectionRules None
     IntrusionDetector.alertThresholds.

Definition setRunning (b : bool) (d : t) : t :=
  mk b (detectionRules d) (detectionInterval d) (alertThresholds d).

Definition setInterval (i : option nat) (d : t) : t :=
  mk (isRunning d) (detectionRules d) i (alertThresholds d).

Definition setRules (rules : list IntrusionDetector.Rule) (d : t) : t :=
  mk (isRunning d) rules (detectionInterval d) (alertThresholds d).

(** [monitorForIntrusions]: a cycle every 30 seconds. *)
Definition monitorForIntrusions (d : t) (h : Host.t) : t * Host.t :=
  let (handle, h1) := Host.setInterval 30000 h in
  (setInterval (Some handle) d, h1).

Definition startDetection (d : t) (h : Host.t) : t * Host.t :=
  if isRunning d then
    (d, Host.log "warn" "Intrusion Detector is already running" h)
  else
    let d1 := setRunning true d in
    let h1 := Host.log "info" "Intrusion Detector started" h in
    monitorForIntrusions d1 h1.

Definition stopDetection (d : t) (h : Host.t) : t * Host.t :=
  if negb (isRunning d) then
    (d, Host.log "warn" "Intrusion Detector is not running" h)
  else
    let d1 := setRunning false d in
    let h1 :=
      match detectionInterval d1 with
      | Some handle => Host.clearInterval handle h
      | None => h
      end in
    (d1, Host.log "info" "Intrusion Detector stopped" h1).

Definition schedulePeriodicDetection (h : Host.t) : Host.t :=
  Host.schedule "0 * * * *" (Host.schedule "*/2 * * * *" h).

Definition initialize (d : t) (h : Host.t) : t * Host.t :=
  let h1 := Host.log "info" "Initializing Intrusion Detection service" h in
  let (d2, h2) := startDetection d h1 in
  (d2, schedulePeriodicDetection h2).

(** What the interval and the two-minute cron job run when they fire. *)
Definition onTick (d : t) (now : Z) (w : World.t) : World.t :=
  if isRunning d
  then IntrusionDetector.runDetectionCycle (alertThresholds d)
         (detectionRules d) now w
  else w.

(** The argument of [updateDetectionRule]: the keys it carries. *)
Record Updates : Type := mkUpdates {
  u_name : option string;
  u_type : option string;
  u_condition :
    option (IntrusionDetector.Thresholds -> list Log.t ->
            Result (list IntrusionDetector.Detection));
  u_severity : option Severity;
  u_enabled : option bool
}.

(** [Object.assign(rule, updates)]. *)
Definition assign (rule : IntrusionDetector.Rule) (u : Updates)
    : IntrusionDetector.Rule :=
  IntrusionDetector.mkRule
    (Alert.orElse (u_name u) (IntrusionDetector.name rule))
    (Alert.orElse (u_type u) (IntrusionDetector.type rule))
    (Alert.orElse (u_condition u) (IntrusionDetector.condition rule))
    (Alert.orElse (u_severity u) (IntrusionDetector.severity rule))
    (Alert.orElse (u_enabled u) (IntrusionDetector.enabled rule)).

(** The rule [find] returns is the first of that name; it is changed in
    place. *)
Fixpoint assignFirst (ruleName : string) (u : Updates)
    (rules : list IntrusionDetector.Rule) : list IntrusionDetector.Rule :=
  match rules with
  | [] => []
  | r :: tl =>
      if String.eqb (IntrusionDetector.name r) ruleName
      then assign r u :: tl
      else r :: assignFirst ruleName u tl
  end.

Definition updateDetectionRule (ruleName : string) (updates : Updates)
    (d : t) (h : Host.t) : t * Host.t :=
  match List.find (fun r => String.eqb (IntrusionDetector.name r) ruleName)
          (detectionRules d) with
  | Some _ =>
      (setRules (assignFirst ruleName updates (detectionRules d)) d,
       Host.log "info" ("Detection rule updated: " ++ ruleName) h)
  | None => (d, h)
  end.

(** [getStatus], without the time stamp it adds. *)
Record Status : Type := mkStatus {
  st_isRunning : bool;
  rulesCount : nat;
  enabledRules : nat;
  thresholds : IntrusionDetector.Thresholds
}.

Definition getStatus (d : t) : Status :=
  mkStatus (isRunning d) (length (detectionRules d))
    (length (filter IntrusionDetector.enabled (detectionRules d)))
    (alertThresholds d).

End DetectorService.

(* ================================================================== *)
(** ** The administration of the notification service *)

Module NotificationAdmin.

Import NotificationService.

(** The channel [find] returns is the first of that name; its switch is
    set in place. *)
Fixpoint setEnabled (channelName : string) (enabled : bool)
    (channels : list Channel) : list Channel :=
  match channels with
  | [] => []
  | c :: tl =>
      if String.eqb (name c) channelName
      then mkChannel (name c) enabled :: tl
      else c :: setEnabled channelName enabled tl
  end.

Definition updateNotificationChannel (channelName : string) (enabled : bool)
    (s : NotificationService.t) (h : Host.t) : NotificationService.t * Host.t :=
  match List.find (fun c => String.eqb (name c) channelName)
          (notificationChannels s) with
  | Some _ =>
      (mk (setEnabled channelName enabled (notificationChannels s))
          (notificationQueue s),
       Host.log "info"
         ("Notification channel " ++ channelName ++ " " ++
          (if enabled then "enabled" else "disabled")) h)
  | None => (s, h)
  end.

(** The document the [$group] stage of [sendDailySummary] builds. *)
Record Summary : Type := mkSummary {
  total : nat;
  critical_count : nat;
  high_count : nat;
  medium_count : nat;
  low_count : nat;
  resolved_count : nat
}.

Definition count (p : Alert.t -> bool) (l : list Alert.t) : nat :=
  length (filter p l).

(** The aggregation: the alerts created from [yesterday] on and before
    [today], grouped into one document; no document when none matches. *)
Definition aggregate (yesterday today : Z) (w : World.t) : list Summary :=
  let matched :=
    filter (fun a => (yesterday <=? Alert.createdAt a)%Z &&
                     (Alert.createdAt a <? today)%Z)
      (World.alerts w) in
  match matched with
  | [] => []
  | _ =>
      [ mkSummary (length matched)
          (count (fun a => Severity_eqb (Alert.severity a) critical) matched)
          (count (fun a => Severity_eqb (Alert.severity a) high) matched)
          (count (fun a => Severity_eqb (Alert.severity a) medium) matched)
          (count (fun a => Severity_eqb (Alert.severity a) low) matched)
          (count (fun a => Status_eqb (Alert.status a) resolved) matched) ]
  end.

(** [sendDailySummary] up to the text it logs: the summary the text is
    rendered from.  [yesterday] and [today] are the two midnights the
    function computes from the clock. *)
Definition sendDailySummary (yesterday today : Z) (w : World.t) : Summary :=
  match aggregate yesterday today w with
  | summary :: _ => summary
  | [] => mkSummary 0 0 0 0 0 0
  end.

End NotificationAdmin.

(* ================================================================== *)
(** ** More of JavaScript's strings and sets *)

Module JSString.

(** The decimal numeral of an integer, as a template literal prints it. *)
Definition numberToString (n : Z) : string :=
  NilZero.string_of_int (Z.to_int n).

Definition upperChar (c : ascii) : ascii :=
  let n := nat_of_ascii c in
  if (97 <=? n)%nat && (n <=? 122)%nat then ascii_of_nat (n - 32) else c.

Fixpoint toUpperCase (s : string) : string :=
  match s with
  | EmptyString => EmptyString
  | String c s' => String (upperChar c) (toUpperCase s')
  end.

(** [s.replace(pattern, replacement)] with a string pattern: the first
    occurrence only. *)
Fixpoint replace (pattern replacement s : string) : string :=
  if String.prefix pattern s
  then replacement ++ String.substring (String.length pattern)
                        (String.length s - String.length pattern) s
  else match s with
       | EmptyString => EmptyString
       | String c s' => String c (replace pattern replacement s')
       end.

(** [s.replace(/c/g, '')] for a character [c]. *)
Fixpoint remove (c : ascii) (s : string) : string :=
  match s with
  | EmptyString => EmptyString
  | String x s' => if Ascii.eqb x c then remove c s' else String x (remove c s')
  end.

(** [s.split(c)] for a separator of one character. *)
Fixpoint split (c : ascii) (s : string) : list string :=
  match s with
  | EmptyString => [EmptyString]
  | String x s' =>
      if Ascii.eqb x c then EmptyString :: split c s'
      else match split c s' with
           | head :: tl => String x head :: tl
           | [] => [String x EmptyString]
           end
  end.

(** [String.prototype.trim] on ASCII. *)
Definition isWhiteSpace (c : ascii) : bool :=
  let n := nat_of_ascii c in
  ((9 <=? n)%nat && (n <=? 13)%nat) || (n =? 32)%nat.

Fixpoint trimStart (s : string) : string :=
  match s with
  | EmptyString => EmptyString
  | String c s' => if isWhiteSpace c then trimStart s' else s
  end.

Fixpoint trimEnd (s : string) : string :=
  match s with
  | EmptyString => EmptyString
  | String c s' =>
      match trimEnd s' with
      | EmptyString => if isWhiteSpace c then EmptyString else String c EmptyString
      | rest => String c rest
      end
  end.

Definition trim (s : string) : string := trimEnd (trimStart s).

End JSString.

(** A [Set] of strings, in insertion order. *)
Module JSSet.

Definition t : Type := list string.

Definition has (x : string) (s : t) : bool := existsb (String.eqb x) s.

Definition add (s : t) (x : string) : t := if has x s then s else (s ++ [x])%list.

Definition from (l : list string) : t := fold_left add l [].

Definition size (s : t) : nat := length s.

End JSSet.

(* ================================================================== *)
(** ** The rules of the correlation engine *)

Module CorrelationRules.

Import CorrelationEngine.
Local Open Scope R_scope.

(** The value of [eventsByIp]: the logs and the alerts of an address. *)
Record Events : Type := mkEvents {
  logs : list Log.t;
  alerts : list Alert.t
}.

Definition alertIp (alert : Alert.t) : string :=
  Alert.orElse (Alert.sourceIp alert) EmptyString.

Definition pushLog (m : JSMap.t Events) (log : Log.t) : JSMap.t Events :=
  if JS.truthy (Log.sourceIp log) then
    let ip := IntrusionDetector.ipOf log in
    let m' := if JSMap.has ip m then m else JSMap.set ip (mkEvents [] []) m in
    let events := Alert.orElse (JSMap.get ip m') (mkEvents [] []) in
    JSMap.set ip (mkEvents (logs events ++ [log]) (alerts events)) m'
  else m.

Definition pushAlert (m : JSMap.t Events) (alert : Alert.t)
    : JSMap.t Events :=
  if JS.truthy (Alert.sourceIp alert) then
    let ip := alertIp alert in
    let m' := if JSMap.has ip m then m else JSMap.set ip (mkEvents [] []) m in
    let events := Alert.orElse (JSMap.get ip m') (mkEvents [] []) in
    JSMap.set ip (mkEvents (logs events) (alerts events ++ [alert])) m'
  else m.

Definition eventsByIp (logs : list Log.t) (alerts : list Alert.t)
    : JSMap.t Events :=
  fold_left pushAlert alerts (fold_left pushLog logs []).

(** *** identifyAttackStages *)

(** An element of [allEvents]. *)
Inductive Event : Type :=
| LogEvent (log : Log.t)
| AlertEvent (alert : Alert.t).

(** [a.timestamp || a.createdAt]: a log has a time stamp, an alert has
    none. *)
Definition timeOf (e : Event) : Z :=
  match e with
  | LogEvent log => Log.timestamp log
  | AlertEvent alert => Alert.createdAt alert
  end.

(** [(event.message || event.title || '').toLowerCase()]. *)
Definition messageOf (e : Event) : string :=
  match e with
  | LogEvent log => JS.toLowerCase (Log.message log)
  | AlertEvent alert => JS.toLowerCase (Alert.title alert)
  end.

(** [allEvents.sort(...)] by time, oldest first; the sort is stable. *)
Fixpoint insertByTime (e : Event) (sorted : list Event) : list Event :=
  match sorted with
  | [] => [e]
  | x :: tl =>
      if (timeOf e <? timeOf x)%Z then e :: sorted
      else x :: insertByTime e tl
  end.

Definition sortByTime (events : list Event) : list Event :=
  fold_left (fun sorted e => insertByTime e sorted) events [].

(** The chain of tests on the message of an event. *)
Definition stageOf (message : string) : option string :=
  if JS.includes message "scan" || JS.includes message "probe"
  then Some "reconnaissance"
  else if JS.includes message "login" || JS.includes message "access"
  then Some "initial_access"
  else if JS.includes message "privilege" || JS.includes message "escalat"
  then Some "privilege_escalation"
  else if JS.includes message "lateral" || JS.includes message "movement"
  then Some "lateral_movement"
  else if JS.includes message "data" || JS.includes message "exfiltrat"
  then Some "data_exfiltration"
  else None.

Definition noteStage (stages : list string) (e : Event) : list string :=
  match stageOf (messageOf e) with
  | Some stage =>
      if existsb (String.eqb stage) stages then stages
      else (stages ++ [stage])%list
  | None => stages
  end.

Definition identifyAttackStages (events : Events) : list string :=
  let allEvents :=
    (map LogEvent (logs events) ++ map AlertEvent (alerts events))%list in
  fold_left noteStage (sortByTime allEvents) [].

(** *** extractAffectedAssets *)

Definition extractAffectedAssets (events : Events) : list string :=
  let assets := fold_left JSSet.add (map Log.source (logs events)) [] in
  fold_left
    (fun assets alert => fold_left JSSet.add (Alert.affectedAssets alert) assets)
    (alerts events) assets.

(** *** detectAttackChain

    The candidates are built without their description and their list of
    related alerts, which the alert schema does not keep. *)

Definition attackChain (now : Z) (sourceIp : string) (events : Events)
    (stageIndicators : list string) : CorrelationData :=
  mkCorrelationData
    ("Multi-Stage Attack Chain Detected from " ++ sourceIp)
    (Some sourceIp)
    (Some (JS.Math_min 95 (60 + INR (length stageIndicators) * 10)))
    (Some (map Log._id (logs events)))
    (Some "Multi-stage attack chain")
    (Some (extractAffectedAssets events))
    (Some ("CHAIN-" ++ JSString.numberToString now ++ "-" ++
           JSString.remove "." sourceIp)).

Definition detectAttackChain (now : Z) (logs : list Log.t)
    (alerts : list Alert.t) (timeWindow : Z) : list CorrelationData :=
  flat_map
    (fun entry : string * Events =>
       let (sourceIp, events) := entry in
       let stageIndicators := identifyAttackStages events in
       if (3 <=? length stageIndicators)%nat
       then [attackChain now sourceIp events stageIndicators]
       else [])
    (eventsByIp logs alerts).

(** *** detectCoordinatedAttack *)

(** The key of a group: the type and the five-minute bucket. *)
Definition bucketKey (alert : Alert.t) : string :=
  Alert.type alert ++ "-" ++
  JSString.numberToString (Alert.createdAt alert / 300000)%Z.

Definition groupAlert (m : JSMap.t (list Alert.t)) (alert : Alert.t)
    : JSMap.t (list Alert.t) :=
  let key := bucketKey alert in
  let m' := if JSMap.has key m then m else JSMap.set key [] m in
  JSMap.set key (Alert.orElse (JSMap.get key m') [] ++ [alert])%list m'.

Definition ipGroups (alerts : list Alert.t) : JSMap.t (list Alert.t) :=
  fold_left groupAlert alerts [].

Definition uniqueIps (alertGroup : list Alert.t) : JSSet.t :=
  JSSet.from
    (filter (fun ip => JS.truthy (Some ip)) (map alertIp alertGroup)).

Definition coordinatedAttack (now : Z) (key : string)
    (alertGroup : list Alert.t) : CorrelationData :=
  let attackType := hd EmptyString (JSString.split "-" key) in
  mkCorrelationData
    ("Coordinated " ++
     JSString.toUpperCase (JSString.replace "_" " " attackType) ++
     " Attack Detected")
    None
    (Some (JS.Math_min 90
             (50 + INR (JSSet.size (uniqueIps alertGroup)) * 10)))
    None
    (Some ("Coordinated " ++ attackType))
    (Some (JSSet.from (flat_map Alert.affectedAssets alertGroup)))
    (Some ("COORD-" ++ JSString.numberToString now ++ "-" ++ attackType)).

Definition detectCoordinatedAttack (now : Z) (logs : list Log.t)
    (alerts : list Alert.t) (timeWindow : Z) : list CorrelationData :=
  flat_map
    (fun entry : string * list Alert.t =>
       let (key, alertGroup) := entry in
       if (3 <=? JSSet.size (uniqueIps alertGroup))%nat
       then [coordinatedAttack now key alertGroup]
       else [])
    (ipGroups alerts).

(** *** detectLateralMovement

    [userOf] reads [details.user] of a log, a field of the mixed [details]
    object that the log model does not carry. *)

Record Pattern : Type := mkPattern {
  systems : JSSet.t;
  events : list Log.t
}.

Section LateralMovement.

Variable userOf : Log.t -> option string.

Definition movementKey (log : Log.t) : string :=
  Alert.orElse (userOf log) EmptyString ++ "-" ++ IntrusionDetector.ipOf log.

Definition trackMovement (m : JSMap.t Pattern) (log : Log.t)
    : JSMap.t Pattern :=
  if Category_eqb (Log.category log) security &&
     JS.truthy (Log.sourceIp log) && JS.truthy (userOf log)
  then
    let key := movementKey log in
    let m' :=
      if JSMap.has key m then m else JSMap.set key (mkPattern [] []) m in
    let pattern := Alert.orElse (JSMap.get key m') (mkPattern [] []) in
    JSMap.set key
      (mkPattern (JSSet.add (systems pattern) (Log.source log))
         (events pattern ++ [log])) m'
  else m.

Definition movementPatterns (logs : list Log.t) : JSMap.t Pattern :=
  fold_left trackMovement logs [].

Definition lateralMovement (now : Z) (key : string) (pattern : Pattern)
    : CorrelationData :=
  let parts := JSString.split "-" key in
  let user := hd EmptyString parts in
  let sourceIp := nth_error parts 1 in
  mkCorrelationData
    ("Lateral Movement Detected - User: " ++ user)
    sourceIp
    (Some (JS.Math_min 85 (40 + INR (JSSet.size (systems pattern)) * 15)))
    (Some (map Log._id (events pattern)))
    (Some "Lateral movement")
    (Some (systems pattern))
    (Some ("LATERAL-" ++ JSString.numberToString now ++ "-" ++ user)).

Definition detectLateralMovement (now : Z) (logs : list Log.t)
    (alerts : list Alert.t) (timeWindow : Z) : list CorrelationData :=
  flat_map
    (fun entry : string * Pattern =>
       let (key, pattern) := entry in
       if (3 <=? JSSet.size (systems pattern))%nat
       then [lateralMovement now key pattern]
       else [])
    (movementPatterns logs).

End LateralMovement.

(** *** detectDataBreachPattern *)

Record Indicators : Type := mkIndicators {
  breachEvents : list Log.t;
  dataVolume : Z
}.

Definition isBreachEvent (log : Log.t) : bool :=
  let message := JS.toLowerCase (Log.message log) in
  JS.includes message "database" || JS.includes message "file" ||
  JS.includes message "download" || JS.includes message "export" ||
  JS.includes message "backup".

Definition noteBreach (m : JSMap.t Indicators) (log : Log.t)
    : JSMap.t Indicators :=
  if JS.truthy (Log.sourceIp log) then
    let ip := IntrusionDetector.ipOf log in
    let m' :=
      if JSMap.has ip m then m else JSMap.set ip (mkIndicators [] 0) m in
    let indicators := Alert.orElse (JSMap.get ip m') (mkIndicators [] 0) in
    JSMap.set ip
      (mkIndicators (breachEvents indicators ++ [log])
         (match IntrusionDetector.sizeOf log with
          | Some size => dataVolume indicators + size
          | None => dataVolume indicators
          end)%Z) m'
  else m.

Definition breachIndicators (logs : list Log.t) : JSMap.t Indicators :=
  fold_left noteBreach (filter isBreachEvent logs) [].

Definition dataBreach (now : Z) (sourceIp : string) (indicators : Indicators)
    : CorrelationData :=
  let hasHighVolume := (50 * 1024 * 1024 <? dataVolume indicators)%Z in
  let hasMultipleAccess := (5 <=? length (breachEvents indicators))%nat in
  mkCorrelationData
    ("Potential Data Breach Pattern from " ++ sourceIp)
    (Some sourceIp)
    (Some (if hasHighVolume && hasMultipleAccess then 80 else 60))
    (Some (map Log._id (breachEvents indicators)))
    (Some "Data breach")
    (Some ["Database"; "File System"]%string)
    (Some ("BREACH-" ++ JSString.numberToString now ++ "-" ++
           JSString.remove "." sourceIp)).

Definition detectDataBreachPattern (now : Z) (logs : list Log.t)
    (alerts : list Alert.t) (timeWindow : Z) : list CorrelationData :=
  flat_map
    (fun entry : string * Indicators =>
       let (sourceIp, indicators) := entry in
       let hasHighVolume := (50 * 1024 * 1024 <? dataVolume indicators)%Z in
       let hasMultipleAccess :=
         (5 <=? length (breachEvents indicators))%nat in
       if hasHighVolume || hasMultipleAccess
       then [dataBreach now sourceIp indicators]
       else [])
    (breachIndicators logs).

End CorrelationRules.

(* ================================================================== *)
(** ** models/Log.js with the fields the collector writes *)

Module Level.

Inductive t : Type := debug | info | warn | error | critical.

Definition eqb (a b : t) : bool :=
  match a, b with
  | debug, debug | info, info | warn, warn | error, error
  | critical, critical => true
  | _, _ => false
  end.

End Level.

Module LogDoc.

(** The keys of the mixed [details] object that the services read. *)
Record Details : Type := mkDetails {
  sourceIp_ : option string;
  size : option Z;
  user : option string
}.

Definition noDetails : Details := mkDetails None None None.

Record t : Type := mk {
  _id : Z;
  timestamp : Z;
  level : Level.t;
  source : string;
  message : string;
  details : Details;
  category : Category;
  severity : Z;
  sourceIp : option string;
  processed : bool;
  threatLevel : Severity
}.

(** [logSchema.pre('save')]. *)
Definition preSave (d : t) : t :=
  let threatLevel :=
    if Category_eqb (category d) security && (8 <=? severity d)%Z
    then critical
    else if (7 <=? severity d)%Z then high
    else if (5 <=? severity d)%Z then medium
    else low in
  mk (_id d) (timestamp d) (level d) (source d) (message d) (details d)
     (category d) (severity d) (sourceIp d) (processed d) threatLevel.

(** The pattern of the [match] validator of [sourceIp]:
    [/^(?:[0-9]{1,3}\.){3}[0-9]{1,3}$|^([0-9a-fA-F]{1,4}:){7}[0-9a-fA-F]{1,4}$/],
    matched against the whole string. *)
Definition digit : RegExp.t :=
  RegExp.Sym (fun c =>
    let n := nat_of_ascii c in (48 <=? n)%nat && (n <=? 57)%nat).

Definition hexDigit : RegExp.t :=
  RegExp.Sym (fun c =>
    let n := nat_of_ascii c in
    ((48 <=? n)%nat && (n <=? 57)%nat) ||
    ((97 <=? n)%nat && (n <=? 102)%nat) ||
    ((65 <=? n)%nat && (n <=? 70)%nat)).

Definition opt (r : RegExp.t) : RegExp.t := RegExp.Alt r RegExp.Eps.

(** [r{n}], [r{1,3}] and [r{1,4}]. *)
Fixpoint times (n : nat) (r : RegExp.t) : RegExp.t :=
  match n with
  | O => RegExp.Eps
  | S n' => RegExp.Cat r (times n' r)
  end.

Definition upTo3 (r : RegExp.t) : RegExp.t := RegExp.seq [r; opt r; opt r].

Definition upTo4 (r : RegExp.t) : RegExp.t :=
  RegExp.seq [r; opt r; opt r; opt r].

Definition addressFormat : RegExp.t :=
  RegExp.Alt
    (RegExp.Cat (times 3 (RegExp.Cat (upTo3 digit) (RegExp.chr ".")))
       (upTo3 digit))
    (RegExp.Cat (times 7 (RegExp.Cat (upTo4 hexDigit) (RegExp.chr ":")))
       (upTo4 hexDigit)).

(** The validators of the schema that a document of the collector can
    fail: [source] and [message] are required and bounded in length,
    [severity] lies between 1 and 10, and [sourceIp], when it is there and
    not empty, matches the pattern.  The other paths hold a value of their
    enum by their type. *)
Definition validate (d : t) : bool :=
  negb (String.eqb (source d) EmptyString) &&
  (String.length (source d) <=? 100)%nat &&
  negb (String.eqb (message d) EmptyString) &&
  (String.length (message d) <=? 1000)%nat &&
  (1 <=? severity d)%Z && (severity d <=? 10)%Z &&
  match sourceIp d with
  | Some (String _ _ as ip) => RegExp.matches addressFormat ip
  | _ => true
  end.

(** The document as the detector and the correlation engine read it. *)
Definition view (d : t) : Log.t :=
  Log.mk (_id d) (timestamp d) (source d) (message d)
    (Some (Log.mkDetails (size (details d)))) (category d) (sourceIp d)
    (processed d).

End LogDoc.

(* ================================================================== *)
(** ** services/logCollector.js *)

Module LogCollector.

(** An entry read from a log source. *)
Record RawEntry : Type := mkRawEntry {
  timestamp : option Z;
  level : option Level.t;
  source : option string;
  message : string;
  details : option LogDoc.Details
}.

(** What a parser returns. *)
Record LogData : Type := mkLogData {
  data_timestamp : Z;
  data_level : Level.t;
  data_source : string;
  data_message : string;
  data_details : LogDoc.Details;
  data_category : Category;
  data_severity : Z;
  data_sourceIp : option string;
  data_threatLevel : option Severity
}.

(** [severityMap[level] || 5]: an entry without a level gets 5. *)
Definition calculateSeverity (level : option Level.t) : Z :=
  match level with
  | Some Level.debug => 1
  | Some Level.info => 3
  | Some Level.warn => 6
  | Some Level.error => 8
  | Some Level.critical => 10
  | None => 5
  end.

Definition orDefault (s : option string) (d : string) : string :=
  if JS.truthy s then Alert.orElse s d else d.

(** [entry.details?.sourceIp]. *)
Definition detailsIp (entry : RawEntry) : option string :=
  match details entry with
  | Some d => LogDoc.sourceIp_ d
  | None => None
  end.

Definition parseSystemLog (now : Z) (entry : RawEntry) : LogData :=
  mkLogData (Alert.orElse (timestamp entry) now)
    (Alert.orElse (level entry) Level.info)
    (orDefault (source entry) "system")
    (message entry)
    (Alert.orElse (details entry) LogDoc.noDetails)
    system
    (calculateSeverity (level entry))
    (detailsIp entry)
    None.

Definition parseApacheLog (now : Z) (entry : RawEntry) : LogData :=
  mkLogData (Alert.orElse (timestamp entry) now)
    (Alert.orElse (level entry) Level.info)
    (orDefault (source entry) "apache")
    (message entry)
    (Alert.orElse (details entry) LogDoc.noDetails)
    application
    (calculateSeverity (level entry))
    (detailsIp entry)
    None.

Definition isWarn (level : option Level.t) : bool :=
  match level with Some Level.warn => true | _ => false end.

Definition isSecurityEvent (entry : RawEntry) : bool :=
  JS.includes (message entry) "Failed" ||
  JS.includes (message entry) "authentication" ||
  JS.includes (message entry) "login".

Definition parseSecurityLog (now : Z) (entry : RawEntry) : LogData :=
  mkLogData (Alert.orElse (timestamp entry) now)
    (Alert.orElse (level entry) Level.info)
    (orDefault (source entry) "auth")
    (message entry)
    (Alert.orElse (details entry) LogDoc.noDetails)
    security
    (if isSecurityEvent entry
     then (if isWarn (level entry) then 7 else 5)
     else calculateSeverity (level entry))
    (detailsIp entry)
    (Some (if isSecurityEvent entry && isWarn (level entry)
           then medium else low)).

(** The collection of logs, and what the collector logs: the logs of high
    severity and the logs whose save failed. *)
Record Store : Type := mkStore {
  docs : list LogDoc.t;
  nextId : Z;
  highSeverity : list Z;
  rejected : list Z
}.

Definition emptyStore : Store := mkStore [] 0 [] [].

(** [new Log(logData)]: the schema trims [source] and [sourceIp], and a
    new log is not processed. *)
Definition newLog (id : Z) (logData : LogData) : LogDoc.t :=
  LogDoc.mk id (data_timestamp logData) (data_level logData)
    (JSString.trim (data_source logData)) (data_message logData)
    (data_details logData) (data_category logData) (data_severity logData)
    (option_map JSString.trim (data_sourceIp logData)) false
    (Alert.orElse (data_threatLevel logData) low).

(** [storeLog]: [save] validates the document, runs the pre-save hook and
    writes it; when the validation fails, the error is caught and logged,
    and nothing is written. *)
Definition storeLog (logData : LogData) (st : Store) : Store :=
  let log := newLog (nextId st) logData in
  if LogDoc.validate log then
    let log := LogDoc.preSave log in
    mkStore (docs st ++ [log]) (nextId st + 1)
      (if (7 <=? LogDoc.severity log)%Z
       then highSeverity st ++ [LogDoc._id log]
       else highSeverity st)
      (rejected st)
  else
    mkStore (docs st) (nextId st + 1) (highSeverity st)
      (rejected st ++ [nextId st]).

(** [collectFromSource] on the entries read from the source. *)
Definition collectFromSource (parser : Z -> RawEntry -> LogData) (now : Z)
    (newEntries : list RawEntry) (st : Store) : Store :=
  fold_left (fun st entry => storeLog (parser now entry) st) newEntries st.

(** [cleanupOldLogs]: [cutoffDate] is the day ninety days before the
    clock. *)
Definition cleanupOldLogs (cutoffDate : Z) (st : Store) : Store :=
  mkStore
    (filter
       (fun d =>
          negb ((LogDoc.timestamp d <? cutoffDate)%Z &&
                (Level.eqb (LogDoc.level d) Level.debug ||
                 Level.eqb (LogDoc.level d) Level.info)))
       (docs st))
    (nextId st) (highSeverity st) (rejected st).

End LogCollector.

(* ================================================================== *)
(** ** Queries of the alert model and of the routes *)

Module AlertQueries.

Definition Severity_name (s : Severity) : string :=
  match s with
  | low => "low"
  | medium => "medium"
  | high => "high"
  | critical => "critical"
  end.

(** [sort(...)]: the documents in the order of the sort keys; [before x y]
    says that the keys put [x] ahead of [y]. *)
Section Sort.

Variable A : Type.
Variable before : A -> A -> bool.

Fixpoint insert (x : A) (sorted : list A) : list A :=
  match sorted with
  | [] => [x]
  | y :: tl => if before x y then x :: sorted else y :: insert x tl
  end.

Definition sort (l : list A) : list A :=
  fold_left (fun sorted x => insert x sorted) l [].

End Sort.

Arguments insert {A} before x sorted.
Arguments sort {A} before l.

(** [{ createdAt: -1 }]. *)
Definition newerFirst (x y : Alert.t) : bool :=
  (Alert.createdAt y <? Alert.createdAt x)%Z.

(** An alert with the user it is assigned to, a field of the schema that
    the alert model above does not carry. *)
Record Assigned : Type := mkAssigned {
  alert : Alert.t;
  assignedTo : option Z
}.

(** [{ severity: -1, createdAt: -1 }]: [severity] is a string, which
    sorts by its characters. *)
Definition severityThenNewerFirst (x y : Assigned) : bool :=
  match String.compare (Severity_name (Alert.severity (alert x)))
          (Severity_name (Alert.severity (alert y))) with
  | Gt => true
  | Lt => false
  | Eq => newerFirst (alert x) (alert y)
  end.

(** The statics of the model. *)
Definition getActiveAlerts (w : World.t) : list Alert.t :=
  sort newerFirst
    (World.find (fun a => Status_eqb (Alert.status a) active) w).

Definition getAlertsBySeverity (severity : Severity) (w : World.t)
    : list Alert.t :=
  sort newerFirst
    (World.find (fun a => Severity_eqb (Alert.severity a) severity) w).

Definition getUnassignedAlerts (collection : list Assigned) : list Assigned :=
  sort severityThenNewerFirst
    (filter
       (fun d =>
          match assignedTo d with None => true | Some _ => false end &&
          Status_eqb (Alert.status (alert d)) active)
       collection).

(** [GET /]: one page of the alerts the filter of the request accepts,
    with the figures of the pagination.  [page] and [limit] are the
    numbers the validation lets through: [page] is 1 or more, [limit]
    lies between 1 and 100. *)
Record Pagination : Type := mkPagination {
  current : nat;
  pages : Z;
  total : nat;
  limit_ : nat
}.

Definition listAlerts (query : Alert.t -> bool) (page limit : nat)
    (w : World.t) : list Alert.t * Pagination :=
  let skip := ((page - 1) * limit)%nat in
  let alerts :=
    firstn limit (skipn skip (sort newerFirst (World.find query w))) in
  let total := length (World.find query w) in
  (alerts,
   mkPagination page (Zceil (INR total / INR limit)) total limit).

(** [POST /process] of the log routes, for a user who is signed in: the
    status of the answer and the collection after the update.  The count
    of modified documents that the answer repeats is left out. *)
Definition postProcess (logIds : list Z) (w : World.t) : nat * World.t :=
  match logIds with
  | [] => (400%nat, w)
  | _ => (200%nat, IntrusionDetector.markProcessed logIds w)
  end.

End AlertQueries.

(* ================================================================== *)
(** ** The validators of the alert schema *)

Module AlertSchema.

Definition oneOf (values : list string) (s : string) : bool :=
  existsb (String.eqb s) values.

Definition types : list string :=
  [ "brute_force"; "sql_injection"; "xss_attack"; "ddos"; "malware";
    "unauthorized_access"; "data_exfiltration"; "privilege_escalation";
    "anomaly"; "policy_violation"; "other" ].

Definition detectionMethods : list string :=
  [ "signature"; "anomaly"; "behavioral"; "ml"; "correlation" ].

Definition methods : list string := [ "email"; "sms"; "webhook"; "dashboard" ].

Definition notificationStatuses : list string := [ "pending"; "sent"; "failed" ].

Definition validNotification (n : Alert.Notification) : bool :=
  oneOf methods (Alert.method n) &&
  oneOf notificationStatuses (Alert.notif_status n).

(** What [save] checks on a document, on the paths this model carries:
    [title] is there and has at most 200 characters, [type],
    [detectionMethod] and, for every element of [notifications], [method]
    and [status] are values of their enum, [sourceIp], when it is there
    and not empty, matches the pattern of an address, and [confidence] and
    [riskScore] lie in their range.  [severity] and [status] hold a value
    of their enum by their type; [alertId] and [description], which the
    model leaves out, are taken to be there.  The paths of a document read
    from the collection are checked whether they were changed or not. *)
Definition validate (a : Alert.t) : bool :=
  negb (String.eqb (Alert.title a) EmptyString) &&
  (String.length (Alert.title a) <=? 200)%nat &&
  oneOf types (Alert.type a) &&
  match Alert.sourceIp a with
  | Some (String _ _ as ip) => RegExp.matches LogDoc.addressFormat ip
  | _ => true
  end &&
  JS.geb (Alert.confidence a) 0 && JS.geb 100 (Alert.confidence a) &&
  JS.geb (Alert.riskScore a) 0 && JS.geb 10 (Alert.riskScore a) &&
  oneOf detectionMethods (Alert.detectionMethod a) &&
  forallb validNotification (Alert.notifications a).

End AlertSchema.

(** [IntrusionAlert.prototype.updateStatus]: the changes in memory, then
    [this.save()].  The save validates the document before the pre-save
    middleware runs; a document that fails a validator is not written, and
    the call is rejected. *)
Definition updateStatus (now : Z) (newStatus : Status) (userId : Z)
    (notes : option string) (a : Alert.t) (w : World.t) : World.t :=
  let a' := Alert.updateStatus_body now newStatus userId notes a in
  if AlertSchema.validate a' then World.save a' w else w.

(* ================================================================== *)
(** * Properties *)

(** ** Numbers, options and lists *)

(** Split the boolean conjunctions among the hypotheses. *)
Ltac andb_hyps :=
  repeat match goal with
         | H : _ && _ = true |- _ => apply andb_true_iff in H; destruct H
         end.

Section JSFacts.

Local Open Scope R_scope.

Lemma gtb_true (a b : R) : JS.gtb a b = true <-> b < a.
Proof. unfold JS.gtb. destruct (Rlt_dec b a); split; intros; try easy. Qed.

Lemma gtb_false (a b : R) : JS.gtb a b = false <-> a <= b.
Proof.
  unfold JS.gtb. destruct (Rlt_dec b a); split; intros; try easy; lra.
Qed.

Lemma geb_true (a b : R) : JS.geb a b = true <-> b <= a.
Proof. unfold JS.geb. destruct (Rle_dec b a); split; intros; try easy. Qed.

Lemma geb_false (a b : R) : JS.geb a b = false <-> a < b.
Proof.
  unfold JS.geb. destruct (Rle_dec b a); split; intros; try easy; lra.
Qed.

Lemma Math_max_eq (a b : R) :
  JS.Math_max a b = a /\ b <= a \/ JS.Math_max a b = b /\ a <= b.
Proof.
  unfold JS.Math_max, Rmax. destruct (Rle_dec a b); [right | left]; lra.
Qed.

Lemma Math_min_le_l (a b : R) : JS.Math_min a b <= a.
Proof. apply Rmin_l. Qed.

End JSFacts.

(** Turn the comparisons on numbers among the hypotheses into orders. *)
Ltac order_hyps :=
  repeat match goal with
         | H : JS.geb _ _ = true |- _ => apply geb_true in H
         | H : JS.geb _ _ = false |- _ => apply geb_false in H
         | H : JS.gtb _ _ = true |- _ => apply gtb_true in H
         | H : JS.gtb _ _ = false |- _ => apply gtb_false in H
         end.

Lemma option_eqb_string_eq (x y : option string) :
  option_eqb String.eqb x y = true <-> x = y.
Proof.
  destruct x as [a|], y as [b|]; simpl; split; intros H; try easy.
  - apply String.eqb_eq in H. now subst.
  - injection H as ->. apply String.eqb_refl.
Qed.

Lemma Status_eqb_eq (a b : Status) : Status_eqb a b = true <-> a = b.
Proof. destruct a, b; simpl; split; intros; easy. Qed.

Lemma Severity_eqb_eq (a b : Severity) : Severity_eqb a b = true <-> a = b.
Proof. destruct a, b; simpl; split; intros; easy. Qed.

(** ** The collection of alerts *)

Section Collection.

Definition ids (l : list Alert.t) : list Z := map Alert._id l.

Lemma replace_ids (a : Alert.t) (l : list Alert.t) :
  ids (World.replace a l) = ids l.
Proof.
  induction l as [|x tl IH]; simpl; [reflexivity|].
  destruct (Z.eqb_spec (Alert._id x) (Alert._id a)) as [E|E]; simpl.
  - now rewrite E.
  - now rewrite IH.
Qed.

Lemma replace_length (a : Alert.t) (l : list Alert.t) :
  length (World.replace a l) = length l.
Proof.
  rewrite <- (length_map Alert._id (World.replace a l)).
  fold (ids (World.replace a l)). rewrite replace_ids.
  apply length_map.
Qed.

Lemma replace_In (a : Alert.t) (l : list Alert.t) :
  In (Alert._id a) (ids l) -> In a (World.replace a l).
Proof.
  induction l as [|x tl IH]; simpl; [easy|].
  intros H. destruct (Z.eqb_spec (Alert._id x) (Alert._id a)) as [E|E].
  - now left.
  - right. apply IH. destruct H; [contradiction | assumption].
Qed.

Lemma replace_In_inv (a x : Alert.t) (l : list Alert.t) :
  In x (World.replace a l) -> x = a \/ In x l.
Proof.
  induction l as [|y tl IH]; simpl; [easy|].
  destruct (Z.eqb_spec (Alert._id y) (Alert._id a)) as [E|E]; simpl.
  - intros [H|H]; [left; now symmetry | right; now right].
  - intros [H|H]; [right; now left |].
    destruct (IH H); [now left | right; now right].
Qed.

Lemma replace_other (a x : Alert.t) (l : list Alert.t) :
  In x l -> Alert._id x <> Alert._id a -> In x (World.replace a l).
Proof.
  induction l as [|y tl IH]; simpl; [easy|].
  intros [H|H] N.
  - subst y. destruct (Z.eqb_spec (Alert._id x) (Alert._id a)); [easy|].
    now left.
  - destruct (Z.eqb_spec (Alert._id y) (Alert._id a)).
    + now right.
    + right. now apply IH.
Qed.

Lemma updateById_ids (id : Z) (f : Alert.t -> Alert.t) (l : list Alert.t) :
  (forall x, Alert._id (f x) = Alert._id x) ->
  ids (World.updateById id f l) = ids l.
Proof.
  intros Hf. induction l as [|x tl IH]; simpl; [reflexivity|].
  destruct (Z.eqb_spec (Alert._id x) id); simpl.
  - now rewrite Hf.
  - now rewrite IH.
Qed.

Lemma updateById_Forall (P : Alert.t -> Prop) (id : Z)
    (f : Alert.t -> Alert.t) (l : list Alert.t) :
  (forall x, P x -> P (f x)) ->
  Forall P l -> Forall P (World.updateById id f l).
Proof.
  intros Hf. induction 1 as [|x tl Hx Htl IH]; simpl; [constructor|].
  destruct (Z.eqb_spec (Alert._id x) id); constructor; auto.
Qed.

Lemma replace_Forall (P : Alert.t -> Prop) (a : Alert.t) (l : list Alert.t) :
  P a -> Forall P l -> Forall P (World.replace a l).
Proof.
  intros Ha. induction 1 as [|x tl Hx Htl IH]; simpl; [constructor|].
  destruct (Z.eqb_spec (Alert._id x) (Alert._id a)); constructor; auto.
Qed.

Lemma find_In_id (f : Alert.t -> bool) (l : list Alert.t) (a : Alert.t) :
  List.find f l = Some a -> In (Alert._id a) (ids l).
Proof.
  intros H. apply find_some in H. destruct H as [H _].
  unfold ids. now apply in_map.
Qed.

End Collection.

(* ================================================================== *)
(** ** Severity of a composite alert *)

Section CorrelationSeverity.

Import CorrelationEngine.
Local Open Scope R_scope.

Lemma orFifty_cases (x : option R) :
  orFifty x = match x with Some c => c | None => 50 end \/
  (x = Some 0 /\ orFifty x = 50).
Proof.
  destruct x as [c|]; simpl; [|now left].
  destruct (Req_dec_T c 0) as [->|N]; [right; split; reflexivity | now left].
Qed.

(** C9: the severity of a correlation candidate is critical when its
    confidence is at least 80 and it names at least 3 affected assets;
    otherwise high when the confidence is at least 70 or it names at least
    2 assets; otherwise medium when the confidence is at least 60; otherwise
    low.  An absent confidence counts as 50, an absent asset list as
    empty. *)
Theorem C9_calculateCorrelationSeverity (cd : CorrelationData) :
  let c := match confidence cd with Some x => x | None => 50 end in
  let n := length (match affectedAssets cd with Some l => l | None => [] end) in
  let sev := calculateCorrelationSeverity cd in
  (80 <= c /\ (3 <= n)%nat -> sev = critical) /\
  (~ (80 <= c /\ (3 <= n)%nat) -> 70 <= c \/ (2 <= n)%nat -> sev = high) /\
  (~ (80 <= c /\ (3 <= n)%nat) -> ~ (70 <= c \/ (2 <= n)%nat) ->
   60 <= c -> sev = medium) /\
  (~ (80 <= c /\ (3 <= n)%nat) -> ~ (70 <= c \/ (2 <= n)%nat) ->
   ~ 60 <= c -> sev = low).
Proof.
  intros c n sev. subst sev. unfold calculateCorrelationSeverity.
  fold n. unfold Alert.orElse. fold n.
  assert (Hc : orFifty (confidence cd) = c \/
               (c = 0 /\ orFifty (confidence cd) = 50)).
  { subst c. destruct (orFifty_cases (confidence cd)) as [H|[H1 H2]].
    - now left.
    - right. split; [now rewrite H1 | exact H2]. }
  set (k := orFifty (confidence cd)) in *.
  destruct (JS.geb k 80) eqn:G80; destruct (JS.geb k 70) eqn:G70;
    destruct (JS.geb k 60) eqn:G60;
    destruct (Nat.leb_spec 3 n); destruct (Nat.leb_spec 2 n); simpl;
    order_hyps;
    (repeat split; intros; try reflexivity; exfalso;
     destruct Hc as [Hc|[Hc0 Hc]]; first [lra | lia | tauto |
       (repeat match goal with
               | H : ~ (_ /\ _) |- _ => apply Decidable.not_and in H;
                   [| unfold Decidable.decidable; lra]
               | H : ~ (_ \/ _) |- _ => apply Decidable.not_or in H
               | H : _ /\ _ |- _ => destruct H
               | H : _ \/ _ |- _ => destruct H
               end; first [lra | lia])]).
Qed.

End CorrelationSeverity.

(* ================================================================== *)
(** ** Status transitions *)

Section StatusTransitions.

Definition statusEntry (now : Z) (oldStatus newStatus : Status) (userId : Z)
    (notes : option string) : Alert.TimelineEntry :=
  Alert.mkEntry now "Status Changed"
    ("Status changed from " ++ Status_name oldStatus ++ " to " ++
     Status_name newStatus ++
     (if JS.truthy notes then ": " ++ Alert.orElse notes EmptyString
      else EmptyString))
    (Some userId).

Lemma updateStatus_body_fields (now : Z) (newStatus : Status) (userId : Z)
    (notes : option string) (a : Alert.t) :
  let a' := Alert.updateStatus_body now newStatus userId notes a in
  Alert._id a' = Alert._id a /\
  Alert.status a' = newStatus /\
  Alert.timeline a' =
    (Alert.timeline a ++
     [statusEntry now (Alert.status a) newStatus userId notes])%list /\
  (newStatus = resolved ->
   Alert.resolvedAt a' = Some now /\ Alert.resolvedBy a' = Some userId) /\
  (newStatus <> resolved ->
   Alert.resolvedAt a' = Alert.resolvedAt a /\
   Alert.resolvedBy a' = Alert.resolvedBy a).
Proof.
  destruct newStatus; cbn; repeat split; intros; try reflexivity;
    try discriminate; try contradiction.
Qed.

(** The transition changes no path that a validator reads. *)
Lemma validate_updateStatus_body (now : Z) (newStatus : Status) (userId : Z)
    (notes : option string) (a : Alert.t) :
  AlertSchema.validate (Alert.updateStatus_body now newStatus userId notes a)
  = AlertSchema.validate a.
Proof. destruct newStatus; reflexivity. Qed.

Lemma updateStatus_valid (now : Z) (newStatus : Status) (userId : Z)
    (notes : option string) (a : Alert.t) (w : World.t) :
  AlertSchema.validate a = true ->
  updateStatus now newStatus userId notes a w =
  World.save (Alert.updateStatus_body now newStatus userId notes a) w.
Proof.
  intros V. unfold updateStatus. cbv zeta.
  now rewrite validate_updateStatus_body, V.
Qed.

Lemma updateStatus_invalid (now : Z) (newStatus : Status) (userId : Z)
    (notes : option string) (a : Alert.t) (w : World.t) :
  AlertSchema.validate a = false ->
  updateStatus now newStatus userId notes a w = w.
Proof.
  intros V. unfold updateStatus. cbv zeta.
  now rewrite validate_updateStatus_body, V.
Qed.

(** A transition to [false_positive] of an alert that was never resolved
    stores the new status and the timeline entry, and leaves [resolvedAt]
    and [resolvedBy] unset. *)
Definition alert0 : Alert.t :=
  Alert.mk 1 "Brute Force Attack Detected from 203.0.113.10" high
    "brute_force" active (Some "203.0.113.10") ["Authentication System"]
    (Some "Authentication brute force") 90 (36 / 5) [11; 12; 13]%Z None
    "signature" [] [] None None None 1000.

Definition world0 : World.t := World.mk [] [alert0] [] 2.

Lemma alert0_valid : AlertSchema.validate alert0 = true.
Proof.
  unfold AlertSchema.validate.
  cbn [alert0 Alert.title Alert.type Alert.sourceIp Alert.confidence
       Alert.riskScore Alert.detectionMethod Alert.notifications forallb].
  assert (G1 : JS.geb 90 0 = true) by (apply geb_true; lra).
  assert (G2 : JS.geb 100 90 = true) by (apply geb_true; lra).
  assert (G3 : JS.geb (36 / 5) 0 = true) by (apply geb_true; lra).
  assert (G4 : JS.geb 10 (36 / 5) = true) by (apply geb_true; lra).
  rewrite G1, G2, G3, G4. reflexivity.
Qed.

Lemma updateStatus_false_positive_leaves_resolvedAt_unset :
  exists a',
    World.alerts (updateStatus 2000 false_positive 7 None alert0 world0) =
      [a'] /\
    Alert.status a' = false_positive /\
    length (Alert.timeline a') = 1%nat /\
    Alert.resolvedAt a' = None /\
    Alert.resolvedBy a' = None.
Proof.
  rewrite (updateStatus_valid _ _ _ _ _ _ alert0_valid).
  eexists. split; [reflexivity|]. cbn. repeat split.
Qed.

(** The record of an escalation of the critical or of the high tier names
    its channels in one string, which is no value of the enum of
    [notifications.method]. *)
Lemma escalation_record_invalid (rule : NotificationService.EscalationRule)
    (n : Alert.Notification) (a : Alert.t) :
  In rule NotificationService.escalationRules ->
  NotificationService.severity rule <> medium ->
  In n (Alert.notifications a) ->
  Alert.method n = JS.join "," (NotificationService.channels rule) ->
  AlertSchema.validate a = false.
Proof.
  intros Hrule Hsev Hn Hm.
  assert (V : AlertSchema.validNotification n = false).
  { unfold AlertSchema.validNotification. rewrite Hm.
    unfold NotificationService.escalationRules in Hrule. simpl in Hrule.
    destruct Hrule as [<-|[<-|[<-|[]]]]; try reflexivity.
    now contradiction Hsev. }
  assert (F : forallb AlertSchema.validNotification (Alert.notifications a)
              = false).
  { apply not_true_is_false. intros T.
    rewrite forallb_forall in T. specialize (T n Hn). congruence. }
  unfold AlertSchema.validate. rewrite F. apply andb_false_r.
Qed.

(** C7 (as the code has it): [updateStatus] on a stored alert that passes
    the validators of the schema stores the new status and appends one
    "Status Changed" timeline entry; a transition to [resolved] also sets
    [resolvedAt] and [resolvedBy]; any other transition, [false_positive]
    included, leaves both as they were.  For a stored alert that fails a
    validator the save is rejected and nothing is stored; this is the case
    of every alert that carries the record of an escalation of the
    critical or of the high tier. *)
Theorem C7_updateStatus (now : Z) (newStatus : Status) (userId : Z)
    (notes : option string) (a : Alert.t) (w : World.t)
    (Hin : In a (World.alerts w)) :
  (AlertSchema.validate a = true ->
   exists a',
     In a' (World.alerts (updateStatus now newStatus userId notes a w)) /\
     Alert._id a' = Alert._id a /\
     Alert.status a' = newStatus /\
     Alert.timeline a' =
       (Alert.timeline a ++
        [statusEntry now (Alert.status a) newStatus userId notes])%list /\
     (newStatus = resolved ->
      Alert.resolvedAt a' = Some now /\ Alert.resolvedBy a' = Some userId) /\
     (newStatus <> resolved ->
      Alert.resolvedAt a' = Alert.resolvedAt a /\
      Alert.resolvedBy a' = Alert.resolvedBy a)) /\
  (AlertSchema.validate a = false ->
   updateStatus now newStatus userId notes a w = w) /\
  (forall rule n,
     In rule NotificationService.escalationRules ->
     NotificationService.severity rule <> medium ->
     In n (Alert.notifications a) ->
     Alert.method n = JS.join "," (NotificationService.channels rule) ->
     updateStatus now newStatus userId notes a w = w).
Proof.
  split; [|split].
  - intros V.
    pose proof (updateStatus_body_fields now newStatus userId notes a) as F.
    cbv zeta in F. destruct F as (Fid & Fst & Ftl & Fres & Fnot).
    exists (Alert.preSave
              (Alert.updateStatus_body now newStatus userId notes a)).
    split.
    + rewrite (updateStatus_valid _ _ _ _ _ _ V).
      unfold World.save. simpl. apply replace_In.
      change (Alert._id (Alert.preSave ?x)) with (Alert._id x).
      rewrite Fid. unfold ids. now apply in_map.
    + repeat split; try assumption; try (now apply Fres); now apply Fnot.
  - apply updateStatus_invalid.
  - intros rule n Hrule Hsev Hn Hm. apply updateStatus_invalid.
    exact (escalation_record_invalid rule n a Hrule Hsev Hn Hm).
Qed.

(** Resolving the stored brute-force alert. *)
Lemma C7_updateStatus_witness :
  exists a',
    In a'
      (World.alerts
         (updateStatus 2000 resolved 7 (Some "done") alert0 world0)) /\
    Alert._id a' = 1%Z /\
    Alert.status a' = resolved /\
    Alert.timeline a' =
      [statusEntry 2000 active resolved 7 (Some "done")] /\
    (resolved = resolved ->
     Alert.resolvedAt a' = Some 2000%Z /\ Alert.resolvedBy a' = Some 7%Z) /\
    (resolved <> resolved ->
     Alert.resolvedAt a' = None /\ Alert.resolvedBy a' = None).
Proof.
  apply (proj1 (C7_updateStatus 2000 resolved 7 (Some "done") alert0 world0
                  (or_introl eq_refl))).
  exact alert0_valid.
Defined.

End StatusTransitions.

(* ================================================================== *)
(** ** Correlated alerts are created once *)

Section CorrelatedAlerts.

Import CorrelationEngine.
Local Open Scope R_scope.

Lemma find_ext_alert (f g : Alert.t -> bool) (l : list Alert.t) :
  (forall x, f x = g x) -> List.find f l = List.find g l.
Proof.
  intros E. induction l as [|x tl IH]; simpl; [reflexivity|].
  rewrite E, IH. reflexivity.
Qed.

Lemma find_app_new (f : Alert.t -> bool) (l : list Alert.t) (a : Alert.t) :
  List.find f l = None -> f a = true -> List.find f (l ++ [a]) = Some a.
Proof.
  induction l as [|x tl IH]; simpl; intros Hn Ha.
  - now rewrite Ha.
  - destruct (f x); [discriminate | now apply IH].
Qed.

(** An alert filed through the API under a correlation id. *)
Definition chainAlert : Alert.t :=
  Alert.mk 1 "Multi-Stage Attack Chain Detected from 198.51.100.7" high
    "unauthorized_access" active (Some "198.51.100.7")
    ["web-01"; "db-01"]%string
    (Some "Multi-stage attack chain") 60 (24 / 5) [] (Some "CHAIN-1-198511007")
    "correlation" [] [] None None None 1000.

Definition chainWorld : World.t := World.mk [] [chainAlert] [] 2.

Definition chainCandidate : CorrelationData :=
  mkCorrelationData "Multi-Stage Attack Chain Detected from 198.51.100.7"
    (Some "198.51.100.7") (Some 90) (Some [21; 22]%Z)
    (Some "Multi-stage attack chain") (Some ["web-01"; "db-01"]%string)
    (Some "CHAIN-1-198511007").

Definition chainRule : Rule :=
  mkRule "Multi-Stage Attack Detection" "attack_chain"
    (fun _ _ _ => Ok []) 3600000 true.

(** A candidate of confidence 90 meets a stored alert of confidence 60 with
    its correlation id: the stored alert keeps confidence 60, which is not
    the maximum of the two. *)
Lemma createCorrelatedAlert_keeps_confidence :
  World.findOne (sameCorrelation chainCandidate) chainWorld = Some chainAlert /\
  World.alerts
    (snd (createCorrelatedAlert 5000 chainCandidate chainRule chainWorld)) =
    [chainAlert] /\
  Alert.confidence chainAlert <> JS.Math_max (Alert.confidence chainAlert) 90.
Proof.
  split; [reflexivity|]. split; [reflexivity|].
  simpl. unfold JS.Math_max, Rmax. destruct (Rle_dec 60 90); lra.
Qed.

Lemma createCorrelatedAlert_existing (now : Z) (cd : CorrelationData)
    (rule : Rule) (w : World.t) (existing : Alert.t) :
  World.findOne (sameCorrelation cd) w = Some existing ->
  createCorrelatedAlert now cd rule w =
    (existing, World.log (CorrelationExists (correlationId cd)) w).
Proof. intros H. unfold createCorrelatedAlert. now rewrite H. Qed.

Lemma createCorrelatedAlert_open (now : Z) (cd : CorrelationData)
    (rule : Rule) (w : World.t) :
  exists a,
    World.findOne (sameCorrelation cd)
      (snd (createCorrelatedAlert now cd rule w)) = Some a.
Proof.
  unfold createCorrelatedAlert.
  destruct (World.findOne (sameCorrelation cd) w) as [a|] eqn:F.
  - exists a. exact F.
  - eexists. unfold World.create. simpl. unfold World.findOne. simpl.
    apply find_app_new; [exact F|].
    unfold sameCorrelation. simpl.
    apply andb_true_iff. split; [|reflexivity].
    now apply option_eqb_string_eq.
Qed.

Lemma sameCorrelation_ext (cd1 cd2 : CorrelationData) (a : Alert.t) :
  correlationId cd1 = correlationId cd2 ->
  sameCorrelation cd1 a = sameCorrelation cd2 a.
Proof. intros H. unfold sameCorrelation. now rewrite H. Qed.

(** C2 (as the code has it): when an active or investigating alert with
    the candidate's correlation id is stored, [createCorrelatedAlert]
    returns that alert and writes nothing: no alert is added and the stored
    alert keeps its confidence.  Hence a second candidate with the
    correlation id of a first one never adds an alert. *)
Theorem C2_createCorrelatedAlert_dedup (now : Z) (cd : CorrelationData)
    (rule : Rule) (w : World.t) (existing : Alert.t)
    (Hfound : World.findOne (sameCorrelation cd) w = Some existing) :
  fst (createCorrelatedAlert now cd rule w) = existing /\
  World.alerts (snd (createCorrelatedAlert now cd rule w)) = World.alerts w /\
  (forall now0 now' cd0 cd' rule0 rule' w0,
     correlationId cd0 = correlationId cd' ->
     let w1 := snd (createCorrelatedAlert now0 cd0 rule0 w0) in
     World.alerts (snd (createCorrelatedAlert now' cd' rule' w1)) =
     World.alerts w1).
Proof.
  rewrite (createCorrelatedAlert_existing now cd rule w existing Hfound).
  split; [reflexivity | split; [reflexivity|]].
  intros now0 now' cd0 cd' rule0 rule' w0 Hid w1.
  destruct (createCorrelatedAlert_open now0 cd0 rule0 w0) as [a Ha].
  fold w1 in Ha.
  assert (Ha' : World.findOne (sameCorrelation cd') w1 = Some a).
  { unfold World.findOne in *. rewrite <- Ha. apply find_ext_alert.
    intros x. symmetry. now apply sameCorrelation_ext. }
  now rewrite (createCorrelatedAlert_existing now' cd' rule' w1 a Ha').
Qed.

(** The candidate that meets the alert filed under its correlation id. *)
Lemma C2_createCorrelatedAlert_dedup_witness :
  fst (createCorrelatedAlert 5000 chainCandidate chainRule chainWorld) =
    chainAlert /\
  World.alerts
    (snd (createCorrelatedAlert 5000 chainCandidate chainRule chainWorld)) =
    World.alerts chainWorld /\
  (forall now0 now' cd0 cd' rule0 rule' w0,
     correlationId cd0 = correlationId cd' ->
     let w1 := snd (createCorrelatedAlert now0 cd0 rule0 w0) in
     World.alerts (snd (createCorrelatedAlert now' cd' rule' w1)) =
     World.alerts w1).
Proof.
  apply (C2_createCorrelatedAlert_dedup 5000 chainCandidate chainRule
           chainWorld chainAlert).
  reflexivity.
Defined.

End CorrelatedAlerts.

(* ================================================================== *)
(** ** Unfolding the notification queue *)

Section QueueEquations.

Import NotificationService.

Lemma processAll_cons (now : Z) (s : NotificationService.t)
    (n : Notification) (tl : list Notification) (w : World.t) :
  processAll now s (n :: tl) w =
  if isPending n then
    (fst (processNotification now s n w) ::
       fst (processAll now s tl (snd (processNotification now s n w))),
     snd (processAll now s tl (snd (processNotification now s n w))))
  else (n :: fst (processAll now s tl w), snd (processAll now s tl w)).
Proof.
  cbn [processAll]. destruct (isPending n).
  - destruct (processNotification now s n w) as [n' w1]. cbn [fst snd].
    now destruct (processAll now s tl w1).
  - now destruct (processAll now s tl w).
Qed.

Lemma processAll_cons_snd (now : Z) (s : NotificationService.t)
    (n : Notification) (tl : list Notification) (w : World.t) :
  snd (processAll now s (n :: tl) w) =
  if isPending n
  then snd (processAll now s tl (snd (processNotification now s n w)))
  else snd (processAll now s tl w).
Proof. rewrite processAll_cons. now destruct (isPending n). Qed.

Lemma processNotificationQueue_snd (now : Z) (s : NotificationService.t)
    (w : World.t) :
  snd (processNotificationQueue now s w) =
  match notificationQueue s with
  | [] => w
  | _ =>
      snd (processAll now s (notificationQueue s)
             (World.log
                (ProcessingNotifications (length (notificationQueue s))) w))
  end.
Proof.
  unfold processNotificationQueue.
  destruct (notificationQueue s) as [|n q]; [reflexivity|].
  now destruct (processAll now s (n :: q)
                  (World.log (ProcessingNotifications (length (n :: q))) w)).
Qed.

End QueueEquations.

(* ================================================================== *)
(** ** Properties of every stored alert

    A property that the pre-save middleware establishes holds of every
    stored alert whatever the detector and the correlation engine do; a
    property that pushing a notification record keeps holds whatever the
    notification service does. *)

Section StoredAlerts.

Import IntrusionDetector.

Variable P : Alert.t -> Prop.
Hypothesis P_preSave : forall a, P (Alert.preSave a).
Hypothesis P_notifications :
  forall a n,
    P a -> P (Alert.setNotifications (Alert.notifications a ++ [n]) a).

Definition Stored (w : World.t) : Prop := Forall P (World.alerts w).

Lemma Stored_log (e : Entry) (w : World.t) : Stored w -> Stored (World.log e w).
Proof. exact (fun H => H). Qed.

Lemma Stored_save (a : Alert.t) (w : World.t) :
  Stored w -> Stored (World.save a w).
Proof.
  intros H. unfold Stored, World.save. simpl.
  apply replace_Forall; [apply P_preSave | exact H].
Qed.

Lemma Stored_create (now : Z) (i : Alert.Init) (w : World.t) :
  Stored w -> Stored (snd (World.create now i w)).
Proof.
  intros H. unfold Stored, World.create. simpl.
  apply Forall_app. split; [exact H|].
  constructor; [apply P_preSave | constructor].
Qed.

Lemma Stored_createAlert (th : Thresholds) (now : Z) (ad : AlertData)
    (w : World.t) :
  Stored w -> Stored (snd (createAlert th now ad w)).
Proof.
  intros H. unfold createAlert.
  destruct (World.findOne (similarAlert th now ad) w) as [ex|].
  - simpl. apply Stored_log. now apply Stored_save.
  - pose proof (Stored_create now (toInit ad) w H) as Hc.
    destruct (World.create now (toInit ad) w) as [alert w1]. simpl in *.
    destruct (Alert.severity alert); simpl; exact Hc.
Qed.

Lemma Stored_executeDetectionRule (th : Thresholds) (now : Z) (rule : Rule)
    (logs : list Log.t) (w : World.t) :
  Stored w -> Stored (executeDetectionRule th now rule logs w).
Proof.
  unfold executeDetectionRule.
  destruct (condition rule th logs) as [ds|e]; [|now apply Stored_log].
  revert w. induction ds as [|d tl IH]; simpl; intros w H; [exact H|].
  apply IH. now apply Stored_createAlert.
Qed.

Lemma Stored_runRules (th : Thresholds) (rules : list Rule) (now : Z)
    (logs : list Log.t) (w : World.t) :
  Stored w -> Stored (runRules th rules now logs w).
Proof.
  unfold runRules. revert w.
  induction rules as [|r tl IH]; simpl; intros w H; [exact H|].
  apply IH. destruct (enabled r); [|exact H].
  now apply Stored_executeDetectionRule.
Qed.

Lemma Stored_runDetectionCycle (th : Thresholds) (rules : list Rule) (now : Z)
    (w : World.t) :
  Stored w -> Stored (runDetectionCycle th rules now w).
Proof.
  intros H. unfold runDetectionCycle. apply Stored_log.
  match goal with |- Stored (if ?c then _ else _) => destruct c end.
  - unfold markProcessed, Stored. simpl.
    apply (Stored_runRules th rules now _ (World.log DetectionCycleStarted w)).
    exact H.
  - apply Stored_runRules. exact H.
Qed.

Lemma Stored_createCorrelatedAlert (now : Z)
    (cd : CorrelationEngine.CorrelationData) (rule : CorrelationEngine.Rule)
    (w : World.t) :
  Stored w ->
  Stored (snd (CorrelationEngine.createCorrelatedAlert now cd rule w)).
Proof.
  intros H. unfold CorrelationEngine.createCorrelatedAlert.
  destruct (World.findOne (CorrelationEngine.sameCorrelation cd) w).
  - exact H.
  - pose proof (Stored_create now (CorrelationEngine.toInit cd rule) w H) as Hc.
    destruct (World.create now (CorrelationEngine.toInit cd rule) w).
    exact Hc.
Qed.

Lemma Stored_executeCorrelationRule (now : Z) (rule : CorrelationEngine.Rule)
    (logs : list Log.t) (alerts : list Alert.t) (w : World.t) :
  Stored w ->
  Stored (CorrelationEngine.executeCorrelationRule now rule logs alerts w).
Proof.
  unfold CorrelationEngine.executeCorrelationRule.
  destruct (CorrelationEngine.condition rule logs alerts
              (CorrelationEngine.timeWindow rule)) as [cs|e];
    [|now apply Stored_log].
  revert w. induction cs as [|c tl IH]; simpl; intros w H; [exact H|].
  apply IH. now apply Stored_createCorrelatedAlert.
Qed.

Import NotificationService.

Lemma Stored_processNotification (now : Z) (s : NotificationService.t)
    (n : Notification) (w : World.t) :
  Stored w -> Stored (snd (processNotification now s n w)).
Proof.
  intros H. unfold processNotification. simpl.
  unfold updateAlertNotificationStatus, World.findByIdAndUpdate, Stored. simpl.
  apply updateById_Forall; [intros x Hx; now apply P_notifications|].
  assert (G : forall cs w0, Stored w0 ->
            Stored (fold_left
              (fun w1 channelName =>
                 match List.find (fun c => String.eqb (name c) channelName)
                         (notificationChannels s) with
                 | Some channel =>
                     if enabled channel then runHandler channelName n w1 else w1
                 | None => w1
                 end) cs w0)).
  { induction cs as [|c tl IH]; simpl; intros w0 H0; [exact H0|].
    apply IH.
    destruct (List.find (fun c0 => String.eqb (name c0) c)
                (notificationChannels s)) as [ch|]; [|exact H0].
    destruct (enabled ch); exact H0. }
  apply G. exact H.
Qed.

Lemma Stored_processAll (now : Z) (s : NotificationService.t)
    (q : list Notification) (w : World.t) :
  Stored w -> Stored (snd (processAll now s q w)).
Proof.
  revert w. induction q as [|n tl IH]; intros w H; [exact H|].
  rewrite processAll_cons_snd. destruct (isPending n).
  - apply IH. now apply Stored_processNotification.
  - now apply IH.
Qed.

Lemma Stored_processNotificationQueue (now : Z) (s : NotificationService.t)
    (w : World.t) :
  Stored w -> Stored (snd (processNotificationQueue now s w)).
Proof.
  intros H. rewrite processNotificationQueue_snd.
  destruct (notificationQueue s) as [|n q]; [exact H|].
  apply Stored_processAll. exact H.
Qed.

Lemma Stored_queueNotification (now : Z) (a : Alert.t) (chans : list string)
    (s : NotificationService.t) (w : World.t) :
  Stored w -> Stored (snd (queueNotification now a chans s w)).
Proof.
  intros H. unfold queueNotification.
  destruct (Alert.severity a); try exact H.
  apply Stored_processNotificationQueue. exact H.
Qed.

Lemma Stored_checkEscalationRule (now : Z)
    (st : NotificationService.t * World.t) (rule : EscalationRule) :
  Stored (snd st) -> Stored (snd (checkEscalationRule now st rule)).
Proof.
  unfold checkEscalationRule.
  generalize (World.find (toEscalate now rule) (snd st)) as l.
  intros l. revert st. induction l as [|a tl IH]; simpl; intros st H; [exact H|].
  apply IH. destruct st as [s w]. simpl in *.
  apply Stored_queueNotification. exact H.
Qed.

Lemma Stored_checkEscalations (now : Z) (rules : list EscalationRule)
    (s : NotificationService.t) (w : World.t) :
  Stored w -> Stored (snd (checkEscalations now rules s w)).
Proof.
  intros H. unfold checkEscalations.
  assert (G : forall st, Stored (snd st) ->
            Stored (snd (fold_left (checkEscalationRule now) rules st))).
  { induction rules as [|r tl IH]; simpl; intros st Hst; [exact Hst|].
    apply IH. now apply Stored_checkEscalationRule. }
  apply G. exact H.
Qed.

End StoredAlerts.

(* ================================================================== *)
(** ** The risk score *)

Section RiskScore.

Import IntrusionDetector.
Local Open Scope R_scope.

(** The worlds the services reach from the empty repository: logs are
    ingested, the detector, the correlation engine and the notification
    service run, alerts are created through the API, stored alerts are
    changed in memory and saved ([updateStatus], [assignTo],
    [addEvidence]), and old notification records are pulled. *)
Inductive Reachable : World.t -> Prop :=
| reach_empty : Reachable World.empty
| reach_ingest w logs :
    Reachable w -> Reachable (World.setLogs logs w)
| reach_createAlert w th now ad :
    Reachable w -> Reachable (snd (createAlert th now ad w))
| reach_detection w th rules now :
    Reachable w -> Reachable (runDetectionCycle th rules now w)
| reach_correlated w now cd rule :
    Reachable w ->
    Reachable (snd (CorrelationEngine.createCorrelatedAlert now cd rule w))
| reach_correlationRule w now rule logs alerts :
    Reachable w ->
    Reachable (CorrelationEngine.executeCorrelationRule now rule logs alerts w)
| reach_api_create w now init :
    Reachable w -> Reachable (snd (World.create now init w))
| reach_updateStatus w now newStatus userId notes a :
    Reachable w -> In a (World.alerts w) ->
    Reachable (updateStatus now newStatus userId notes a w)
| reach_save w a :
    Reachable w -> In (Alert._id a) (ids (World.alerts w)) ->
    Reachable (World.save a w)
| reach_queue w now s :
    Reachable w ->
    Reachable (snd (NotificationService.processNotificationQueue now s w))
| reach_escalations w now rules s :
    Reachable w ->
    Reachable (snd (NotificationService.checkEscalations now rules s w))
| reach_cleanup w cutoffDate :
    Reachable w ->
    Reachable (NotificationService.cleanupOldNotifications cutoffDate w).

Definition riskScoreOk (a : Alert.t) : Prop :=
  Alert.riskScore a =
  Rmin 10
    (Alert.severityWeight (Alert.severity a) * (Alert.confidence a / 100)).

Lemma riskScoreOk_preSave (a : Alert.t) : riskScoreOk (Alert.preSave a).
Proof. reflexivity. Qed.

Lemma riskScoreOk_notifications (a : Alert.t) (ns : list Alert.Notification) :
  riskScoreOk a -> riskScoreOk (Alert.setNotifications ns a).
Proof. exact (fun H => H). Qed.

Lemma Reachable_riskScoreOk (w : World.t) :
  Reachable w -> Stored riskScoreOk w.
Proof.
  induction 1.
  - constructor.
  - assumption.
  - apply Stored_createAlert; auto using riskScoreOk_preSave.
  - apply Stored_runDetectionCycle; auto using riskScoreOk_preSave.
  - apply Stored_createCorrelatedAlert; auto using riskScoreOk_preSave.
  - apply Stored_executeCorrelationRule; auto using riskScoreOk_preSave.
  - apply Stored_create; auto using riskScoreOk_preSave.
  - unfold updateStatus. cbv zeta.
    destruct (AlertSchema.validate
                (Alert.updateStatus_body now newStatus userId notes a));
      [|assumption].
    apply Stored_save; auto using riskScoreOk_preSave.
  - apply Stored_save; auto using riskScoreOk_preSave.
  - apply Stored_processNotificationQueue;
      auto using riskScoreOk_preSave, riskScoreOk_notifications.
  - apply Stored_checkEscalations;
      auto using riskScoreOk_preSave, riskScoreOk_notifications.
  - unfold Stored, NotificationService.cleanupOldNotifications. simpl.
    apply Forall_map. eapply Forall_impl; [|exact IHReachable].
    intros a Ha. now apply riskScoreOk_notifications.
Qed.

(** C3: in every world the services reach, the risk score of every stored
    alert is min(10, weight * confidence / 100), where the weight of its
    severity is 2 for low, 5 for medium, 8 for high and 10 for critical. *)
Theorem C3_riskScore_of_stored_alerts (w : World.t) (a : Alert.t)
    (Hreach : Reachable w) (Hin : In a (World.alerts w)) :
  Alert.riskScore a =
  Rmin 10
    (match Alert.severity a with
     | low => 2
     | medium => 5
     | high => 8
     | critical => 10
     end * (Alert.confidence a / 100)).
Proof.
  pose proof (Reachable_riskScoreOk w Hreach) as S.
  unfold Stored in S. rewrite Forall_forall in S.
  specialize (S a Hin). unfold riskScoreOk in S. rewrite S.
  destruct (Alert.severity a); reflexivity.
Qed.

Definition bruteForceData : AlertData :=
  mkAlertData
    (mkDetection "Brute Force Attack Detected from 203.0.113.10"
       (Some "203.0.113.10") 90 (Some [11; 12; 13; 14; 15; 16]%Z)
       "Authentication brute force" ["Authentication System"%string])
    "brute_force" high "signature".

(** The first alert of an empty repository: high severity, confidence 90. *)
Lemma C3_riskScore_of_stored_alerts_witness :
  let r := createAlert alertThresholds 2000 bruteForceData World.empty in
  Alert.riskScore (fst r) = Rmin 10 (8 * (90 / 100)).
Proof.
  exact (C3_riskScore_of_stored_alerts
           (snd (createAlert alertThresholds 2000 bruteForceData World.empty))
           (fst (createAlert alertThresholds 2000 bruteForceData World.empty))
           (reach_createAlert World.empty alertThresholds 2000 bruteForceData
              reach_empty)
           (or_introl eq_refl)).
Defined.

End RiskScore.

(* ================================================================== *)
(** ** Grouping a batch by key in a [Map] *)

Section MapFacts.

Variable V : Type.
Implicit Types (m : JSMap.t V) (k : string) (v : V).

Lemma get_set_same k v m : JSMap.get k (JSMap.set k v m) = Some v.
Proof.
  induction m as [|[k' v'] tl IH]; simpl.
  - now rewrite String.eqb_refl.
  - destruct (String.eqb k' k) eqn:E; simpl.
    + now rewrite String.eqb_refl.
    + now rewrite E.
Qed.

Lemma get_set_other k k' v m :
  k' <> k -> JSMap.get k' (JSMap.set k v m) = JSMap.get k' m.
Proof.
  intros N. induction m as [|[k0 v0] tl IH]; simpl.
  - destruct (String.eqb_spec k k'); [now subst | reflexivity].
  - destruct (String.eqb_spec k0 k) as [->|N0]; simpl.
    + destruct (String.eqb_spec k k'); [now subst | reflexivity].
    + now rewrite IH.
Qed.

Lemma get_In k v m : JSMap.get k m = Some v -> In (k, v) m.
Proof.
  induction m as [|[k' v'] tl IH]; simpl; [discriminate|].
  destruct (String.eqb_spec k' k) as [->|N].
  - intros [= ->]. now left.
  - intros H. right. now apply IH.
Qed.

Lemma get_None_keys k m : JSMap.get k m = None -> ~ In k (JSMap.keys m).
Proof.
  induction m as [|[k' v'] tl IH]; simpl; [easy|].
  destruct (String.eqb_spec k' k) as [->|N]; [discriminate|].
  intros H [E|E]; [contradiction | now apply IH].
Qed.

Lemma In_get k v m :
  NoDup (JSMap.keys m) -> In (k, v) m -> JSMap.get k m = Some v.
Proof.
  induction m as [|[k' v'] tl IH]; simpl; [easy|].
  intros ND [E|E].
  - injection E as -> ->. now rewrite String.eqb_refl.
  - inversion ND as [|? ? Hn ND']; subst.
    destruct (String.eqb_spec k' k) as [->|N].
    + exfalso. apply Hn. change k with (fst (k, v)). now apply in_map.
    + now apply IH.
Qed.

Lemma keys_set_present k v m :
  JSMap.has k m = true -> JSMap.keys (JSMap.set k v m) = JSMap.keys m.
Proof.
  unfold JSMap.has. induction m as [|[k' v'] tl IH]; simpl; [discriminate|].
  destruct (String.eqb_spec k' k) as [->|N]; simpl; [reflexivity|].
  intros H. now rewrite IH.
Qed.

Lemma keys_set_absent k v m :
  JSMap.has k m = false ->
  JSMap.keys (JSMap.set k v m) = (JSMap.keys m ++ [k])%list.
Proof.
  unfold JSMap.has. induction m as [|[k' v'] tl IH]; simpl; [reflexivity|].
  destruct (String.eqb_spec k' k) as [->|N]; simpl; [discriminate|].
  intros H. now rewrite IH.
Qed.

Lemma NoDup_keys_set k v m :
  NoDup (JSMap.keys m) -> NoDup (JSMap.keys (JSMap.set k v m)).
Proof.
  intros ND. destruct (JSMap.has k m) eqn:H.
  - now rewrite keys_set_present.
  - rewrite keys_set_absent by assumption.
    apply NoDup_app; [assumption | repeat constructor; easy |].
    intros x Hx [Q|[]]. subst x. revert Hx. apply get_None_keys.
    unfold JSMap.has in H. now destruct (JSMap.get k m).
Qed.

(** The update every grouping loop of the rules performs: enter the key
    with the initial value when it is new, then store the changed value. *)
Definition upsert k (init : V) (f : V -> V) m : JSMap.t V :=
  let m' := if JSMap.has k m then m else JSMap.set k init m in
  JSMap.set k (f (Alert.orElse (JSMap.get k m') init)) m'.

Lemma get_upsert_same k init f m :
  JSMap.get k (upsert k init f m) =
  Some (f (Alert.orElse (JSMap.get k m) init)).
Proof.
  unfold upsert. rewrite get_set_same. f_equal. f_equal.
  unfold JSMap.has. destruct (JSMap.get k m) as [v|] eqn:G.
  - now rewrite G.
  - now rewrite get_set_same.
Qed.

Lemma get_upsert_other k k' init f m :
  k' <> k -> JSMap.get k' (upsert k init f m) = JSMap.get k' m.
Proof.
  intros N. unfold upsert. rewrite get_set_other by assumption.
  destruct (JSMap.has k m); [reflexivity | now apply get_set_other].
Qed.

Lemma NoDup_keys_upsert k init f m :
  NoDup (JSMap.keys m) -> NoDup (JSMap.keys (upsert k init f m)).
Proof.
  intros ND. unfold upsert. apply NoDup_keys_set.
  destruct (JSMap.has k m); [assumption | now apply NoDup_keys_set].
Qed.

(** A loop that groups the selected elements of a batch by key. *)
Variable E : Type.
Variable sel : E -> bool.
Variable key : E -> string.
Variable init : V.
Variable add : V -> E -> V.

Definition groupStep m (e : E) : JSMap.t V :=
  if sel e then upsert (key e) init (fun v => add v e) m else m.

Definition group (l : list E) : JSMap.t V := fold_left groupStep l [].

Definition selected k (l : list E) : list E :=
  filter (fun e => sel e && String.eqb (key e) k) l.

Lemma group_snoc (l : list E) (e : E) :
  group (l ++ [e]) = groupStep (group l) e.
Proof. unfold group. now rewrite fold_left_app. Qed.

Lemma selected_snoc k (l : list E) (e : E) :
  selected k (l ++ [e]) =
  (selected k l ++ if sel e && String.eqb (key e) k then [e] else [])%list.
Proof.
  unfold selected. rewrite filter_app. simpl.
  now destruct (sel e && String.eqb (key e) k).
Qed.

Lemma NoDup_keys_group (l : list E) : NoDup (JSMap.keys (group l)).
Proof.
  induction l as [|e l IH] using rev_ind; [constructor|].
  rewrite group_snoc. unfold groupStep.
  destruct (sel e); [now apply NoDup_keys_upsert | assumption].
Qed.

Lemma get_group k (l : list E) :
  JSMap.get k (group l) =
  match selected k l with
  | [] => None
  | es => Some (fold_left add es init)
  end.
Proof.
  induction l as [|e l IH] using rev_ind; [reflexivity|].
  rewrite group_snoc, selected_snoc. unfold groupStep.
  destruct (sel e) eqn:S; simpl.
  - destruct (String.eqb_spec (key e) k) as [<-|N].
    + rewrite get_upsert_same, IH.
      destruct (selected (key e) l) as [|x xs]; simpl; [reflexivity|].
      now rewrite fold_left_app.
    + rewrite get_upsert_other by (intros Q; now apply N).
      now rewrite app_nil_r.
  - now rewrite app_nil_r.
Qed.

End MapFacts.

(* ================================================================== *)
(** ** The brute-force rule *)

Section BruteForce.

Import IntrusionDetector.
Local Open Scope R_scope.

Lemma not_In_keys_get (V : Type) (k : string) (m : JSMap.t V) :
  ~ In k (JSMap.keys m) -> JSMap.get k m = None.
Proof.
  induction m as [|[k' v'] tl IH]; simpl; [reflexivity|].
  intros H. destruct (String.eqb_spec k' k) as [->|N].
  - exfalso. apply H. now left.
  - apply IH. intros Q. apply H. now right.
Qed.

Lemma fold_left_snoc (A : Type) (es acc : list A) :
  fold_left (fun v e => (v ++ [e])%list) es acc = (acc ++ es)%list.
Proof.
  revert acc. induction es as [|e tl IH]; simpl; intros acc.
  - now rewrite app_nil_r.
  - rewrite IH, <- app_assoc. reflexivity.
Qed.

Lemma failedAttempts_group (logs : list Log.t) :
  failedAttempts logs =
  group (list Log.t) Log.t isFailedLogin ipOf []
    (fun v l => (v ++ [l])%list) logs.
Proof. reflexivity. Qed.

(** The attempts recorded for an address are its failed logins, in the
    order of the batch. *)
Lemma failedAttempts_get (ip : string) (logs : list Log.t) :
  JSMap.get ip (failedAttempts logs) =
  match selected Log.t isFailedLogin ipOf ip logs with
  | [] => None
  | es => Some es
  end.
Proof.
  rewrite failedAttempts_group, get_group.
  destruct (selected Log.t isFailedLogin ipOf ip logs) as [|e es] eqn:S;
    [reflexivity|].
  now rewrite fold_left_snoc.
Qed.

Definition fromIp (ip : string) (d : Detection) : bool :=
  option_eqb String.eqb (sourceIp d) (Some ip).

Definition bruteForceEntry (th : Thresholds) (entry : string * list Log.t)
    : list Detection :=
  let (sourceIp, attempts) := entry in
  if (bruteForceAttempts th <=? length attempts)%nat
  then [bruteForceDetection sourceIp attempts]
  else [].

Lemma bruteForce_fromIp (th : Thresholds) (ip : string)
    (m : JSMap.t (list Log.t)) :
  NoDup (JSMap.keys m) ->
  filter (fromIp ip) (flat_map (bruteForceEntry th) m) =
  match JSMap.get ip m with
  | Some attempts => bruteForceEntry th (ip, attempts)
  | None => []
  end.
Proof.
  induction m as [|[k atts] tl IH]; simpl; intros ND; [reflexivity|].
  inversion ND as [|? ? Hn ND']; subst.
  rewrite filter_app, (IH ND').
  destruct (String.eqb_spec k ip) as [->|N].
  - rewrite (not_In_keys_get _ ip tl Hn), app_nil_r.
    destruct (bruteForceAttempts th <=? length atts)%nat; simpl;
      [|reflexivity].
    unfold fromIp. simpl. now rewrite String.eqb_refl.
  - assert (F : filter (fromIp ip)
                  (if (bruteForceAttempts th <=? length atts)%nat
                   then [bruteForceDetection k atts] else []) = []).
    { destruct (bruteForceAttempts th <=? length atts)%nat; simpl;
        [|reflexivity].
      unfold fromIp. simpl.
      destruct (String.eqb_spec k ip); [contradiction | reflexivity]. }
    now rewrite F.
Qed.

(** The events the rule counts for an address. *)
Definition failedLoginFrom (ip : string) (l : Log.t) : bool :=
  Category_eqb (Log.category l) security &&
  JS.includes (JS.toLowerCase (Log.message l)) "failed" &&
  option_eqb String.eqb (Log.sourceIp l) (Some ip).

Lemma selected_failedLoginFrom (ip : string) (logs : list Log.t) :
  ip <> EmptyString ->
  selected Log.t isFailedLogin ipOf ip logs = filter (failedLoginFrom ip) logs.
Proof.
  intros N. unfold selected. apply filter_ext. intros l.
  unfold isFailedLogin, failedLoginFrom, ipOf.
  destruct (Category_eqb (Log.category l) security); simpl; [|reflexivity].
  destruct (JS.includes (JS.toLowerCase (Log.message l)) "failed"); simpl;
    [|reflexivity].
  destruct (Log.sourceIp l) as [[|c s]|]; simpl; try reflexivity.
  destruct ip; [contradiction | reflexivity].
Qed.

(** C4: for an address with at least [bruteForceAttempts] (5 by default)
    security events that carry it and whose message contains "failed", the
    brute-force rule emits exactly one detection for the address, of
    confidence min(95, 60 + 5 * count); for an address with fewer it emits
    none. *)
Theorem C4_detectBruteForce (th : Thresholds) (logs : list Log.t)
    (ip : string)
    (Hip : ip <> EmptyString)
    (Hth : (1 <= bruteForceAttempts th)%nat) :
  let count := length (filter (failedLoginFrom ip) logs) in
  let emitted := filter (fromIp ip) (detectBruteForce th logs) in
  ((bruteForceAttempts th <= count)%nat ->
   exists d, emitted = [d] /\
             sourceIp d = Some ip /\
             confidence d = Rmin 95 (60 + 5 * INR count)) /\
  ((count < bruteForceAttempts th)%nat -> emitted = []).
Proof.
  intros count emitted. subst emitted.
  assert (E : filter (fromIp ip) (detectBruteForce th logs) =
              match filter (failedLoginFrom ip) logs with
              | [] => []
              | es => bruteForceEntry th (ip, es)
              end).
  { change (detectBruteForce th logs)
      with (flat_map (bruteForceEntry th) (failedAttempts logs)).
    rewrite bruteForce_fromIp.
    - rewrite failedAttempts_get, selected_failedLoginFrom by assumption.
      now destruct (filter (failedLoginFrom ip) logs).
    - rewrite failedAttempts_group. apply NoDup_keys_group. }
  rewrite E. subst count.
  destruct (filter (failedLoginFrom ip) logs) as [|e es]; simpl length.
  - split; [intros H; exfalso; lia | reflexivity].
  - unfold bruteForceEntry.
    destruct (Nat.leb_spec (bruteForceAttempts th) (length (e :: es))) as [L|L].
    + split; [|intros H; simpl in L; exfalso; lia].
      intros _. eexists. split; [reflexivity|]. split; [reflexivity|].
      unfold bruteForceDetection, confidence, JS.Math_min.
      f_equal. change (length (e :: es)) with (S (length es)). lra.
    + split; [intros H; simpl in L; exfalso; lia | reflexivity].
Qed.

Definition sixFailedLogins : list Log.t :=
  map (fun i =>
         Log.mk i (1000 + i) "sshd"
           "Failed password for admin from 203.0.113.10" None security
           (Some "203.0.113.10") false)
    [11; 12; 13; 14; 15; 16]%Z.

(** Six failed logins from one address: one detection, min(95, 60 + 30). *)
Lemma C4_detectBruteForce_witness :
  exists d,
    filter (fromIp "203.0.113.10")
      (detectBruteForce alertThresholds sixFailedLogins) = [d] /\
    sourceIp d = Some "203.0.113.10" /\
    confidence d = Rmin 95 (60 + 5 * INR 6).
Proof.
  refine (proj1 (C4_detectBruteForce alertThresholds sixFailedLogins
                   "203.0.113.10" _ _) _).
  - discriminate.
  - simpl. lia.
  - simpl. lia.
Defined.

End BruteForce.

(* ================================================================== *)
(** ** The anomalous-volume rule *)

Section AnomalousTraffic.

Import IntrusionDetector.
Local Open Scope R_scope.








Definition anomalyEntry (th : Thresholds) (requestCounts : list nat)
    (entry : string * nat) : list Detection :=
  let (sourceIp, count) := entry in
  if Double.gtb (Double.ofNat count) (threshold th requestCounts) &&
     Double.gtb (Double.ofNat count) (Double.ofZ 50)
  then [anomalyDetection th requestCounts sourceIp count]
  else [].

Lemma detectAnomalousTraffic_eq (th : Thresholds) (logs : list Log.t) :
  detectAnomalousTraffic th logs =
  if (0 <? length (JSMap.values (trafficByIp logs)))%nat
  then flat_map (anomalyEntry th (JSMap.values (trafficByIp logs)))
         (trafficByIp logs)
  else [].
Proof. reflexivity. Qed.

(** The population mean and standard deviation of a list of counts, as
    the design description has them: exact, over the reals. *)
Definition total (f : nat -> R) (l : list nat) : R :=
  fold_right (fun x acc => f x + acc) 0 l.



End AnomalousTraffic.

(** *** Facts of binary64 arithmetic *)

Section Binary64.

Import SpecFloat.
Local Open Scope Z_scope.















End Binary64.

Section AnomalousTrafficRule.

Import IntrusionDetector.





End AnomalousTrafficRule.

Section AnomalyExample.

Import IntrusionDetector.









Definition edgeCounts : list nat := [1; 1; 1; 1; 1; 1; 1; 1; 1; 60]%nat.




(** The threshold the code computes for these counts is
    59.999999999999993, one unit in the last place below 60. *)
Lemma edge_threshold :
  threshold alertThresholds edgeCounts =
  SpecFloat.S754_finite false 8444249301319679 (-47).
Proof. vm_compute. reflexivity. Qed.


End AnomalyExample.

(* ================================================================== *)
(** ** Materializing a detection *)

Section CreateAlert.

Import IntrusionDetector.
Local Open Scope R_scope.

(** The dedup key of the [findOne] filter, and its time window. *)
Definition keyMatch (ty : string) (ip : option string) (a : Alert.t) : bool :=
  String.eqb (Alert.type a) ty &&
  option_eqb String.eqb (Alert.sourceIp a) ip &&
  isOpen a.

Definition inWindow (th : Thresholds) (now : Z) (a : Alert.t) : bool :=
  (now - timeWindow th <=? Alert.createdAt a)%Z.

Definition similar (th : Thresholds) (now : Z) (ty : string)
    (ip : option string) (a : Alert.t) : bool :=
  keyMatch ty ip a && inWindow th now a.

Lemma similarAlert_similar (th : Thresholds) (now : Z) (ad : AlertData) :
  similarAlert th now ad =
  similar th now (data_type ad) (sourceIp (detection ad)).
Proof. reflexivity. Qed.

(** The document [createAlert] saves when it finds [existing]. *)
Definition merged (existing : Alert.t) (ad : AlertData) : Alert.t :=
  let a1 :=
    Alert.setConfidence
      (JS.Math_max (Alert.confidence existing) (confidence (detection ad)))
      existing in
  match relatedLogs (detection ad) with
  | Some ids => Alert.setRelatedLogs (Alert.relatedLogs a1 ++ ids) a1
  | None => a1
  end.

(** The document [createAlert] stores when it finds none. *)
Definition fresh (now : Z) (ad : AlertData) (w : World.t) : Alert.t :=
  Alert.preSave (Alert.new (World.nextId w) now (toInit ad)).

(** What the logger receives for a new alert. *)
Definition announce (a : Alert.t) : list Entry :=
  AlertCreated (Alert._id a) (Alert.title a) ::
  match Alert.severity a with
  | high | critical => [ImmediateAttention (Alert.severity a) (Alert.title a)]
  | _ => []
  end.

Lemma createAlert_found (th : Thresholds) (now : Z) (ad : AlertData)
    (w : World.t) (existing : Alert.t) :
  World.findOne (similarAlert th now ad) w = Some existing ->
  createAlert th now ad w =
  (Alert.preSave (merged existing ad),
   World.log (AlertUpdated (Alert._id existing))
     (World.save (merged existing ad) w)).
Proof.
  intros H. unfold createAlert. rewrite H. unfold merged.
  destruct (relatedLogs (detection ad)); reflexivity.
Qed.

Lemma createAlert_fresh (th : Thresholds) (now : Z) (ad : AlertData)
    (w : World.t) :
  World.findOne (similarAlert th now ad) w = None ->
  createAlert th now ad w =
  (fresh now ad w,
   World.mk (World.logs w) (World.alerts w ++ [fresh now ad w])
     (World.journal w ++ announce (fresh now ad w)) (World.nextId w + 1)).
Proof.
  intros H. unfold createAlert. rewrite H. unfold World.create, announce.
  fold (fresh now ad w).
  unfold triggerImmediateNotification, World.log. simpl.
  destruct (data_severity ad); simpl; rewrite <- ?app_assoc; reflexivity.
Qed.

Lemma merged_fields (existing : Alert.t) (ad : AlertData) :
  let a := Alert.preSave (merged existing ad) in
  Alert._id a = Alert._id existing /\
  Alert.type a = Alert.type existing /\
  Alert.sourceIp a = Alert.sourceIp existing /\
  Alert.status a = Alert.status existing /\
  Alert.createdAt a = Alert.createdAt existing /\
  Alert.severity a = Alert.severity existing /\
  Alert.title a = Alert.title existing /\
  Alert.timeline a = Alert.timeline existing /\
  Alert.confidence a =
    Rmax (Alert.confidence existing) (confidence (detection ad)) /\
  Alert.relatedLogs a =
    (Alert.relatedLogs existing ++
     match relatedLogs (detection ad) with Some l => l | None => [] end)%list.
Proof.
  unfold merged. destruct (relatedLogs (detection ad)); simpl;
    rewrite ?app_nil_r; repeat split.
Qed.

Lemma merged_id (existing : Alert.t) (ad : AlertData) :
  Alert._id (Alert.preSave (merged existing ad)) = Alert._id existing.
Proof. unfold merged. now destruct (relatedLogs (detection ad)). Qed.

Lemma similar_merged (th : Thresholds) (now : Z) (ty : string)
    (ip : option string) (existing : Alert.t) (ad : AlertData) :
  similar th now ty ip (Alert.preSave (merged existing ad)) =
  similar th now ty ip existing.
Proof.
  unfold merged. destruct (relatedLogs (detection ad)); reflexivity.
Qed.

Lemma fresh_fields (now : Z) (ad : AlertData) (w : World.t) :
  let a := fresh now ad w in
  Alert._id a = World.nextId w /\
  Alert.type a = data_type ad /\
  Alert.sourceIp a = sourceIp (detection ad) /\
  Alert.status a = active /\
  Alert.createdAt a = now /\
  Alert.severity a = data_severity ad /\
  Alert.title a = title (detection ad).
Proof. repeat split. Qed.

(** A repository is well formed when its alerts have distinct ids below
    the next id. *)
Definition WellFormed (w : World.t) : Prop :=
  NoDup (ids (World.alerts w)) /\
  Forall (fun a => (Alert._id a < World.nextId w)%Z) (World.alerts w).

Lemma WellFormed_createAlert (th : Thresholds) (now : Z) (ad : AlertData)
    (w : World.t) :
  WellFormed w -> WellFormed (snd (createAlert th now ad w)).
Proof.
  intros [ND LT]. unfold WellFormed.
  destruct (World.findOne (similarAlert th now ad) w) as [ex|] eqn:F.
  - rewrite (createAlert_found th now ad w ex F). simpl.
    rewrite replace_ids. split; [exact ND|].
    apply replace_Forall; [|exact LT].
    apply find_some in F. destruct F as [Hin _].
    rewrite Forall_forall in LT. specialize (LT ex Hin).
    destruct (merged_fields ex ad) as [E _]. cbv zeta in E. now rewrite E.
  - rewrite (createAlert_fresh th now ad w F). simpl. unfold ids.
    rewrite map_app. simpl. split.
    + apply NoDup_app; [exact ND | repeat constructor; easy |].
      intros x Hx [Q|[]]. subst x.
      apply in_map_iff in Hx. destruct Hx as [a [E Ha]].
      rewrite Forall_forall in LT. specialize (LT a Ha). lia.
    + apply Forall_app. split.
      * eapply Forall_impl; [|exact LT]. simpl. intros a Ha. lia.
      * constructor; [simpl; lia | constructor].
Qed.

End CreateAlert.

(* ================================================================== *)
(** ** One open alert per dedup key *)

Section Dedup.

Import IntrusionDetector.
Local Open Scope Z_scope.

Definition openFor (th : Thresholds) (now : Z) (ty : string)
    (ip : option string) (w : World.t) : list Alert.t :=
  filter (similar th now ty ip) (World.alerts w).

(** At most one active or investigating alert per (type, sourceIp) inside
    the detection window. *)
Definition Unique (th : Thresholds) (now : Z) (w : World.t) : Prop :=
  forall ty ip, (length (openFor th now ty ip w) <= 1)%nat.

Definition Materialized (th : Thresholds) (now : Z) (ty : string)
    (ip : option string) (w : World.t) : Prop :=
  exists a, In a (World.alerts w) /\ similar th now ty ip a = true.

Lemma NoDup_ids_inj (l : list Alert.t) (a b : Alert.t) :
  NoDup (ids l) -> In a l -> In b l -> Alert._id a = Alert._id b -> a = b.
Proof.
  induction l as [|x tl IH]; simpl; [easy|].
  intros ND Ha Hb E. inversion ND as [|? ? Hn ND']; subst.
  destruct Ha as [Ha|Ha], Hb as [Hb|Hb]; subst.
  - reflexivity.
  - exfalso. apply Hn. rewrite E. unfold ids. now apply in_map.
  - exfalso. apply Hn. rewrite <- E. unfold ids. now apply in_map.
  - now apply IH.
Qed.

Lemma replace_filter_length (p : Alert.t -> bool) (a ex : Alert.t)
    (l : list Alert.t) :
  NoDup (ids l) -> In ex l -> Alert._id a = Alert._id ex -> p a = p ex ->
  length (filter p (World.replace a l)) = length (filter p l).
Proof.
  intros ND Hin Eid Ep. induction l as [|x tl IH]; simpl; [reflexivity|].
  destruct (Z.eqb_spec (Alert._id x) (Alert._id a)) as [E|E].
  - assert (x = ex).
    { apply (NoDup_ids_inj (x :: tl)); try assumption; [now left | congruence]. }
    subst x. simpl. rewrite Ep. now destruct (p ex).
  - inversion ND as [|? ? Hn ND']; subst.
    destruct Hin as [Hin|Hin]; [subst; congruence|].
    simpl. destruct (p x); simpl; now rewrite (IH ND' Hin).
Qed.

Lemma replace_keeps (p : Alert.t -> bool) (a ex x : Alert.t)
    (l : list Alert.t) :
  NoDup (ids l) -> In ex l -> Alert._id a = Alert._id ex -> p a = p ex ->
  In x l -> p x = true -> exists y, In y (World.replace a l) /\ p y = true.
Proof.
  intros ND Hex Eid Ep Hx Px.
  destruct (Z.eq_dec (Alert._id x) (Alert._id a)) as [E|E].
  - exists a. split.
    + apply replace_In. rewrite Eid. unfold ids. now apply in_map.
    + assert (x = ex) by (apply (NoDup_ids_inj l); congruence).
      subst x. congruence.
  - exists x. split; [now apply replace_other | assumption].
Qed.

Lemma find_none_filter (p : Alert.t -> bool) (l : list Alert.t) :
  List.find p l = None -> filter p l = [].
Proof.
  induction l as [|x tl IH]; simpl; [reflexivity|].
  destruct (p x); [discriminate | assumption].
Qed.

Lemma similar_key (th : Thresholds) (now : Z) (ty ty' : string)
    (ip ip' : option string) (a : Alert.t) :
  similar th now ty ip a = true -> similar th now ty' ip' a = true ->
  ty = ty' /\ ip = ip'.
Proof.
  unfold similar, keyMatch. intros H H'. andb_hyps.
  repeat match goal with
         | H : String.eqb _ _ = true |- _ => apply String.eqb_eq in H
         | H : option_eqb String.eqb _ _ = true |- _ =>
             apply option_eqb_string_eq in H
         end.
  split; congruence.
Qed.

Lemma similar_later (th : Thresholds) (now1 now2 : Z) (ty : string)
    (ip : option string) (a : Alert.t) :
  now1 <= now2 ->
  similar th now2 ty ip a = true -> similar th now1 ty ip a = true.
Proof.
  unfold similar, inWindow. intros L H.
  apply andb_true_iff in H. destruct H as [K W].
  apply andb_true_iff. split; [assumption|].
  apply Z.leb_le in W. apply Z.leb_le. lia.
Qed.

Lemma filter_length_le (p q : Alert.t -> bool) (l : list Alert.t) :
  (forall a, p a = true -> q a = true) ->
  (length (filter p l) <= length (filter q l))%nat.
Proof.
  intros I. induction l as [|x tl IH]; simpl; [lia|].
  destruct (p x) eqn:P.
  - rewrite (I x P). simpl. lia.
  - destruct (q x); simpl; lia.
Qed.

Lemma Unique_later (th : Thresholds) (now1 now2 : Z) (w : World.t) :
  now1 <= now2 -> Unique th now1 w -> Unique th now2 w.
Proof.
  intros L U ty ip. specialize (U ty ip). unfold openFor in *.
  eapply Nat.le_trans; [|exact U].
  apply filter_length_le. intros a. now apply similar_later.
Qed.

Lemma Unique_createAlert (th : Thresholds) (now : Z) (ad : AlertData)
    (w : World.t) :
  WellFormed w -> Unique th now w ->
  Unique th now (snd (createAlert th now ad w)).
Proof.
  intros [ND _] U ty ip. specialize (U ty ip). unfold openFor in *.
  destruct (World.findOne (similarAlert th now ad) w) as [ex|] eqn:F.
  - rewrite (createAlert_found th now ad w ex F). simpl.
    apply find_some in F. destruct F as [Hin _].
    rewrite (replace_filter_length (similar th now ty ip)
               (Alert.preSave (merged ex ad)) ex); try assumption.
    + apply merged_id.
    + apply similar_merged.
  - rewrite (createAlert_fresh th now ad w F). simpl.
    rewrite filter_app, length_app. simpl.
    destruct (similar th now ty ip (fresh now ad w)) eqn:S; simpl; [|lia].
    assert (K : similar th now (data_type ad) (sourceIp (detection ad))
                  (fresh now ad w) = true).
    { unfold similar in *. apply andb_true_iff in S. destruct S as [_ S].
      apply andb_true_iff. split; [|exact S].
      unfold keyMatch. simpl. rewrite String.eqb_refl. simpl.
      rewrite andb_true_r. now apply option_eqb_string_eq. }
    destruct (similar_key th now _ _ _ _ _ S K) as [-> ->].
    rewrite <- similarAlert_similar.
    unfold World.findOne in F. now rewrite (find_none_filter _ _ F).
Qed.

Lemma Materialized_createAlert (th : Thresholds) (now : Z) (ad : AlertData)
    (w : World.t) :
  0 <= timeWindow th ->
  Materialized th now (data_type ad) (sourceIp (detection ad))
    (snd (createAlert th now ad w)).
Proof.
  intros W. unfold Materialized.
  destruct (World.findOne (similarAlert th now ad) w) as [ex|] eqn:F.
  - rewrite (createAlert_found th now ad w ex F). simpl.
    apply find_some in F. destruct F as [Hin S].
    exists (Alert.preSave (merged ex ad)). split.
    + apply replace_In. rewrite merged_id. unfold ids. now apply in_map.
    + now rewrite similar_merged.
  - rewrite (createAlert_fresh th now ad w F). simpl.
    exists (fresh now ad w). split; [apply in_or_app; right; now left|].
    unfold similar, keyMatch, inWindow. simpl.
    rewrite String.eqb_refl. simpl.
    apply andb_true_iff. split.
    + rewrite andb_true_r. now apply option_eqb_string_eq.
    + apply Z.leb_le. lia.
Qed.

Lemma Materialized_kept (th : Thresholds) (now : Z) (ad : AlertData)
    (ty : string) (ip : option string) (w : World.t) :
  WellFormed w ->
  Materialized th now ty ip w ->
  Materialized th now ty ip (snd (createAlert th now ad w)).
Proof.
  intros [ND _] [a [Ha Sa]]. unfold Materialized.
  destruct (World.findOne (similarAlert th now ad) w) as [ex|] eqn:F.
  - rewrite (createAlert_found th now ad w ex F). simpl.
    apply find_some in F. destruct F as [Hin _].
    apply (replace_keeps (similar th now ty ip) _ ex a); try assumption.
    + apply merged_id.
    + apply similar_merged.
  - rewrite (createAlert_fresh th now ad w F). simpl.
    exists a. split; [apply in_or_app; now left | assumption].
Qed.

End Dedup.

Section DedupCycle.

Import IntrusionDetector.
Local Open Scope Z_scope.

Variable th : Thresholds.
Variable now : Z.
Hypothesis window_nonneg : 0 <= timeWindow th.

Definition materialize (rule : Rule) (w : World.t) (d : Detection) : World.t :=
  snd (createAlert th now
         (mkAlertData d (type rule) (severity rule) "signature") w).

Lemma executeDetectionRule_eq (rule : Rule) (logs : list Log.t) (w : World.t) :
  executeDetectionRule th now rule logs w =
  match condition rule th logs with
  | Ok detections => fold_left (materialize rule) detections w
  | Throw error => World.log (RuleError (name rule) error) w
  end.
Proof. reflexivity. Qed.

Lemma WellFormed_materializeAll (rule : Rule) (ds : list Detection)
    (w : World.t) :
  WellFormed w -> WellFormed (fold_left (materialize rule) ds w).
Proof.
  revert w. induction ds as [|d tl IH]; simpl; intros w H; [exact H|].
  apply IH. now apply WellFormed_createAlert.
Qed.

Lemma Unique_materializeAll (rule : Rule) (ds : list Detection)
    (w : World.t) :
  WellFormed w -> Unique th now w ->
  Unique th now (fold_left (materialize rule) ds w).
Proof.
  revert w. induction ds as [|d tl IH]; simpl; intros w H U; [exact U|].
  apply IH; [now apply WellFormed_createAlert | now apply Unique_createAlert].
Qed.

Lemma Materialized_materializeAll_kept (rule : Rule) (ds : list Detection)
    (ty : string) (ip : option string) (w : World.t) :
  WellFormed w -> Materialized th now ty ip w ->
  Materialized th now ty ip (fold_left (materialize rule) ds w).
Proof.
  revert w. induction ds as [|d tl IH]; simpl; intros w H M; [exact M|].
  apply IH; [now apply WellFormed_createAlert | now apply Materialized_kept].
Qed.

Lemma Materialized_materializeAll (rule : Rule) (ds : list Detection)
    (d : Detection) (w : World.t) :
  WellFormed w -> In d ds ->
  Materialized th now (type rule) (sourceIp d)
    (fold_left (materialize rule) ds w).
Proof.
  revert w. induction ds as [|x tl IH]; simpl; intros w H Hin; [easy|].
  destruct Hin as [->|Hin].
  - apply Materialized_materializeAll_kept.
    + now apply WellFormed_createAlert.
    + apply (Materialized_createAlert th now
               (mkAlertData d (type rule) (severity rule) "signature") w
               window_nonneg).
  - apply IH; [now apply WellFormed_createAlert | assumption].
Qed.

Lemma WellFormed_executeDetectionRule (rule : Rule) (logs : list Log.t)
    (w : World.t) :
  WellFormed w -> WellFormed (executeDetectionRule th now rule logs w).
Proof.
  intros H. rewrite executeDetectionRule_eq.
  destruct (condition rule th logs); [now apply WellFormed_materializeAll|].
  exact H.
Qed.

Lemma Unique_executeDetectionRule (rule : Rule) (logs : list Log.t)
    (w : World.t) :
  WellFormed w -> Unique th now w ->
  Unique th now (executeDetectionRule th now rule logs w).
Proof.
  intros H U. rewrite executeDetectionRule_eq.
  destruct (condition rule th logs); [now apply Unique_materializeAll|].
  exact U.
Qed.

Lemma Materialized_executeDetectionRule_kept (rule : Rule) (logs : list Log.t)
    (ty : string) (ip : option string) (w : World.t) :
  WellFormed w -> Materialized th now ty ip w ->
  Materialized th now ty ip (executeDetectionRule th now rule logs w).
Proof.
  intros H M. rewrite executeDetectionRule_eq.
  destruct (condition rule th logs);
    [now apply Materialized_materializeAll_kept|].
  exact M.
Qed.

Definition runRule (logs : list Log.t) (w : World.t) (rule : Rule) : World.t :=
  if enabled rule then executeDetectionRule th now rule logs w else w.

Lemma runRules_eq (rules : list Rule) (logs : list Log.t) (w : World.t) :
  runRules th rules now logs w = fold_left (runRule logs) rules w.
Proof. reflexivity. Qed.

Lemma WellFormed_runRules (rules : list Rule) (logs : list Log.t)
    (w : World.t) :
  WellFormed w -> WellFormed (runRules th rules now logs w).
Proof.
  rewrite runRules_eq. revert w.
  induction rules as [|r tl IH]; simpl; intros w H; [exact H|].
  apply IH. unfold runRule. destruct (enabled r); [|exact H].
  now apply WellFormed_executeDetectionRule.
Qed.

Lemma Unique_runRules (rules : list Rule) (logs : list Log.t) (w : World.t) :
  WellFormed w -> Unique th now w ->
  Unique th now (runRules th rules now logs w).
Proof.
  rewrite runRules_eq. revert w.
  induction rules as [|r tl IH]; simpl; intros w H U; [exact U|].
  unfold runRule at 2. destruct (enabled r); [|now apply IH].
  apply IH; [now apply WellFormed_executeDetectionRule|].
  now apply Unique_executeDetectionRule.
Qed.

Lemma Materialized_runRules_kept (rules : list Rule) (logs : list Log.t)
    (ty : string) (ip : option string) (w : World.t) :
  WellFormed w -> Materialized th now ty ip w ->
  Materialized th now ty ip (runRules th rules now logs w).
Proof.
  rewrite runRules_eq. revert w.
  induction rules as [|r tl IH]; simpl; intros w H M; [exact M|].
  unfold runRule at 2. destruct (enabled r); [|now apply IH].
  apply IH; [now apply WellFormed_executeDetectionRule|].
  now apply Materialized_executeDetectionRule_kept.
Qed.

(** Every detection of every enabled rule that returns has an open alert
    with its key when the loop over the rules ends. *)
Lemma Materialized_runRules (rules : list Rule) (logs : list Log.t)
    (w : World.t) (rule : Rule) (ds : list Detection) (d : Detection) :
  WellFormed w ->
  In rule rules -> enabled rule = true ->
  condition rule th logs = Ok ds -> In d ds ->
  Materialized th now (type rule) (sourceIp d)
    (runRules th rules now logs w).
Proof.
  rewrite runRules_eq. revert w.
  induction rules as [|r tl IH]; simpl; intros w H Hin En C Hd; [easy|].
  destruct Hin as [->|Hin].
  - fold (runRules th tl now logs (runRule logs w rule)).
    unfold runRule. rewrite En.
    apply Materialized_runRules_kept.
    + now apply WellFormed_executeDetectionRule.
    + rewrite executeDetectionRule_eq, C.
      now apply Materialized_materializeAll.
  - apply IH; try assumption.
    unfold runRule. destruct (enabled r); [|exact H].
    now apply WellFormed_executeDetectionRule.
Qed.

End DedupCycle.

(* ================================================================== *)
(** ** Merging a detection into a stored alert *)

Section Merge.

Import IntrusionDetector.
Local Open Scope R_scope.

(** A seventh failed login raises the candidate to confidence 95. *)
Definition seventhData : AlertData :=
  mkAlertData
    (mkDetection "Brute Force Attack Detected from 203.0.113.10"
       (Some "203.0.113.10") 95 (Some [11; 12; 13; 14; 15; 16; 17]%Z)
       "Authentication brute force" ["Authentication System"%string])
    "brute_force" high "signature".

Lemma seventh_found :
  World.findOne (similarAlert alertThresholds 2000 seventhData) world0 =
  Some alert0.
Proof. reflexivity. Qed.

(** The candidate meets the stored alert of its key: the alert is kept as
    the only one, its related logs become the two lists one after the other
    (with the shared ids twice), and its timeline stays empty: no "merged"
    entry is appended. *)
Lemma createAlert_merge_leaves_timeline :
  World.findOne (similarAlert alertThresholds 2000 seventhData) world0 =
    Some alert0 /\
  exists a',
    World.alerts (snd (createAlert alertThresholds 2000 seventhData world0)) =
      [a'] /\
    Alert.relatedLogs a' = [11; 12; 13; 11; 12; 13; 14; 15; 16; 17]%Z /\
    Alert.timeline alert0 = [] /\
    Alert.timeline a' = [].
Proof.
  split; [exact seventh_found|].
  rewrite (createAlert_found alertThresholds 2000 seventhData world0 alert0
             seventh_found).
  eexists. split; [reflexivity|]. repeat split.
Qed.

(** C1 (as the code has it): when [createAlert] finds an active or
    investigating alert of the candidate's (type, sourceIp) created inside
    the time window, it adds no alert; the stored alert gets the larger of
    the two confidences and its related logs followed by the candidate's,
    so that the ids it relates are the union of both; its timeline is left
    as it was.  Evaluating the rules twice over one batch leaves exactly one
    active or investigating alert inside the window for the (type, sourceIp)
    of every detection, provided the repository had at most one per key
    before. *)
Theorem C1_createAlert_merge (th : Thresholds) (now : Z) (ad : AlertData)
    (w : World.t) (existing : Alert.t)
    (Hfound : World.findOne (similarAlert th now ad) w = Some existing) :
  let r := createAlert th now ad w in
  let candidateLogs :=
    match relatedLogs (detection ad) with Some l => l | None => [] end in
  ids (World.alerts (snd r)) = ids (World.alerts w) /\
  In (fst r) (World.alerts (snd r)) /\
  Alert._id (fst r) = Alert._id existing /\
  Alert.confidence (fst r) =
    Rmax (Alert.confidence existing) (confidence (detection ad)) /\
  Alert.relatedLogs (fst r) =
    (Alert.relatedLogs existing ++ candidateLogs)%list /\
  (forall x, In x (Alert.relatedLogs (fst r)) <->
             In x (Alert.relatedLogs existing) \/ In x candidateLogs) /\
  Alert.timeline (fst r) = Alert.timeline existing /\
  (forall rules batch now1 now2 w0,
     (0 <= timeWindow th)%Z -> WellFormed w0 -> Unique th now1 w0 ->
     (now1 <= now2)%Z ->
     let w2 :=
       runRules th rules now2 batch (runRules th rules now1 batch w0) in
     Unique th now2 w2 /\
     forall rule ds d,
       In rule rules -> enabled rule = true ->
       condition rule th batch = Ok ds -> In d ds ->
       length (openFor th now2 (type rule) (sourceIp d) w2) = 1%nat).
Proof.
  intros r candidateLogs. subst r.
  rewrite (createAlert_found th now ad w existing Hfound). simpl fst. simpl snd.
  pose proof (merged_fields existing ad) as MF. cbv zeta in MF.
  destruct MF as (Eid & _ & _ & _ & _ & _ & _ & Etl & Econf & Elogs).
  fold candidateLogs in Elogs.
  split; [simpl; apply replace_ids|].
  split.
  { simpl. apply replace_In. rewrite Eid.
    apply (find_In_id _ _ _ Hfound). }
  split; [exact Eid|]. split; [exact Econf|]. split; [exact Elogs|].
  split; [intros x; rewrite Elogs; apply in_app_iff|].
  split; [exact Etl|].
  intros rules batch now1 now2 w0 W WF U L w2.
  assert (WF1 : WellFormed (runRules th rules now1 batch w0))
    by now apply WellFormed_runRules.
  assert (U1 : Unique th now2 (runRules th rules now1 batch w0)).
  { apply (Unique_later th now1 now2); [assumption|].
    now apply Unique_runRules. }
  assert (U2 : Unique th now2 w2) by now apply Unique_runRules.
  split; [exact U2|].
  intros rule ds d Hin En C Hd.
  destruct (Materialized_runRules th now2 W rules batch
              (runRules th rules now1 batch w0) rule ds d WF1 Hin En C Hd)
    as [a [Ha Sa]].
  fold w2 in Ha.
  assert (Hf : In a (openFor th now2 (type rule) (sourceIp d) w2)).
  { unfold openFor. apply filter_In. now split. }
  specialize (U2 (type rule) (sourceIp d)).
  destruct (openFor th now2 (type rule) (sourceIp d) w2) as [|x [|y tl]];
    simpl in *; [contradiction | reflexivity | lia].
Qed.

(** The seventh login merged into the stored alert of confidence 90. *)
Lemma C1_createAlert_merge_witness :
  let r := createAlert alertThresholds 2000 seventhData world0 in
  ids (World.alerts (snd r)) = [1%Z] /\
  Alert.confidence (fst r) = Rmax 90 95 /\
  Alert.timeline (fst r) = [].
Proof.
  pose proof (C1_createAlert_merge alertThresholds 2000 seventhData world0
                alert0 seventh_found) as H.
  cbv zeta in H.
  destruct H as (H1 & _ & _ & H4 & _ & _ & H7 & _).
  exact (conj H1 (conj H4 H7)).
Defined.

End Merge.

(* ================================================================== *)
(** ** The detection cycle: logs and journal *)

Section Cycle.

Import IntrusionDetector.

(** The journal only grows. *)
Definition Grows (w w' : World.t) : Prop :=
  exists s, World.journal w' = (World.journal w ++ s)%list.

Lemma Grows_refl (w : World.t) : Grows w w.
Proof. exists []. now rewrite app_nil_r. Qed.

Lemma Grows_trans (w1 w2 w3 : World.t) :
  Grows w1 w2 -> Grows w2 w3 -> Grows w1 w3.
Proof.
  intros [s1 H1] [s2 H2]. exists (s1 ++ s2)%list.
  now rewrite H2, H1, app_assoc.
Qed.

Lemma Grows_log (e : Entry) (w : World.t) : Grows w (World.log e w).
Proof. now exists [e]. Qed.

Create HintDb journal.
#[local] Hint Resolve Grows_refl Grows_log : journal.

Lemma Grows_In (e : Entry) (w w' : World.t) :
  Grows w w' -> In e (World.journal w) -> In e (World.journal w').
Proof. intros [s H] Hin. rewrite H. apply in_or_app. now left. Qed.

Lemma Grows_createAlert (th : Thresholds) (now : Z) (ad : AlertData)
    (w : World.t) :
  Grows w (snd (createAlert th now ad w)).
Proof.
  destruct (World.findOne (similarAlert th now ad) w) as [ex|] eqn:F.
  - rewrite (createAlert_found th now ad w ex F). simpl.
    now exists [AlertUpdated (Alert._id ex)].
  - rewrite (createAlert_fresh th now ad w F). simpl.
    now exists (announce (fresh now ad w)).
Qed.

Lemma logs_createAlert (th : Thresholds) (now : Z) (ad : AlertData)
    (w : World.t) :
  World.logs (snd (createAlert th now ad w)) = World.logs w.
Proof.
  destruct (World.findOne (similarAlert th now ad) w) as [ex|] eqn:F.
  - now rewrite (createAlert_found th now ad w ex F).
  - now rewrite (createAlert_fresh th now ad w F).
Qed.

Lemma Grows_executeDetectionRule (th : Thresholds) (now : Z) (rule : Rule)
    (logs : list Log.t) (w : World.t) :
  Grows w (executeDetectionRule th now rule logs w).
Proof.
  rewrite executeDetectionRule_eq.
  destruct (condition rule th logs) as [ds|e]; [|auto with journal].
  revert w. induction ds as [|d tl IH]; simpl; intros w; [auto with journal|].
  eapply Grows_trans; [|apply IH]. apply Grows_createAlert.
Qed.

Lemma logs_executeDetectionRule (th : Thresholds) (now : Z) (rule : Rule)
    (logs : list Log.t) (w : World.t) :
  World.logs (executeDetectionRule th now rule logs w) = World.logs w.
Proof.
  rewrite executeDetectionRule_eq.
  destruct (condition rule th logs) as [ds|e]; [|reflexivity].
  revert w. induction ds as [|d tl IH]; simpl; intros w; [reflexivity|].
  rewrite IH. apply logs_createAlert.
Qed.

Lemma Grows_runRules (th : Thresholds) (rules : list Rule) (now : Z)
    (logs : list Log.t) (w : World.t) :
  Grows w (runRules th rules now logs w).
Proof.
  rewrite runRules_eq. revert w.
  induction rules as [|r tl IH]; simpl; intros w; [auto with journal|].
  eapply Grows_trans; [|apply IH]. unfold runRule.
  destruct (enabled r); [apply Grows_executeDetectionRule | auto with journal].
Qed.

Lemma logs_runRules (th : Thresholds) (rules : list Rule) (now : Z)
    (logs : list Log.t) (w : World.t) :
  World.logs (runRules th rules now logs w) = World.logs w.
Proof.
  rewrite runRules_eq. revert w.
  induction rules as [|r tl IH]; simpl; intros w; [reflexivity|].
  rewrite IH. unfold runRule.
  destruct (enabled r); [apply logs_executeDetectionRule | reflexivity].
Qed.

(** The error of a rule that throws is in the journal when the loop ends. *)
Lemma runRules_logs_error (th : Thresholds) (rules : list Rule) (now : Z)
    (logs : list Log.t) (w : World.t) (rule : Rule) (error : string) :
  In rule rules -> enabled rule = true ->
  condition rule th logs = Throw error ->
  In (RuleError (name rule) error)
    (World.journal (runRules th rules now logs w)).
Proof.
  rewrite runRules_eq. revert w.
  induction rules as [|r tl IH]; simpl; intros w Hin En C; [easy|].
  destruct Hin as [->|Hin]; [|now apply IH].
  apply (Grows_In _ (runRule th now logs w rule)).
  - apply (Grows_runRules th tl now logs).
  - unfold runRule. rewrite En, executeDetectionRule_eq, C. simpl.
    apply in_or_app. right. now left.
Qed.

(** Sorting keeps the elements. *)
Lemma insertByTimestamp_In (l x : Log.t) (sorted : list Log.t) :
  In x (insertByTimestamp l sorted) <-> x = l \/ In x sorted.
Proof.
  induction sorted as [|y tl IH]; simpl.
  - split; intros [H|H]; auto; easy.
  - destruct (Log.timestamp y <? Log.timestamp l)%Z; simpl.
    + split; intros [H|H]; auto.
    + rewrite IH. split; intros H; tauto.
Qed.

Lemma sortByTimestampDesc_In (x : Log.t) (logs : list Log.t) :
  In x (sortByTimestampDesc logs) <-> In x logs.
Proof.
  unfold sortByTimestampDesc.
  assert (G : forall acc,
            In x (fold_left (fun sorted l => insertByTimestamp l sorted)
                    logs acc) <-> In x logs \/ In x acc).
  { induction logs as [|l tl IH]; simpl; intros acc; [tauto|].
    rewrite IH, insertByTimestamp_In. split; intros H; intuition auto. }
  rewrite G. simpl. tauto.
Qed.

Lemma recentLogs_In (th : Thresholds) (now : Z) (w : World.t) (l : Log.t) :
  In l (recentLogs th now w) -> In l (World.logs w).
Proof.
  unfold recentLogs. rewrite sortByTimestampDesc_In, filter_In. tauto.
Qed.

(** The batch of a cycle: the stored logs of the time window that are not
    yet processed. *)
Lemma recentLogs_spec (th : Thresholds) (now : Z) (w : World.t) (l : Log.t) :
  In l (recentLogs th now w) <->
  In l (World.logs w) /\
  (now - timeWindow th <= Log.timestamp l)%Z /\
  Log.processed l = false.
Proof.
  unfold recentLogs. rewrite sortByTimestampDesc_In, filter_In.
  rewrite andb_true_iff, Z.leb_le, negb_true_iff. tauto.
Qed.

Lemma existsb_id (l : Log.t) (batch : list Log.t) :
  existsb (Z.eqb (Log._id l)) (map Log._id batch) = true <->
  In (Log._id l) (map Log._id batch).
Proof.
  rewrite existsb_exists. split.
  - intros [x [Hx E]]. apply Z.eqb_eq in E. now rewrite E.
  - intros H. exists (Log._id l). split; [assumption | apply Z.eqb_refl].
Qed.

Lemma runDetectionCycle_eq (th : Thresholds) (rules : list Rule) (now : Z)
    (w : World.t) :
  runDetectionCycle th rules now w =
  let batch := recentLogs th now w in
  let w1 := runRules th rules now batch (World.log DetectionCycleStarted w) in
  World.log DetectionCycleCompleted
    (if (0 <? length (map Log._id batch))%nat
     then markProcessed (map Log._id batch) w1 else w1).
Proof. reflexivity. Qed.

End Cycle.

(* ================================================================== *)
(** ** A rule that throws *)

Section RuleErrors.

Import IntrusionDetector.
Local Open Scope Z_scope.

(** C8: when the evaluation of an enabled rule throws during a detection
    cycle, the error is written to the journal and the cycle completes;
    every detection of every enabled rule that returns still has its open
    alert at the end of the cycle; and every fetched log is stored with
    processed = true. *)
Theorem C8_rule_error_is_contained (th : Thresholds) (rules : list Rule)
    (now : Z) (w : World.t) (rule : Rule) (error : string)
    (Hwf : WellFormed w) (Hwindow : 0 <= timeWindow th)
    (Hin : In rule rules) (Henabled : enabled rule = true)
    (Hthrow : condition rule th (recentLogs th now w) = Throw error) :
  let batch := recentLogs th now w in
  let w' := runDetectionCycle th rules now w in
  In (RuleError (name rule) error) (World.journal w') /\
  (exists pre, World.journal w' = (pre ++ [DetectionCycleCompleted])%list) /\
  (forall r ds d,
     In r rules -> enabled r = true -> condition r th batch = Ok ds ->
     In d ds -> Materialized th now (type r) (sourceIp d) w') /\
  (forall l, In l batch -> In (Log.setProcessed true l) (World.logs w')) /\
  (forall l', In l' (World.logs w') ->
              In (Log._id l') (map Log._id batch) -> Log.processed l' = true).
Proof.
  intros batch w'. subst w'. rewrite runDetectionCycle_eq. cbv zeta.
  fold batch.
  set (w0 := World.log DetectionCycleStarted w).
  set (w1 := runRules th rules now batch w0).
  assert (Hlogs : World.logs w1 = World.logs w).
  { unfold w1. now rewrite logs_runRules. }
  assert (Hj : In (RuleError (name rule) error) (World.journal w1)).
  { unfold w1. now apply runRules_logs_error. }
  assert (Hm : forall r ds d,
             In r rules -> enabled r = true -> condition r th batch = Ok ds ->
             In d ds -> Materialized th now (type r) (sourceIp d) w1).
  { intros r ds d Hr En C Hd. unfold w1.
    now apply (Materialized_runRules th now Hwindow rules batch w0 r ds d). }
  destruct (0 <? length (map Log._id batch))%nat eqn:Hlen.
  - split; [simpl; apply in_or_app; now left|].
    split; [now exists (World.journal w1)|].
    split; [exact Hm|].
    split.
    + intros l Hl. simpl. rewrite Hlogs.
      apply in_map_iff. exists l. split.
      * assert (E : existsb (Z.eqb (Log._id l)) (map Log._id batch) = true).
        { apply existsb_id. now apply in_map. }
        now rewrite E.
      * now apply (recentLogs_In th now w).
    + intros l' Hl' Hid. simpl in Hl'. apply in_map_iff in Hl'.
      destruct Hl' as [l [E Hl]].
      destruct (existsb (Z.eqb (Log._id l)) (map Log._id batch)) eqn:X.
      * now subst l'.
      * subst l'. exfalso. apply existsb_id in Hid. congruence.
  - apply Nat.ltb_ge in Hlen.
    assert (Hb : batch = []).
    { destruct batch; [reflexivity | simpl in Hlen; lia]. }
    split; [simpl; apply in_or_app; now left|].
    split; [now exists (World.journal w1)|].
    split; [exact Hm|].
    split; [intros l Hl; rewrite Hb in Hl; easy|].
    intros l' _ Hid. rewrite Hb in Hid. easy.
Qed.

(** A table whose first rule throws, followed by the brute-force rule. *)
Definition brokenRule : Rule :=
  mkRule "Broken Rule" "other"
    (fun _ _ => Throw "TypeError: logs.forEach is not a function") high true.

Definition bruteForceRule : Rule :=
  mkRule "Brute Force Detection" "brute_force"
    (fun th logs => Ok (detectBruteForce th logs)) high true.

Definition sixLoginsWorld : World.t := World.mk sixFailedLogins [] [] 0.

Lemma WellFormed_sixLoginsWorld : WellFormed sixLoginsWorld.
Proof. split; constructor. Qed.

Lemma sixLogins_batch :
  recentLogs alertThresholds 2000 sixLoginsWorld = rev sixFailedLogins.
Proof. vm_compute. reflexivity. Qed.

Lemma sixLogins_attempts :
  failedAttempts (rev sixFailedLogins) =
  [("203.0.113.10"%string, rev sixFailedLogins)].
Proof. vm_compute. reflexivity. Qed.

Lemma sixLogins_detected :
  In (bruteForceDetection "203.0.113.10" (rev sixFailedLogins))
    (detectBruteForce alertThresholds (rev sixFailedLogins)).
Proof.
  change (detectBruteForce alertThresholds (rev sixFailedLogins))
    with (flat_map (bruteForceEntry alertThresholds)
            (failedAttempts (rev sixFailedLogins))).
  rewrite sixLogins_attempts. left. reflexivity.
Qed.

(** The broken rule is logged, the brute-force rule after it still
    materializes its detection, and the six logs are marked processed. *)
Lemma C8_rule_error_is_contained_witness :
  let w' :=
    runDetectionCycle alertThresholds [brokenRule; bruteForceRule] 2000
      sixLoginsWorld in
  In (RuleError "Broken Rule" "TypeError: logs.forEach is not a function")
    (World.journal w') /\
  Materialized alertThresholds 2000 "brute_force" (Some "203.0.113.10"%string)
    w' /\
  (forall l, In l (rev sixFailedLogins) ->
             In (Log.setProcessed true l) (World.logs w')).
Proof.
  pose proof (C8_rule_error_is_contained alertThresholds
                [brokenRule; bruteForceRule] 2000 sixLoginsWorld brokenRule
                "TypeError: logs.forEach is not a function"
                WellFormed_sixLoginsWorld ltac:(simpl; lia)
                (or_introl eq_refl) eq_refl eq_refl) as H.
  cbv zeta in H. rewrite sixLogins_batch in H.
  destruct H as (H1 & _ & H3 & H4 & _).
  split; [exact H1|]. split; [|exact H4].
  apply (H3 bruteForceRule
           (detectBruteForce alertThresholds (rev sixFailedLogins))
           (bruteForceDetection "203.0.113.10" (rev sixFailedLogins))).
  - right. left. reflexivity.
  - reflexivity.
  - reflexivity.
  - exact sixLogins_detected.
Defined.

End RuleErrors.

(* ================================================================== *)
(** ** The severity of the alerts a cycle creates *)

Section CreatedAlerts.

Import IntrusionDetector.

Variable th : Thresholds.
Variable now : Z.
Variable rules : list Rule.
Variable w0 : World.t.

(** The journal of [w] holds, after that of [w0], the creation of [a]
    followed at once by its immediate notification. *)
Definition Notified (w : World.t) (a : Alert.t) : Prop :=
  exists pre post,
    World.journal w =
    (World.journal w0 ++ pre ++
     [AlertCreated (Alert._id a) (Alert.title a);
      ImmediateAttention (Alert.severity a) (Alert.title a)] ++ post)%list.

Definition FromRule (a : Alert.t) : Prop :=
  exists r,
    In r rules /\ Alert.type a = type r /\ Alert.severity a = severity r.

Definition CreatedOk (w : World.t) (a : Alert.t) : Prop :=
  FromRule a /\
  (Alert.severity a = high \/ Alert.severity a = critical -> Notified w a).

(** Every stored alert either has the id of an alert of [w0] or was created
    from a rule of the table. *)
Definition Tracked (w : World.t) : Prop :=
  Grows w0 w /\
  forall a, In a (World.alerts w) ->
            In (Alert._id a) (ids (World.alerts w0)) \/ CreatedOk w a.

Lemma Notified_grows (w w' : World.t) (a : Alert.t) :
  Grows w w' -> Notified w a -> Notified w' a.
Proof.
  intros [s Hs] [pre [post H]]. exists pre, (post ++ s)%list.
  rewrite Hs, H. rewrite <- !app_assoc. reflexivity.
Qed.

Lemma CreatedOk_grows (w w' : World.t) (a : Alert.t) :
  Grows w w' -> CreatedOk w a -> CreatedOk w' a.
Proof.
  intros G [F N]. split; [exact F|].
  intros S. apply (Notified_grows w w' a G). now apply N.
Qed.

Lemma Tracked_start : Tracked w0.
Proof.
  split; [apply Grows_refl|]. intros a Ha. left. unfold ids. now apply in_map.
Qed.

Lemma Tracked_log (e : Entry) (w : World.t) :
  Tracked w -> Tracked (World.log e w).
Proof.
  intros [G T]. split.
  - eapply Grows_trans; [exact G | apply Grows_log].
  - intros a Ha. destruct (T a Ha) as [H|H]; [now left | right].
    apply (CreatedOk_grows w); [apply Grows_log | exact H].
Qed.

Lemma Tracked_materialize (rule : Rule) (d : Detection) (w : World.t) :
  In rule rules -> Tracked w -> Tracked (materialize th now rule w d).
Proof.
  intros Hr [G T]. unfold materialize.
  set (ad := mkAlertData d (type rule) (severity rule) "signature").
  pose proof (Grows_createAlert th now ad w) as G1.
  split; [eapply Grows_trans; eassumption|].
  destruct (World.findOne (similarAlert th now ad) w) as [ex|] eqn:F.
  - rewrite (createAlert_found th now ad w ex F) in *. simpl.
    intros a Ha. apply replace_In_inv in Ha.
    pose proof (merged_fields ex ad) as MF. cbv zeta in MF.
    destruct MF as (Eid & Ety & _ & _ & _ & Esev & Etitle & _).
    destruct Ha as [->|Ha].
    + apply find_some in F. destruct F as [Hex _].
      destruct (T ex Hex) as [H|[[r [Hr1 [Hr2 Hr3]]] N]].
      * left. now rewrite Eid.
      * right. split.
        -- exists r. rewrite Ety, Esev. auto.
        -- intros S. rewrite Esev in S. specialize (N S).
           apply (Notified_grows w _ _ G1) in N.
           unfold Notified in *. now rewrite Eid, Etitle, Esev.
    + destruct (T a Ha) as [H|H]; [now left | right].
      now apply (CreatedOk_grows w).
  - rewrite (createAlert_fresh th now ad w F) in *. simpl.
    intros a Ha. apply in_app_or in Ha. destruct Ha as [Ha|[<-|[]]].
    + destruct (T a Ha) as [H|H]; [now left | right].
      now apply (CreatedOk_grows w).
    + right. split; [exists rule; auto|].
      intros S. destruct G as [s Hs]. exists s, [].
      simpl. rewrite Hs, <- app_assoc. f_equal. f_equal.
      unfold announce.
      change (Alert.severity (fresh now ad w)) with (severity rule) in *.
      destruct S as [S|S]; rewrite S; reflexivity.
Qed.

Lemma Tracked_executeDetectionRule (rule : Rule) (logs : list Log.t)
    (w : World.t) :
  In rule rules -> Tracked w ->
  Tracked (executeDetectionRule th now rule logs w).
Proof.
  intros Hr. rewrite executeDetectionRule_eq.
  destruct (condition rule th logs) as [ds|e]; [|apply Tracked_log].
  revert w. induction ds as [|d tl IH]; simpl; intros w T; [exact T|].
  apply IH. now apply Tracked_materialize.
Qed.

Lemma Tracked_runRules (rs : list Rule) (logs : list Log.t) (w : World.t) :
  incl rs rules -> Tracked w -> Tracked (runRules th rs now logs w).
Proof.
  rewrite runRules_eq. revert w.
  induction rs as [|r tl IH]; simpl; intros w I T; [exact T|].
  apply IH; [intros x Hx; apply I; now right|].
  unfold runRule. destruct (enabled r); [|exact T].
  apply Tracked_executeDetectionRule; [apply I; now left | exact T].
Qed.

Lemma Tracked_runDetectionCycle :
  Tracked (runDetectionCycle th rules now w0).
Proof.
  rewrite runDetectionCycle_eq. cbv zeta. apply Tracked_log.
  assert (T : Tracked
                (runRules th rules now (recentLogs th now w0)
                   (World.log DetectionCycleStarted w0))).
  { apply Tracked_runRules; [apply incl_refl|].
    apply Tracked_log, Tracked_start. }
  destruct (0 <? length (map Log._id (recentLogs th now w0)))%nat;
    [|exact T].
  exact T.
Qed.

End CreatedAlerts.

Section DetectionSeverity.

Import IntrusionDetector.

Lemma FromRule_detectionRules (a : Alert.t) :
  FromRule detectionRules a ->
  (Alert.type a = "brute_force" /\ Alert.severity a = high) \/
  (Alert.type a = "sql_injection" /\ Alert.severity a = critical) \/
  (Alert.type a = "anomaly" /\ Alert.severity a = medium) \/
  (Alert.type a = "privilege_escalation" /\ Alert.severity a = high) \/
  (Alert.type a = "data_exfiltration" /\ Alert.severity a = critical).
Proof.
  intros [r [Hr [Ht Hs]]]. unfold detectionRules in Hr. simpl in Hr.
  destruct Hr as [<-|[<-|[<-|[<-|[<-|[]]]]]]; simpl in Ht, Hs; tauto.
Qed.

(** C10: an alert that a detection cycle with the constructor's rule table
    creates has the severity of its type: high for brute_force and
    privilege_escalation, critical for sql_injection and data_exfiltration,
    medium for anomaly; and unless it is an anomaly alert, the journal of
    the cycle holds its creation followed by its immediate notification. *)
Theorem C10_created_alert_severity (th : Thresholds) (now : Z) (w : World.t)
    (a : Alert.t)
    (Hin : In a (World.alerts (runDetectionCycle th detectionRules now w)))
    (Hnew : ~ In (Alert._id a) (ids (World.alerts w))) :
  ((Alert.type a = "brute_force" /\ Alert.severity a = high) \/
   (Alert.type a = "sql_injection" /\ Alert.severity a = critical) \/
   (Alert.type a = "anomaly" /\ Alert.severity a = medium) \/
   (Alert.type a = "privilege_escalation" /\ Alert.severity a = high) \/
   (Alert.type a = "data_exfiltration" /\ Alert.severity a = critical)) /\
  (Alert.type a <> "anomaly" ->
   exists pre post,
     World.journal (runDetectionCycle th detectionRules now w) =
     (World.journal w ++ pre ++
      [AlertCreated (Alert._id a) (Alert.title a);
       ImmediateAttention (Alert.severity a) (Alert.title a)] ++ post)%list).
Proof.
  destruct (Tracked_runDetectionCycle th now detectionRules w) as [_ T].
  destruct (T a Hin) as [H|[F N]]; [contradiction|].
  pose proof (FromRule_detectionRules a F) as C.
  split; [exact C|].
  intros NA. apply N.
  destruct C as [[_ S]|[[_ S]|[[Ty _]|[[_ S]|[_ S]]]]]; auto; contradiction.
Qed.

(** The cycle over the six failed logins: only the brute-force rule
    detects something, and its alert is the one stored. *)
Definition sixLoginsAlert : Alert.t :=
  fresh 2000
    (mkAlertData (bruteForceDetection "203.0.113.10" (rev sixFailedLogins))
       "brute_force" high "signature")
    sixLoginsWorld.

Lemma sixLogins_sql : detectSQLInjection (rev sixFailedLogins) = [].
Proof. vm_compute. reflexivity. Qed.

Lemma sixLogins_traffic :
  detectAnomalousTraffic alertThresholds (rev sixFailedLogins) = [].
Proof.
  rewrite detectAnomalousTraffic_eq.
  assert (E : trafficByIp (rev sixFailedLogins) = [])
    by (vm_compute; reflexivity).
  rewrite E. reflexivity.
Qed.

Lemma sixLogins_privilege :
  detectPrivilegeEscalation (rev sixFailedLogins) = [].
Proof. vm_compute. reflexivity. Qed.

Lemma sixLogins_exfiltration :
  detectDataExfiltration alertThresholds (rev sixFailedLogins) = [].
Proof. vm_compute. reflexivity. Qed.

Lemma sixLogins_bruteForce :
  detectBruteForce alertThresholds (rev sixFailedLogins) =
  [bruteForceDetection "203.0.113.10" (rev sixFailedLogins)].
Proof.
  change (detectBruteForce alertThresholds (rev sixFailedLogins))
    with (flat_map (bruteForceEntry alertThresholds)
            (failedAttempts (rev sixFailedLogins))).
  rewrite sixLogins_attempts. reflexivity.
Qed.

Lemma sixLogins_runRules (w : World.t) :
  runRules alertThresholds detectionRules 2000 (rev sixFailedLogins) w =
  materialize alertThresholds 2000 bruteForceRule w
    (bruteForceDetection "203.0.113.10" (rev sixFailedLogins)).
Proof.
  unfold runRules, detectionRules. cbn [fold_left enabled].
  rewrite !executeDetectionRule_eq. cbn [condition].
  rewrite sixLogins_sql, sixLogins_traffic, sixLogins_privilege,
    sixLogins_exfiltration, sixLogins_bruteForce.
  reflexivity.
Qed.

Lemma sixLogins_alerts :
  World.alerts
    (runDetectionCycle alertThresholds detectionRules 2000 sixLoginsWorld) =
  [sixLoginsAlert].
Proof.
  rewrite runDetectionCycle_eq. cbv zeta.
  rewrite sixLogins_batch, sixLogins_runRules.
  destruct (0 <? length (map Log._id (rev sixFailedLogins)))%nat; reflexivity.
Qed.

(** The alert the cycle over the six failed logins creates. *)
Lemma C10_created_alert_severity_witness :
  ((Alert.type sixLoginsAlert = "brute_force" /\
    Alert.severity sixLoginsAlert = high) \/
   (Alert.type sixLoginsAlert = "sql_injection" /\
    Alert.severity sixLoginsAlert = critical) \/
   (Alert.type sixLoginsAlert = "anomaly" /\
    Alert.severity sixLoginsAlert = medium) \/
   (Alert.type sixLoginsAlert = "privilege_escalation" /\
    Alert.severity sixLoginsAlert = high) \/
   (Alert.type sixLoginsAlert = "data_exfiltration" /\
    Alert.severity sixLoginsAlert = critical)) /\
  (Alert.type sixLoginsAlert <> "anomaly" ->
   exists pre post,
     World.journal
       (runDetectionCycle alertThresholds detectionRules 2000 sixLoginsWorld) =
     (World.journal sixLoginsWorld ++ pre ++
      [AlertCreated (Alert._id sixLoginsAlert) (Alert.title sixLoginsAlert);
       ImmediateAttention (Alert.severity sixLoginsAlert)
         (Alert.title sixLoginsAlert)] ++ post)%list).
Proof.
  apply (C10_created_alert_severity alertThresholds 2000 sixLoginsWorld
           sixLoginsAlert).
  - rewrite sixLogins_alerts. left. reflexivity.
  - simpl. tauto.
Defined.

End DetectionSeverity.

(* ================================================================== *)
(** ** The escalation scan *)

Section EscalationJournal.

Import NotificationService.

(** The entries [queueNotification] writes for the alert [id]. *)
Definition queuedFor (id : Z) (e : Entry) : bool :=
  match e with
  | NotificationQueued i _ => (i =? id)%Z
  | _ => false
  end.

(** How many times the alert [id] was enqueued, by the journal. *)
Definition enqueued (id : Z) (journal : list Entry) : nat :=
  length (filter (queuedFor id) journal).

Lemma enqueued_app (id : Z) (j1 j2 : list Entry) :
  enqueued id (j1 ++ j2) = (enqueued id j1 + enqueued id j2)%nat.
Proof. unfold enqueued. now rewrite filter_app, length_app. Qed.

Lemma enqueued_log (id : Z) (e : Entry) (w : World.t) :
  enqueued id (World.journal (World.log e w)) =
  (enqueued id (World.journal w) + if queuedFor id e then 1 else 0)%nat.
Proof.
  simpl. rewrite enqueued_app. unfold enqueued at 2. simpl.
  now destruct (queuedFor id e).
Qed.

Definition handlers (s : NotificationService.t) (n : Notification)
    (w : World.t) : World.t :=
  fold_left
    (fun w channelName =>
       match List.find (fun c => String.eqb (name c) channelName)
               (notificationChannels s) with
       | Some channel =>
           if enabled channel then runHandler channelName n w else w
       | None => w
       end)
    (notif_channels n) w.

Definition delivered (now : Z) (n : Notification) : Notification :=
  mkNotification (alertId n) (alert n) (notif_channels n) (priority n)
    (createdAt n) (attempts n + 1) (maxAttempts n) sent (Some now).

Lemma processNotification_eq (now : Z) (s : NotificationService.t)
    (n : Notification) (w : World.t) :
  processNotification now s n w =
  (delivered now n,
   World.log (NotificationSent (alertId n))
     (updateAlertNotificationStatus (delivered now n) (handlers s n w))).
Proof. reflexivity. Qed.

Lemma handlers_alerts (s : NotificationService.t) (n : Notification)
    (w : World.t) :
  World.alerts (handlers s n w) = World.alerts w.
Proof.
  unfold handlers. generalize (notif_channels n) as cs. intros cs. revert w.
  induction cs as [|c tl IH]; simpl; intros w; [reflexivity|].
  rewrite IH.
  destruct (List.find (fun c0 => String.eqb (name c0) c)
              (notificationChannels s)) as [ch|]; [|reflexivity].
  now destruct (enabled ch).
Qed.

Lemma handlers_enqueued (id : Z) (s : NotificationService.t)
    (n : Notification) (w : World.t) :
  enqueued id (World.journal (handlers s n w)) =
  enqueued id (World.journal w).
Proof.
  unfold handlers. generalize (notif_channels n) as cs. intros cs. revert w.
  induction cs as [|c tl IH]; simpl; intros w; [reflexivity|].
  rewrite IH.
  destruct (List.find (fun c0 => String.eqb (name c0) c)
              (notificationChannels s)) as [ch|]; [|reflexivity].
  destruct (enabled ch); [|reflexivity].
  unfold runHandler. rewrite enqueued_log. simpl. lia.
Qed.

(** The record [updateAlertNotificationStatus] pushes. *)
Definition record (now : Z) (n : Notification) : Alert.Notification :=
  Alert.mkNotification (JS.join "," (notif_channels n)) "security-team" now
    "sent".

Definition pushRecord (r : Alert.Notification) (a : Alert.t) : Alert.t :=
  Alert.setNotifications (Alert.notifications a ++ [r]) a.

Lemma processNotification_alerts (now : Z) (s : NotificationService.t)
    (n : Notification) (w : World.t) :
  World.alerts (snd (processNotification now s n w)) =
  World.updateById (alertId n) (pushRecord (record now n)) (World.alerts w).
Proof.
  rewrite processNotification_eq. simpl. now rewrite handlers_alerts.
Qed.

Lemma processNotification_enqueued (id : Z) (now : Z)
    (s : NotificationService.t) (n : Notification) (w : World.t) :
  enqueued id (World.journal (snd (processNotification now s n w))) =
  enqueued id (World.journal w).
Proof.
  rewrite processNotification_eq. cbn [snd]. rewrite enqueued_log.
  cbn [queuedFor]. unfold updateAlertNotificationStatus, World.findByIdAndUpdate.
  cbn [World.journal World.setAlerts]. rewrite handlers_enqueued. lia.
Qed.

Lemma processAll_enqueued (id : Z) (now : Z) (s : NotificationService.t)
    (q : list Notification) (w : World.t) :
  enqueued id (World.journal (snd (processAll now s q w))) =
  enqueued id (World.journal w).
Proof.
  revert w. induction q as [|n tl IH]; intros w; [reflexivity|].
  rewrite processAll_cons_snd. destruct (isPending n).
  - rewrite IH. apply processNotification_enqueued.
  - apply IH.
Qed.

Lemma processNotificationQueue_enqueued (id : Z) (now : Z)
    (s : NotificationService.t) (w : World.t) :
  enqueued id (World.journal (snd (processNotificationQueue now s w))) =
  enqueued id (World.journal w).
Proof.
  rewrite processNotificationQueue_snd.
  destruct (notificationQueue s) as [|n q]; [reflexivity|].
  rewrite processAll_enqueued, enqueued_log. simpl. lia.
Qed.

Definition hasId (id : Z) (a : Alert.t) : bool := (Alert._id a =? id)%Z.

Lemma queueNotification_enqueued (id : Z) (now : Z) (a : Alert.t)
    (chans : list string) (s : NotificationService.t) (w : World.t) :
  enqueued id (World.journal (snd (queueNotification now a chans s w))) =
  (enqueued id (World.journal w) + if hasId id a then 1 else 0)%nat.
Proof.
  unfold queueNotification.
  destruct (Alert.severity a);
    try (cbn [snd]; rewrite enqueued_log; reflexivity).
  rewrite processNotificationQueue_enqueued, enqueued_log. reflexivity.
Qed.

Lemma escalate_enqueued (id : Z) (now : Z) (rule : EscalationRule)
    (st : NotificationService.t * World.t) (a : Alert.t) :
  enqueued id (World.journal (snd (escalate now rule st a))) =
  (enqueued id (World.journal (snd st)) + if hasId id a then 1 else 0)%nat.
Proof.
  destruct st as [s w]. unfold escalate.
  rewrite queueNotification_enqueued, enqueued_log. simpl. lia.
Qed.

Lemma escalateAll_enqueued (id : Z) (now : Z) (rule : EscalationRule)
    (l : list Alert.t) (st : NotificationService.t * World.t) :
  enqueued id (World.journal (snd (fold_left (escalate now rule) l st))) =
  (enqueued id (World.journal (snd st)) + length (filter (hasId id) l))%nat.
Proof.
  revert st. induction l as [|x tl IH]; simpl; intros st; [lia|].
  rewrite IH, escalate_enqueued. destruct (hasId id x); simpl; lia.
Qed.

(** A scan of one tier enqueues an alert once for each time the [find] of
    the tier returns it. *)
Lemma checkEscalationRule_enqueued (id : Z) (now : Z) (rule : EscalationRule)
    (st : NotificationService.t * World.t) :
  enqueued id (World.journal (snd (checkEscalationRule now st rule))) =
  (enqueued id (World.journal (snd st)) +
   length (filter (hasId id) (World.find (toEscalate now rule) (snd st))))%nat.
Proof. unfold checkEscalationRule. apply escalateAll_enqueued. Qed.

End EscalationJournal.

Section EscalationStore.

Import NotificationService.

Lemma updateById_keeps (id : Z) (f : Alert.t -> Alert.t) (a : Alert.t)
    (l : list Alert.t) :
  id <> Alert._id a -> In a l -> In a (World.updateById id f l).
Proof.
  intros N. induction l as [|x tl IH]; simpl; [easy|].
  intros [->|H].
  - destruct (Z.eqb_spec (Alert._id a) id); [congruence | now left].
  - destruct (Z.eqb_spec (Alert._id x) id); right; auto.
Qed.

Lemma pushRecord_id (r : Alert.Notification) (x : Alert.t) :
  Alert._id (pushRecord r x) = Alert._id x.
Proof. reflexivity. Qed.

(** The notification service never adds, removes or renames an alert. *)
Lemma ids_processNotification (now : Z) (s : NotificationService.t)
    (n : Notification) (w : World.t) :
  ids (World.alerts (snd (processNotification now s n w))) =
  ids (World.alerts w).
Proof.
  rewrite processNotification_alerts. apply updateById_ids.
  intros x. apply pushRecord_id.
Qed.

Lemma ids_processAll (now : Z) (s : NotificationService.t)
    (q : list Notification) (w : World.t) :
  ids (World.alerts (snd (processAll now s q w))) = ids (World.alerts w).
Proof.
  revert w. induction q as [|n tl IH]; intros w; [reflexivity|].
  rewrite processAll_cons_snd. destruct (isPending n).
  - rewrite IH. apply ids_processNotification.
  - apply IH.
Qed.

Lemma ids_processNotificationQueue (now : Z) (s : NotificationService.t)
    (w : World.t) :
  ids (World.alerts (snd (processNotificationQueue now s w))) =
  ids (World.alerts w).
Proof.
  rewrite processNotificationQueue_snd.
  destruct (notificationQueue s) as [|n q]; [reflexivity|].
  now rewrite ids_processAll.
Qed.

Lemma ids_queueNotification (now : Z) (a : Alert.t) (chans : list string)
    (s : NotificationService.t) (w : World.t) :
  ids (World.alerts (snd (queueNotification now a chans s w))) =
  ids (World.alerts w).
Proof.
  unfold queueNotification. destruct (Alert.severity a); try reflexivity.
  now rewrite ids_processNotificationQueue.
Qed.

(** An alert stays as it is while no pending notification names it. *)
Definition NotPendingFor (id : Z) (q : list Notification) : Prop :=
  forall n, In n q -> isPending n = true -> alertId n <> id.

Lemma keeps_processNotification (now : Z) (s : NotificationService.t)
    (n : Notification) (w : World.t) (a : Alert.t) :
  alertId n <> Alert._id a -> In a (World.alerts w) ->
  In a (World.alerts (snd (processNotification now s n w))).
Proof.
  intros N H. rewrite processNotification_alerts.
  now apply updateById_keeps.
Qed.

Lemma keeps_processAll (now : Z) (s : NotificationService.t)
    (q : list Notification) (w : World.t) (a : Alert.t) :
  NotPendingFor (Alert._id a) q -> In a (World.alerts w) ->
  In a (World.alerts (snd (processAll now s q w))).
Proof.
  revert w. induction q as [|n tl IH]; intros w NP H; [exact H|].
  rewrite processAll_cons_snd.
  assert (NP' : NotPendingFor (Alert._id a) tl).
  { intros m Hm. apply NP. now right. }
  destruct (isPending n) eqn:Pn.
  - apply IH; [exact NP'|]. apply keeps_processNotification; [|exact H].
    apply NP; [now left | exact Pn].
  - now apply IH.
Qed.

Lemma processAll_delivered (now : Z) (s : NotificationService.t)
    (q : list Notification) (w : World.t) :
  Forall (fun n => isPending n = false) (fst (processAll now s q w)).
Proof.
  revert w. induction q as [|n tl IH]; intros w; [constructor|].
  rewrite processAll_cons. destruct (isPending n) eqn:Pn; cbn [fst].
  - constructor; [reflexivity | apply IH].
  - constructor; [exact Pn | apply IH].
Qed.

Lemma processNotificationQueue_fst (now : Z) (s : NotificationService.t)
    (w : World.t) :
  notificationQueue (fst (processNotificationQueue now s w)) =
  match notificationQueue s with
  | [] => []
  | _ =>
      filter (fun n => isPending n && (attempts n <? maxAttempts n)%nat)
        (fst (processAll now s (notificationQueue s)
                (World.log
                   (ProcessingNotifications (length (notificationQueue s)))
                   w)))
  end.
Proof.
  unfold processNotificationQueue.
  destruct (notificationQueue s) as [|n q] eqn:Q; [exact Q|].
  now destruct (processAll now s (n :: q)
                  (World.log (ProcessingNotifications (length (n :: q))) w)).
Qed.

Lemma NotPendingFor_processNotificationQueue (id : Z) (now : Z)
    (s : NotificationService.t) (w : World.t) :
  NotPendingFor id (notificationQueue (fst (processNotificationQueue now s w))).
Proof.
  rewrite processNotificationQueue_fst.
  destruct (notificationQueue s) as [|n q]; [easy|].
  intros m Hm Pm. apply filter_In in Hm. destruct Hm as [Hm _].
  pose proof (processAll_delivered now s (n :: q)
                (World.log (ProcessingNotifications (length (n :: q))) w)) as D.
  rewrite Forall_forall in D. specialize (D m Hm). congruence.
Qed.

Lemma keeps_processNotificationQueue (now : Z) (s : NotificationService.t)
    (w : World.t) (a : Alert.t) :
  NotPendingFor (Alert._id a) (notificationQueue s) ->
  In a (World.alerts w) ->
  In a (World.alerts (snd (processNotificationQueue now s w))).
Proof.
  intros NP H. rewrite processNotificationQueue_snd.
  destruct (notificationQueue s) as [|n q]; [exact H|].
  now apply keeps_processAll.
Qed.

(** The state of a scan in which the alert [a] has not been touched. *)
Definition Untouched (a : Alert.t) (st : NotificationService.t * World.t)
    : Prop :=
  In a (World.alerts (snd st)) /\
  NoDup (ids (World.alerts (snd st))) /\
  NotPendingFor (Alert._id a) (notificationQueue (fst st)).

Lemma Untouched_escalate (now : Z) (rule : EscalationRule) (a x : Alert.t)
    (st : NotificationService.t * World.t) :
  Alert._id x <> Alert._id a ->
  Untouched a st -> Untouched a (escalate now rule st x).
Proof.
  intros N (Ha & ND & NP). destruct st as [s w]. unfold escalate.
  set (w1 := World.log (Escalating (Alert._id x) (severity rule)) w).
  unfold Untouched.
  rewrite ids_queueNotification.
  split; [|split; [exact ND|]].
  - unfold queueNotification.
    destruct (Alert.severity x); try exact Ha.
    apply keeps_processNotificationQueue; [|exact Ha].
    cbn [notificationQueue setQueue]. intros n Hn Pn.
    apply in_app_or in Hn. destruct Hn as [Hn|[<-|[]]]; [now apply NP|].
    exact N.
  - unfold queueNotification.
    destruct (Alert.severity x);
      try (cbn [fst notificationQueue setQueue]; intros n Hn Pn;
           apply in_app_or in Hn; destruct Hn as [Hn|[<-|[]]];
           [now apply NP | exact N]).
    apply NotPendingFor_processNotificationQueue.
Qed.

Lemma Untouched_escalateAll (now : Z) (rule : EscalationRule) (a : Alert.t)
    (l : list Alert.t) (st : NotificationService.t * World.t) :
  Forall (fun x => Alert._id x <> Alert._id a) l ->
  Untouched a st -> Untouched a (fold_left (escalate now rule) l st).
Proof.
  revert st. induction l as [|x tl IH]; simpl; intros st F U; [exact U|].
  inversion F; subst. apply IH; [assumption|].
  now apply Untouched_escalate.
Qed.

(** The scan of another tier leaves the alert untouched. *)
Lemma Untouched_checkEscalationRule (now : Z) (rule : EscalationRule)
    (a : Alert.t) (st : NotificationService.t * World.t) :
  severity rule <> Alert.severity a ->
  Untouched a st -> Untouched a (checkEscalationRule now st rule).
Proof.
  intros N U. unfold checkEscalationRule.
  apply Untouched_escalateAll; [|exact U].
  apply Forall_forall. intros x Hx E.
  unfold World.find in Hx. apply filter_In in Hx. destruct Hx as [Hx T].
  destruct U as (Ha & ND & _).
  assert (x = a) by (apply (NoDup_ids_inj (World.alerts (snd st))); auto).
  subst x. unfold toEscalate in T. andb_hyps.
  match goal with
  | H : Severity_eqb _ _ = true |- _ => apply Severity_eqb_eq in H
  end.
  congruence.
Qed.

End EscalationStore.

Section EscalationScan.

Import NotificationService.

Lemma selected_none (id : Z) (p : Alert.t -> bool) (l : list Alert.t) :
  Forall (fun x => hasId id x = true -> p x = false) l ->
  length (filter (hasId id) (filter p l)) = 0%nat.
Proof.
  induction 1 as [|x tl Hx Htl IH]; simpl; [reflexivity|].
  destruct (p x) eqn:Px; [|exact IH].
  simpl. destruct (hasId id x) eqn:Hid; [|exact IH].
  specialize (Hx eq_refl). congruence.
Qed.

Lemma selected_once (p : Alert.t -> bool) (a : Alert.t) (l : list Alert.t) :
  NoDup (ids l) -> In a l -> p a = true ->
  length (filter (hasId (Alert._id a)) (filter p l)) = 1%nat.
Proof.
  intros ND Ha Pa. induction l as [|x tl IH]; simpl; [easy|].
  inversion ND as [|? ? Hn ND']; subst.
  destruct Ha as [->|Ha].
  - rewrite Pa. simpl. unfold hasId at 1. rewrite Z.eqb_refl. simpl.
    f_equal. apply selected_none. apply Forall_forall.
    intros x Hx Hid. exfalso. apply Hn. unfold hasId in Hid.
    apply Z.eqb_eq in Hid. rewrite <- Hid. unfold ids. now apply in_map.
  - assert (N : hasId (Alert._id a) x = false).
    { unfold hasId. apply Z.eqb_neq. intros E. apply Hn.
      rewrite E. unfold ids. now apply in_map. }
    destruct (p x); simpl; rewrite ?N; now apply IH.
Qed.

Definition scan (now : Z) (rules : list EscalationRule)
    (st : NotificationService.t * World.t) : NotificationService.t * World.t :=
  fold_left (checkEscalationRule now) rules st.

Lemma checkEscalations_scan (now : Z) (rules : list EscalationRule)
    (s : NotificationService.t) (w : World.t) :
  checkEscalations now rules s w =
  scan now rules (s, World.log CheckingEscalations w).
Proof. reflexivity. Qed.

(** No tier enqueues an alert that none of its [find] filters accepts. *)
Lemma scan_quiet (P : Alert.t -> Prop) (id : Z) (now : Z)
    (rules : list EscalationRule) (st : NotificationService.t * World.t) :
  (forall x n, P x -> P (pushRecord n x)) ->
  (forall rule x, In rule rules -> P x -> hasId id x = true ->
                  toEscalate now rule x = false) ->
  Stored P (snd st) ->
  Stored P (snd (scan now rules st)) /\
  enqueued id (World.journal (snd (scan now rules st))) =
  enqueued id (World.journal (snd st)).
Proof.
  intros Hpush. unfold scan. revert st.
  induction rules as [|r tl IH]; simpl; intros st Hsel S; [now split|].
  assert (S1 : Stored P (snd (checkEscalationRule now st r)))
    by now apply Stored_checkEscalationRule.
  destruct (IH (checkEscalationRule now st r)) as [S2 E2];
    [intros rule x Hr; apply Hsel; now right | exact S1 |].
  split; [exact S2|].
  rewrite E2, checkEscalationRule_enqueued.
  unfold World.find. rewrite selected_none; [lia|].
  unfold Stored in S. rewrite Forall_forall in *.
  intros x Hx Hid. apply (Hsel r x); [now left | now apply S | exact Hid].
Qed.

Definition SameSeverity (a x : Alert.t) : Prop :=
  Alert._id x = Alert._id a -> Alert.severity x = Alert.severity a.

Lemma SameSeverity_quiet (a : Alert.t) (now : Z) (rule : EscalationRule)
    (x : Alert.t) :
  severity rule <> Alert.severity a ->
  SameSeverity a x -> hasId (Alert._id a) x = true ->
  toEscalate now rule x = false.
Proof.
  intros N K Hid. unfold hasId in Hid. apply Z.eqb_eq in Hid.
  unfold toEscalate.
  destruct (Severity_eqb (Alert.severity x) (severity rule)) eqn:E;
    [|reflexivity].
  apply Severity_eqb_eq in E. specialize (K Hid). congruence.
Qed.

Lemma Untouched_SameSeverity (a : Alert.t)
    (st : NotificationService.t * World.t) :
  Untouched a st -> Stored (SameSeverity a) (snd st).
Proof.
  intros (Ha & ND & _). unfold Stored. apply Forall_forall.
  intros x Hx E.
  now rewrite (NoDup_ids_inj (World.alerts (snd st)) x a ND Hx Ha E).
Qed.

(** The tiers before the alert's own leave it untouched and do not enqueue
    it. *)
Lemma scan_before (a : Alert.t) (now : Z) (rules : list EscalationRule)
    (st : NotificationService.t * World.t) :
  Forall (fun r => severity r <> Alert.severity a) rules ->
  Untouched a st ->
  Untouched a (scan now rules st) /\
  enqueued (Alert._id a) (World.journal (snd (scan now rules st))) =
  enqueued (Alert._id a) (World.journal (snd st)).
Proof.
  unfold scan. revert st.
  induction rules as [|r tl IH]; simpl; intros st F U; [now split|].
  inversion F as [|? ? Hr Htl]; subst.
  assert (U1 : Untouched a (checkEscalationRule now st r))
    by now apply Untouched_checkEscalationRule.
  destruct (IH (checkEscalationRule now st r) Htl U1) as [U2 E2].
  split; [exact U2|].
  rewrite E2, checkEscalationRule_enqueued.
  unfold World.find. rewrite selected_none; [lia|].
  pose proof (Untouched_SameSeverity a st U) as K.
  unfold Stored in K. rewrite Forall_forall in *.
  intros x Hx Hid. now apply (SameSeverity_quiet a now r x Hr (K x Hx)).
Qed.

(** One scan over tiers of distinct severities enqueues the alert once, at
    its own tier. *)
Lemma scan_once (a : Alert.t) (now : Z) (before after : list EscalationRule)
    (rule : EscalationRule) (st : NotificationService.t * World.t) :
  Forall (fun r => severity r <> Alert.severity a) before ->
  Forall (fun r => severity r <> Alert.severity a) after ->
  toEscalate now rule a = true ->
  Untouched a st ->
  enqueued (Alert._id a)
    (World.journal (snd (scan now (before ++ rule :: after) st))) =
  (enqueued (Alert._id a) (World.journal (snd st)) + 1)%nat.
Proof.
  intros Fb Fa T U. unfold scan. rewrite fold_left_app. simpl.
  fold (scan now before st).
  destruct (scan_before a now before st Fb U) as [U1 E1].
  set (st1 := scan now before st) in *.
  fold (scan now after (checkEscalationRule now st1 rule)).
  pose proof (Untouched_SameSeverity a st1 U1) as K1.
  assert (K2 : Stored (SameSeverity a) (snd (checkEscalationRule now st1 rule))).
  { apply Stored_checkEscalationRule; [|exact K1].
    intros x n Kx. exact Kx. }
  destruct (scan_quiet (SameSeverity a) (Alert._id a) now after
              (checkEscalationRule now st1 rule)) as [_ E3].
  - intros x n Kx. exact Kx.
  - intros r x Hr Kx Hid. rewrite Forall_forall in Fa.
    now apply (SameSeverity_quiet a now r x (Fa r Hr) Kx).
  - exact K2.
  - rewrite E3, checkEscalationRule_enqueued, E1.
    destruct U1 as (Ha & ND & _).
    unfold World.find. now rewrite (selected_once _ a _ ND Ha T).
Qed.

End EscalationScan.

Section EscalationTiers.

Import NotificationService.
Local Open Scope Z_scope.

(** The stored alert with the id of [a] has its severity and a notification
    record that the pattern of [rule] matches. *)
Definition AlreadyNotified (a : Alert.t) (rule : EscalationRule) (x : Alert.t)
    : Prop :=
  Alert._id x = Alert._id a ->
  Alert.severity x = Alert.severity a /\
  notNotifiedVia (channels rule) x = false.

Lemma AlreadyNotified_push (a : Alert.t) (rule : EscalationRule) (x : Alert.t)
    (n : Alert.Notification) :
  AlreadyNotified a rule x -> AlreadyNotified a rule (pushRecord n x).
Proof.
  intros H E. destruct (H E) as [S N]. split; [exact S|].
  unfold notNotifiedVia in *. simpl. rewrite existsb_app.
  apply negb_false_iff in N. rewrite N. reflexivity.
Qed.

Lemma escalationRules_tier (r1 r2 : EscalationRule) :
  In r1 escalationRules -> In r2 escalationRules ->
  severity r1 = severity r2 -> r1 = r2.
Proof.
  unfold escalationRules. simpl.
  intros [<-|[<-|[<-|[]]]] [<-|[<-|[<-|[]]]]; simpl; intros E;
    try reflexivity; discriminate.
Qed.

Lemma escalationRules_split (rule : EscalationRule) :
  In rule escalationRules ->
  exists before after,
    escalationRules = (before ++ rule :: after)%list /\
    Forall (fun r => severity r <> severity rule) before /\
    Forall (fun r => severity r <> severity rule) after.
Proof.
  unfold escalationRules. simpl. intros [<-|[<-|[<-|[]]]].
  - exists [], [mkEscalationRule high 900000 ["email"; "dashboard"]%string;
                mkEscalationRule medium 1800000 ["dashboard"%string]].
    repeat split; repeat constructor; simpl; discriminate.
  - exists [mkEscalationRule critical 300000
              ["email"; "webhook"; "dashboard"]%string],
           [mkEscalationRule medium 1800000 ["dashboard"%string]].
    repeat split; repeat constructor; simpl; discriminate.
  - exists [mkEscalationRule critical 300000
              ["email"; "webhook"; "dashboard"]%string;
            mkEscalationRule high 900000 ["email"; "dashboard"]%string], [].
    repeat split; repeat constructor; simpl; discriminate.
Qed.

(** The record a delivered escalation leaves on its alert is one that the
    pattern of its tier matches, so a later scan passes the alert by. *)
Lemma tier_record_matches (rule : EscalationRule) :
  In rule escalationRules ->
  RegExp.test (channelsPattern (channels rule))
    (JS.join "," (channels rule)) = true.
Proof.
  unfold escalationRules. simpl.
  intros [<-|[<-|[<-|[]]]]; vm_compute; reflexivity.
Qed.

Lemma updateById_In (f : Alert.t -> Alert.t) (a : Alert.t) (l : list Alert.t) :
  NoDup (ids l) -> In a l -> In (f a) (World.updateById (Alert._id a) f l).
Proof.
  induction l as [|x tl IH]; simpl; [easy|].
  intros ND Ha. inversion ND as [|? ? Hn ND']; subst.
  destruct Ha as [->|Ha].
  - rewrite Z.eqb_refl. now left.
  - destruct (Z.eqb_spec (Alert._id x) (Alert._id a)) as [E|E].
    + exfalso. apply Hn. rewrite E. unfold ids. now apply in_map.
    + right. now apply IH.
Qed.

Lemma delivery_notifies (now : Z) (s : NotificationService.t)
    (n : Notification) (w : World.t) (a : Alert.t) (rule : EscalationRule) :
  NoDup (ids (World.alerts w)) -> In a (World.alerts w) ->
  alertId n = Alert._id a -> notif_channels n = channels rule ->
  In rule escalationRules ->
  exists a',
    In a' (World.alerts (snd (processNotification now s n w))) /\
    Alert._id a' = Alert._id a /\
    Alert.severity a' = Alert.severity a /\
    notNotifiedVia (channels rule) a' = false.
Proof.
  intros ND Ha Hid Hch Hr.
  exists (pushRecord (record now n) a).
  rewrite processNotification_alerts, Hid.
  split; [now apply updateById_In|].
  split; [reflexivity|]. split; [reflexivity|].
  unfold notNotifiedVia. apply negb_false_iff. simpl.
  rewrite existsb_app. simpl. rewrite Hch, (tier_record_matches rule Hr).
  now rewrite orb_true_r.
Qed.

(** *** From an enqueued escalation to a notified alert *)

Lemma updateById_target (Q : Alert.t -> Prop) (id : Z)
    (f : Alert.t -> Alert.t) (l : list Alert.t) :
  NoDup (ids l) ->
  (forall x, In x l -> Alert._id x = id -> Q (f x)) ->
  (forall x, In x l -> Alert._id x <> id -> Q x) ->
  Forall Q (World.updateById id f l).
Proof.
  induction l as [|x tl IH]; simpl; intros ND Hf Hq; [constructor|].
  inversion ND as [|? ? Hn ND']; subst.
  destruct (Z.eqb_spec (Alert._id x) id) as [E|E].
  - constructor; [apply Hf; auto|].
    apply Forall_forall. intros y Hy. apply Hq; [now right|].
    intros Ey. apply Hn. rewrite E, <- Ey. unfold ids. now apply in_map.
  - constructor; [apply Hq; auto|].
    apply IH; [exact ND' | intros y Hy; apply Hf; now right
              | intros y Hy; apply Hq; now right].
Qed.

(** The escalation of [a] on the tier [rule] is on its way: the alert is
    already notified, or the queue holds its pending notification. *)
Definition Queued (a : Alert.t) (rule : EscalationRule)
    (q : list Notification) : Prop :=
  exists n, In n q /\ isPending n = true /\
            alertId n = Alert._id a /\ notif_channels n = channels rule.

Definition Handled (a : Alert.t) (rule : EscalationRule)
    (st : NotificationService.t * World.t) : Prop :=
  NoDup (ids (World.alerts (snd st))) /\
  Stored (SameSeverity a) (snd st) /\
  (Queued a rule (notificationQueue (fst st)) \/
   Stored (AlreadyNotified a rule) (snd st)).

Lemma SameSeverity_push (a x : Alert.t) (n : Alert.Notification) :
  SameSeverity a x -> SameSeverity a (pushRecord n x).
Proof. exact (fun H => H). Qed.

Lemma delivered_AlreadyNotified (now : Z) (s : NotificationService.t)
    (n : Notification) (w : World.t) (a : Alert.t) (rule : EscalationRule) :
  In rule escalationRules ->
  alertId n = Alert._id a -> notif_channels n = channels rule ->
  NoDup (ids (World.alerts w)) -> Stored (SameSeverity a) w ->
  Stored (AlreadyNotified a rule) (snd (processNotification now s n w)).
Proof.
  intros Hr Hid Hch ND K. unfold Stored in *.
  rewrite processNotification_alerts, Hid.
  rewrite Forall_forall in K.
  apply updateById_target; [exact ND | |].
  - intros x Hx Ex _. split; [now apply (K x Hx)|].
    unfold notNotifiedVia. apply negb_false_iff. simpl.
    rewrite existsb_app. simpl.
    rewrite Hch, (tier_record_matches rule Hr). now rewrite orb_true_r.
  - intros x Hx Nx Ex. contradiction.
Qed.

Lemma AlreadyNotified_processNotification (now : Z)
    (s : NotificationService.t) (n : Notification) (w : World.t)
    (a : Alert.t) (rule : EscalationRule) :
  Stored (AlreadyNotified a rule) w ->
  Stored (AlreadyNotified a rule) (snd (processNotification now s n w)).
Proof.
  apply Stored_processNotification. intros x r. apply AlreadyNotified_push.
Qed.

Lemma processAll_notifies (now : Z) (s : NotificationService.t)
    (q : list Notification) (w : World.t) (a : Alert.t)
    (rule : EscalationRule) :
  In rule escalationRules ->
  NoDup (ids (World.alerts w)) -> Stored (SameSeverity a) w ->
  Queued a rule q \/ Stored (AlreadyNotified a rule) w ->
  Stored (AlreadyNotified a rule) (snd (processAll now s q w)).
Proof.
  intros Hr. revert w. induction q as [|n tl IH]; intros w ND K H.
  - destruct H as [[m [[] _]]|H]. exact H.
  - rewrite processAll_cons_snd.
    destruct (isPending n) eqn:Pn.
    + apply IH.
      * now rewrite ids_processNotification.
      * apply Stored_processNotification; [|exact K].
        intros x r. apply SameSeverity_push.
      * destruct H as [[m [[<-|Hm] [Pm [Im Cm]]]]|H].
        -- right. now apply delivered_AlreadyNotified.
        -- left. now exists m.
        -- right. now apply AlreadyNotified_processNotification.
    + apply IH; try assumption.
      destruct H as [[m [[<-|Hm] [Pm [Im Cm]]]]|H];
        [congruence | left; now exists m | now right].
Qed.

Lemma processNotificationQueue_notifies (now : Z) (s : NotificationService.t)
    (w : World.t) (a : Alert.t) (rule : EscalationRule) :
  In rule escalationRules ->
  Handled a rule (s, w) ->
  Stored (AlreadyNotified a rule) (snd (processNotificationQueue now s w)).
Proof.
  intros Hr (ND & K & H). simpl in *.
  rewrite processNotificationQueue_snd.
  destruct (notificationQueue s) as [|n q] eqn:Q.
  - destruct H as [[m [[] _]]|H]. exact H.
  - now apply processAll_notifies.
Qed.

Lemma Handled_queueNotification (now : Z) (x : Alert.t) (r : EscalationRule)
    (s : NotificationService.t) (w : World.t) (a : Alert.t)
    (rule : EscalationRule) :
  In rule escalationRules ->
  NoDup (ids (World.alerts w)) -> Stored (SameSeverity a) w ->
  (x = a /\ r = rule) \/
    Queued a rule (notificationQueue s) \/ Stored (AlreadyNotified a rule) w ->
  Handled a rule (queueNotification now x (channels r) s w).
Proof.
  intros Hr ND K H.
  set (n := mkNotification (Alert._id x) x (channels r)
              (calculatePriority (Alert.severity x)) now 0 3 pending None).
  set (s1 := setQueue (notificationQueue s ++ [n]) s).
  set (w1 := World.log (NotificationQueued (Alert._id x) (channels r)) w).
  assert (Q1 : Queued a rule (notificationQueue s1) \/
               Stored (AlreadyNotified a rule) w1).
  { destruct H as [[-> ->]|[[m [Hm Pm]]|H]].
    - left. exists n. split; [apply in_or_app; right; now left|].
      repeat split.
    - left. exists m. split; [apply in_or_app; now left | exact Pm].
    - now right. }
  assert (E : queueNotification now x (channels r) s w =
              match Alert.severity x with
              | critical => processNotificationQueue now s1 w1
              | _ => (s1, w1)
              end) by reflexivity.
  rewrite E.
  destruct (Alert.severity x); try (split; [exact ND | split; [exact K | exact Q1]]).
  split; [now rewrite ids_processNotificationQueue|].
  split.
  - apply Stored_processNotificationQueue; [|exact K].
    intros y m. apply SameSeverity_push.
  - right. apply processNotificationQueue_notifies; [exact Hr|].
    split; [exact ND | split; [exact K | exact Q1]].
Qed.

Lemma Handled_escalateAll (now : Z) (r : EscalationRule) (a : Alert.t)
    (rule : EscalationRule) (l : list Alert.t)
    (st : NotificationService.t * World.t) :
  In rule escalationRules ->
  NoDup (ids (World.alerts (snd st))) -> Stored (SameSeverity a) (snd st) ->
  (In a l /\ r = rule) \/
    Queued a rule (notificationQueue (fst st)) \/
    Stored (AlreadyNotified a rule) (snd st) ->
  Handled a rule (fold_left (escalate now r) l st).
Proof.
  intros Hr. revert st.
  induction l as [|x tl IH]; simpl; intros [s w] ND K H.
  - destruct H as [[[] _]|H]. split; [exact ND | split; [exact K | exact H]].
  - assert (Hx : Handled a rule (escalate now r (s, w) x) \/
                 (In a tl /\ r = rule)).
    { destruct H as [[[->|Ha] ->]|H].
      - left. unfold escalate.
        apply Handled_queueNotification; try assumption. now left.
      - now right.
      - left. unfold escalate.
        apply Handled_queueNotification; try assumption. now right. }
    assert (B : NoDup (ids (World.alerts (snd (escalate now r (s, w) x)))) /\
                Stored (SameSeverity a) (snd (escalate now r (s, w) x))).
    { unfold escalate. split.
      - now rewrite ids_queueNotification.
      - apply Stored_queueNotification; [|exact K].
        intros y m. apply SameSeverity_push. }
    destruct B as [ND1 K1].
    apply IH; try assumption.
    destruct Hx as [(_ & _ & Hx)|Hx]; [right; exact Hx | left; exact Hx].
Qed.

Lemma Handled_checkEscalationRule (now : Z) (r : EscalationRule)
    (a : Alert.t) (rule : EscalationRule)
    (st : NotificationService.t * World.t) :
  In rule escalationRules ->
  Handled a rule st -> Handled a rule (checkEscalationRule now st r).
Proof.
  intros Hr (ND & K & H). unfold checkEscalationRule.
  apply Handled_escalateAll; try assumption. now right.
Qed.

Lemma Handled_own_tier (now : Z) (a : Alert.t) (rule : EscalationRule)
    (st : NotificationService.t * World.t) :
  In rule escalationRules ->
  toEscalate now rule a = true ->
  Untouched a st -> Handled a rule (checkEscalationRule now st rule).
Proof.
  intros Hr T U. pose proof (Untouched_SameSeverity a st U) as K.
  destruct U as (Ha & ND & _). unfold checkEscalationRule.
  apply Handled_escalateAll; try assumption.
  left. split; [|reflexivity]. unfold World.find. apply filter_In. now split.
Qed.

Lemma Handled_scan (now : Z) (rules : list EscalationRule) (a : Alert.t)
    (rule : EscalationRule) (st : NotificationService.t * World.t) :
  In rule escalationRules ->
  Handled a rule st -> Handled a rule (scan now rules st).
Proof.
  intros Hr. unfold scan. revert st.
  induction rules as [|r tl IH]; simpl; intros st H; [exact H|].
  apply IH. now apply Handled_checkEscalationRule.
Qed.

(** A scan passes by the alerts that are already notified on their tier. *)
Lemma AlreadyNotified_quiet (a : Alert.t) (rule : EscalationRule) (now : Z)
    (r : EscalationRule) (x : Alert.t) :
  In rule escalationRules -> Alert.severity a = severity rule ->
  In r escalationRules ->
  AlreadyNotified a rule x -> hasId (Alert._id a) x = true ->
  toEscalate now r x = false.
Proof.
  intros Hrule Hsev Hr Hx Hid. unfold hasId in Hid. apply Z.eqb_eq in Hid.
  destruct (Hx Hid) as [Sx Nx]. unfold toEscalate.
  destruct (Severity_eqb (Alert.severity x) (severity r)) eqn:Q;
    [|reflexivity].
  apply Severity_eqb_eq in Q.
  assert (r = rule) by (apply escalationRules_tier; congruence).
  subst r. rewrite Nx. now rewrite andb_false_r.
Qed.

(** The two timers of the notification service: the queue is processed,
    or the tiers are scanned, at some time. *)
Inductive Tick : Type :=
| ProcessQueue (now : Z)
| CheckEscalations (now : Z).

Definition tick (st : NotificationService.t * World.t) (t : Tick)
    : NotificationService.t * World.t :=
  match t with
  | ProcessQueue now => processNotificationQueue now (fst st) (snd st)
  | CheckEscalations now =>
      checkEscalations now escalationRules (fst st) (snd st)
  end.

Definition timers (ticks : list Tick) (st : NotificationService.t * World.t)
    : NotificationService.t * World.t :=
  fold_left tick ticks st.

(** While the record stays on the alert, no run of the two timers enqueues
    the alert. *)
Lemma timers_quiet (a : Alert.t) (rule : EscalationRule) (ticks : list Tick)
    (st : NotificationService.t * World.t) :
  In rule escalationRules -> Alert.severity a = severity rule ->
  Stored (AlreadyNotified a rule) (snd st) ->
  enqueued (Alert._id a) (World.journal (snd (timers ticks st))) =
  enqueued (Alert._id a) (World.journal (snd st)).
Proof.
  intros Hrule Hsev. unfold timers. revert st.
  induction ticks as [|t tl IH]; intros st N; [reflexivity|].
  cbn [fold_left]. destruct t as [now|now]; cbn [tick].
  - rewrite IH.
    + apply processNotificationQueue_enqueued.
    + apply Stored_processNotificationQueue; [|exact N].
      intros x n. apply AlreadyNotified_push.
  - rewrite checkEscalations_scan.
    destruct (scan_quiet (AlreadyNotified a rule) (Alert._id a) now
                escalationRules
                (fst st, World.log CheckingEscalations (snd st)))
      as [N1 Q].
    + intros x n. apply AlreadyNotified_push.
    + intros r x Hr. now apply AlreadyNotified_quiet.
    + exact N.
    + rewrite IH by exact N1. rewrite Q. cbn [snd].
      rewrite enqueued_log. cbn [queuedFor]. lia.
Qed.

(** C6 (as the code has it): the tiers are critical after 5 minutes, high
    after 15 and medium after 30.  In one escalation scan, an active alert
    that is at least as old as the timeout of its tier and has no
    notification through a channel of the tier, neither recorded on the
    alert nor pending in the queue, is enqueued exactly once; once the
    queue has been processed, no run of scans and queue timers enqueues it
    again.  An alert that has a record naming a channel of its tier is
    enqueued by no run of scans and queue timers: it is passed by for as
    long as the record stays on the alert. *)
Theorem C6_escalation_scan (now : Z) (s : NotificationService.t)
    (w : World.t) (a : Alert.t) (rule : EscalationRule)
    (Hids : NoDup (ids (World.alerts w)))
    (Ha : In a (World.alerts w))
    (Hrule : In rule escalationRules)
    (Hsev : Alert.severity a = severity rule) :
  let st1 := checkEscalations now escalationRules s w in
  ((severity rule = critical -> escalateAfter rule = 300000) /\
   (severity rule = high -> escalateAfter rule = 900000) /\
   (severity rule = medium -> escalateAfter rule = 1800000)) /\
  (Alert.status a = active ->
   Alert.createdAt a <= now - escalateAfter rule ->
   notNotifiedVia (channels rule) a = true ->
   NotPendingFor (Alert._id a) (notificationQueue s) ->
   enqueued (Alert._id a) (World.journal (snd st1)) =
   (enqueued (Alert._id a) (World.journal w) + 1)%nat /\
   forall now1 ticks,
     let st2 := processNotificationQueue now1 (fst st1) (snd st1) in
     enqueued (Alert._id a) (World.journal (snd (timers ticks st2))) =
     enqueued (Alert._id a) (World.journal (snd st2))) /\
  (notNotifiedVia (channels rule) a = false ->
   forall ticks,
     enqueued (Alert._id a) (World.journal (snd (timers ticks (s, w)))) =
     enqueued (Alert._id a) (World.journal w)).
Proof.
  intros st1. subst st1. rewrite checkEscalations_scan.
  split; [|split].
  - unfold escalationRules in Hrule. simpl in Hrule.
    destruct Hrule as [<-|[<-|[<-|[]]]]; simpl;
      repeat split; intros; try reflexivity; discriminate.
  - intros Hact Hold Hnot Hq.
    destruct (escalationRules_split rule Hrule) as (before & after & E & Fb & Fa).
    rewrite <- Hsev in Fb, Fa.
    assert (T : toEscalate now rule a = true).
    { unfold toEscalate. rewrite Hsev, Hact, Hnot.
      assert (S : Severity_eqb (severity rule) (severity rule) = true)
        by now apply Severity_eqb_eq.
      rewrite S. simpl. rewrite andb_true_r. apply Z.leb_le. exact Hold. }
    assert (U : Untouched a (s, World.log CheckingEscalations w))
      by (repeat split; assumption).
    split.
    + rewrite E.
      rewrite (scan_once a now before after rule
                 (s, World.log CheckingEscalations w) Fb Fa T U).
      cbn [snd]. rewrite enqueued_log. cbn [queuedFor]. lia.
    + intros now1 ticks st2.
      assert (H1 : Handled a rule
                     (scan now escalationRules
                        (s, World.log CheckingEscalations w))).
      { rewrite E. unfold scan. rewrite fold_left_app. simpl.
        apply (Handled_scan now after a rule _ Hrule).
        apply Handled_own_tier; [exact Hrule | exact T|].
        apply (scan_before a now before _ Fb U). }
      set (st1 := scan now escalationRules
                    (s, World.log CheckingEscalations w)) in *.
      assert (N2 : Stored (AlreadyNotified a rule) (snd st2)).
      { unfold st2. apply processNotificationQueue_notifies; [exact Hrule|].
        now destruct st1. }
      now apply (timers_quiet a rule ticks st2 Hrule Hsev).
  - intros Hnot ticks.
    apply (timers_quiet a rule ticks (s, w) Hrule Hsev).
    unfold Stored. apply Forall_forall. intros x Hx Ex.
    assert (x = a) by (apply (NoDup_ids_inj (World.alerts w)); auto).
    subst x. now split.
Qed.

(** A critical alert of age 400 s that nobody was notified of. *)
Definition staleAlert : Alert.t :=
  Alert.mk 1 "SQL Injection Attempt Detected" critical "sql_injection" active
    (Some "198.51.100.7") ["Database"; "Web Application"]%string
    (Some "SQL Injection") 85 (17 / 2) [31]%Z None "signature" [] [] None None
    None 0.

Definition staleWorld : World.t := World.mk [] [staleAlert] [] 2.

Definition criticalTier : EscalationRule :=
  mkEscalationRule critical 300000 ["email"; "webhook"; "dashboard"]%string.

(** The stale critical alert is enqueued once by a scan at 400 s. *)
Lemma C6_escalation_scan_witness :
  enqueued 1
    (World.journal
       (snd (checkEscalations 400000 escalationRules initial staleWorld))) =
  (enqueued 1 (World.journal staleWorld) + 1)%nat.
Proof.
  refine (proj1 (proj1 (proj2 (C6_escalation_scan 400000 initial staleWorld
                                 staleAlert criticalTier _ _ _ _)) _ _ _ _)).
  - repeat constructor. simpl. tauto.
  - now left.
  - now left.
  - reflexivity.
  - reflexivity.
  - simpl. lia.
  - reflexivity.
  - intros n [].
Defined.

(** A critical alert that was escalated through the three channels of its
    tier at 400 s and is still active forty days later. *)
Definition notifiedAlert : Alert.t :=
  Alert.mk 1 "SQL Injection Attempt Detected" critical "sql_injection" active
    (Some "198.51.100.7") ["Database"; "Web Application"]%string
    (Some "SQL Injection") 85 (17 / 2) [31]%Z None "signature" []
    [Alert.mkNotification "email,webhook,dashboard" "security-team" 400000
       "sent"]
    None None None 0.

Definition notifiedWorld : World.t := World.mk [] [notifiedAlert] [] 2.

(** The alert is notified through the channels of its tier; the weekly
    cleanup, at forty days with the cutoff thirty days back, pulls
    the record, and the next scan enqueues the alert again. *)
Lemma escalation_enqueues_a_notified_alert_again_after_cleanup :
  notNotifiedVia (channels criticalTier) notifiedAlert = false /\
  enqueued 1
    (World.journal
       (snd (checkEscalations 3456400000 escalationRules initial
               (cleanupOldNotifications 864000000 notifiedWorld)))) =
  (enqueued 1 (World.journal notifiedWorld) + 1)%nat.
Proof.
  split; [reflexivity|].
  rewrite checkEscalations_scan.
  change escalationRules
    with ([] ++ criticalTier ::
          [mkEscalationRule high 900000 ["email"; "dashboard"]%string;
           mkEscalationRule medium 1800000 ["dashboard"%string]])%list.
  change 1%Z with (Alert._id (Alert.setNotifications [] notifiedAlert)) at 1.
  rewrite (scan_once (Alert.setNotifications [] notifiedAlert) 3456400000).
  - reflexivity.
  - constructor.
  - repeat constructor; simpl; discriminate.
  - reflexivity.
  - split; [left; reflexivity|]. split.
    + repeat constructor. simpl. tauto.
    + intros n [].
Qed.

End EscalationTiers.

(* ================================================================== *)
(** ** Matching with derivatives *)

Section RegExpFacts.

Import RegExp.

Lemma matches_Void (s : string) : matches Void s = false.
Proof. induction s as [|c s IH]; simpl; [reflexivity | exact IH]. Qed.

Lemma alt_cases (a b : t) :
  (a = Void /\ alt a b = b) \/ (b = Void /\ alt a b = a) \/ alt a b = Alt a b.
Proof. destruct a; auto; destruct b; auto. Qed.

Lemma matches_Alt_alt (s : string) :
  forall a b,
    matches (Alt a b) s = matches a s || matches b s /\
    matches (alt a b) s = matches a s || matches b s.
Proof.
  induction s as [|c s IH]; intros a b.
  - assert (A : matches (Alt a b) EmptyString =
                 matches a EmptyString || matches b EmptyString)
      by reflexivity.
    split; [exact A|].
    destruct (alt_cases a b) as [[-> ->]|[[-> ->]| ->]];
      [reflexivity | now rewrite orb_false_r | exact A].
  - assert (A : matches (Alt a b) (String c s) =
                matches a (String c s) || matches b (String c s)).
    { cbn [matches deriv]. apply (IH (deriv c a) (deriv c b)). }
    split; [exact A|].
    destruct (alt_cases a b) as [[-> ->]|[[-> ->]| ->]].
    + now rewrite matches_Void.
    + now rewrite matches_Void, orb_false_r.
    + exact A.
Qed.

Lemma matches_Alt (a b : t) (s : string) :
  matches (Alt a b) s = matches a s || matches b s.
Proof. apply matches_Alt_alt. Qed.

Lemma matches_alt (a b : t) (s : string) :
  matches (alt a b) s = matches a s || matches b s.
Proof. apply matches_Alt_alt. Qed.

Lemma cat_cases (a b : t) :
  (a = Void /\ cat a b = Void) \/ (b = Void /\ cat a b = Void) \/
  (a = Eps /\ cat a b = b) \/ (b = Eps /\ cat a b = a) \/
  cat a b = Cat a b.
Proof.
  destruct a; auto; destruct b; auto 6.
Qed.

Lemma matches_Cat_Void_l (b : t) (s : string) : matches (Cat Void b) s = false.
Proof.
  destruct s as [|c s]; [reflexivity|]. cbn [matches deriv nullable].
  destruct b; apply matches_Void.
Qed.

Lemma cat_Void_r (a : t) : cat a Void = Void.
Proof. now destruct a. Qed.

Lemma matches_Cat_Void_r (a : t) (s : string) : matches (Cat a Void) s = false.
Proof.
  destruct s as [|c s]; [simpl; apply andb_false_r|].
  cbn [matches deriv]. rewrite cat_Void_r.
  destruct (nullable a); apply matches_Void.
Qed.

Lemma matches_Cat_Eps_l (b : t) (s : string) :
  matches (Cat Eps b) s = matches b s.
Proof.
  destruct s as [|c s]; [reflexivity|]. cbn [matches deriv nullable].
  rewrite matches_alt.
  replace (cat Void b) with Void by now destruct b.
  now rewrite matches_Void.
Qed.

Lemma cat_Eps_r (a : t) : cat a Eps = a.
Proof. now destruct a. Qed.

Lemma matches_Cat_Eps_r (a : t) (s : string) :
  matches (Cat a Eps) s = matches a s.
Proof.
  destruct s as [|c s]; [simpl; apply andb_true_r|].
  cbn [matches deriv]. rewrite cat_Eps_r.
  destruct (nullable a); [|reflexivity].
  now rewrite matches_alt, matches_Void, orb_false_r.
Qed.

Lemma matches_cat (a b : t) (s : string) :
  matches (cat a b) s = matches (Cat a b) s.
Proof.
  destruct (cat_cases a b) as [[-> ->]|[[-> ->]|[[-> ->]|[[-> ->]| ->]]]].
  - now rewrite matches_Void, matches_Cat_Void_l.
  - now rewrite matches_Void, matches_Cat_Void_r.
  - now rewrite matches_Cat_Eps_l.
  - now rewrite matches_Cat_Eps_r.
  - reflexivity.
Qed.

(** A match of [r1] followed by a match of [r2] is a match of their
    concatenation. *)
Lemma matches_Cat (r1 r2 : t) (s1 s2 : string) :
  matches r1 s1 = true -> matches r2 s2 = true ->
  matches (Cat r1 r2) (s1 ++ s2) = true.
Proof.
  revert r1. induction s1 as [|c s1 IH]; intros r1 H1 H2.
  - simpl in H1. simpl append.
    destruct s2 as [|c s2]; [simpl in *; now rewrite H1, H2|].
    cbn [matches deriv]. rewrite H1, matches_alt.
    simpl in H2. rewrite H2. apply orb_true_r.
  - simpl append. cbn [matches deriv].
    assert (M : matches (cat (deriv c r1) r2) (s1 ++ s2) = true).
    { rewrite matches_cat. apply IH; [exact H1 | exact H2]. }
    destruct (nullable r1); [|exact M].
    rewrite matches_alt, M. reflexivity.
Qed.

Lemma matches_Star_nil (r : t) : matches (Star r) EmptyString = true.
Proof. reflexivity. Qed.

Lemma matches_Star_cons (r : t) (s1 s2 : string) :
  matches r s1 = true -> matches (Star r) s2 = true ->
  matches (Star r) (s1 ++ s2) = true.
Proof.
  intros H1 H2. destruct s1 as [|c s1]; [exact H2|].
  simpl append. cbn [matches deriv]. rewrite matches_cat.
  apply matches_Cat; [exact H1 | exact H2].
Qed.

Lemma matches_Sym (p : ascii -> bool) (c : ascii) :
  p c = true -> matches (Sym p) (String c EmptyString) = true.
Proof. intros H. simpl. now rewrite H. Qed.

(** A run of characters of a class matches its star. *)
Lemma matches_Star_class (p : ascii -> bool) (s : string) :
  forallb p (list_ascii_of_string s) = true -> matches (Star (Sym p)) s = true.
Proof.
  induction s as [|c s IH]; [reflexivity|]. simpl forallb.
  intros H. apply andb_true_iff in H. destruct H as [Hc Hs].
  change (String c s) with (String c EmptyString ++ s).
  apply matches_Star_cons; [now apply matches_Sym | now apply IH].
Qed.

Lemma matches_plus_class (p : ascii -> bool) (s : string) :
  s <> EmptyString -> forallb p (list_ascii_of_string s) = true ->
  matches (plus (Sym p)) s = true.
Proof.
  destruct s as [|c s]; [easy|]. intros _ H. simpl forallb in H.
  apply andb_true_iff in H. destruct H as [Hc Hs].
  change (String c s) with (String c EmptyString ++ s). unfold plus.
  apply matches_Cat; [now apply matches_Sym | now apply matches_Star_class].
Qed.

Lemma matches_any (s : string) : matches (Star anyChar) s = true.
Proof.
  apply matches_Star_class. induction s as [|c s IH]; [reflexivity | exact IH].
Qed.

(** [test] finds a match anywhere in the subject. *)
Lemma test_substring (r : t) (pre m post : string) :
  matches r m = true -> test r (pre ++ m ++ post) = true.
Proof.
  intros H. unfold test.
  apply matches_Cat; [apply matches_any|].
  apply matches_Cat; [exact H | apply matches_any].
Qed.

Lemma matches_chr (c : ascii) : matches (chr c) (String c EmptyString) = true.
Proof. apply matches_Sym. apply Ascii.eqb_refl. Qed.

Lemma matches_lit (s : string) : matches (lit s) s = true.
Proof.
  induction s as [|c s IH]; [reflexivity|].
  change (String c s) with (String c EmptyString ++ s). cbn [lit].
  apply matches_Cat; [apply matches_chr | exact IH].
Qed.

Lemma matches_liti (s : string) : matches (liti s) s = true.
Proof.
  induction s as [|c s IH]; [reflexivity|].
  change (String c s) with (String c EmptyString ++ s). cbn [liti].
  apply matches_Cat; [|exact IH].
  apply matches_Sym. apply Ascii.eqb_refl.
Qed.

Lemma matches_anyOf (rs : list t) (r : t) (s : string) :
  In r rs -> matches r s = true -> matches (anyOf rs) s = true.
Proof.
  induction rs as [|x tl IH]; [easy|]. intros [->|H] M.
  - destruct tl as [|y tl']; [exact M|].
    change (anyOf (r :: y :: tl')) with (Alt r (anyOf (y :: tl'))).
    now rewrite matches_Alt, M.
  - destruct tl as [|y tl']; [easy|].
    change (anyOf (x :: y :: tl')) with (Alt x (anyOf (y :: tl'))).
    rewrite matches_Alt, (IH H M). apply orb_true_r.
Qed.

End RegExpFacts.

(* ================================================================== *)
(** ** The rules that read one log at a time *)

Section PatternRules.

Import IntrusionDetector.
Local Open Scope R_scope.

(** The characters [\s] accepts, and the ones [.] accepts. *)
Definition whiteSpace (c : ascii) : bool :=
  let n := nat_of_ascii c in
  ((9 <=? n)%nat && (n <=? 13)%nat) || (n =? 32)%nat.

Definition sameLine (c : ascii) : bool :=
  negb (Ascii.eqb c "010"%char || Ascii.eqb c "013"%char).

Definition allOf (p : ascii -> bool) (s : string) : bool :=
  forallb p (list_ascii_of_string s).

(** The detections that relate the log [id]. *)
Definition relates (id : Z) (d : Detection) : bool :=
  existsb (Z.eqb id) (Alert.orElse (relatedLogs d) []).

(** A rule that looks at each log of some categories on its own and emits
    one detection, relating that log, when it is flagged. *)
Definition perLog (inScope flagged : Log.t -> bool)
    (detection : Log.t -> Detection) (logs : list Log.t) : list Detection :=
  flat_map
    (fun log =>
       if inScope log
       then if flagged log then [detection log] else []
       else [])
    logs.

Lemma perLog_cons (inScope flagged : Log.t -> bool)
    (detection : Log.t -> Detection) (x : Log.t) (tl : list Log.t) :
  perLog inScope flagged detection (x :: tl) =
  ((if inScope x then if flagged x then [detection x] else [] else []) ++
   perLog inScope flagged detection tl)%list.
Proof. reflexivity. Qed.

Lemma perLog_none (inScope flagged : Log.t -> bool)
    (detection : Log.t -> Detection) (logs : list Log.t) (id : Z) :
  (forall x, relatedLogs (detection x) = Some [Log._id x]) ->
  ~ In id (map Log._id logs) ->
  filter (relates id) (perLog inScope flagged detection logs) = [].
Proof.
  intros Hrel. induction logs as [|y tl IH]; [reflexivity|].
  intros Hn. rewrite perLog_cons, filter_app, IH.
  - rewrite app_nil_r.
    destruct (inScope y); [|reflexivity].
    destruct (flagged y); [|reflexivity].
    simpl. unfold relates. rewrite Hrel. simpl.
    destruct (Z.eqb_spec id (Log._id y)) as [E|E]; [|reflexivity].
    exfalso. apply Hn. rewrite E. now left.
  - intros H. apply Hn. now right.
Qed.

Lemma perLog_relates (inScope flagged : Log.t -> bool)
    (detection : Log.t -> Detection) (logs : list Log.t) (l : Log.t) :
  (forall x, relatedLogs (detection x) = Some [Log._id x]) ->
  NoDup (map Log._id logs) -> In l logs ->
  filter (relates (Log._id l)) (perLog inScope flagged detection logs) =
  if inScope l && flagged l then [detection l] else [].
Proof.
  intros Hrel. induction logs as [|x tl IH]; [easy|].
  intros ND Hl. inversion ND as [|? ? Hn ND']; subst.
  rewrite perLog_cons, filter_app.
  destruct Hl as [->|Hl].
  - rewrite (perLog_none inScope flagged detection tl (Log._id l) Hrel Hn).
    rewrite app_nil_r.
    destruct (inScope l); [|reflexivity].
    destruct (flagged l); [|reflexivity].
    simpl. unfold relates. rewrite Hrel. simpl. now rewrite Z.eqb_refl.
  - rewrite (IH ND' Hl).
    assert (N : Log._id l <> Log._id x).
    { intros E. apply Hn. rewrite <- E. now apply in_map. }
    destruct (inScope x); [|reflexivity].
    destruct (flagged x); [|reflexivity].
    simpl. unfold relates. rewrite Hrel. simpl.
    destruct (Z.eqb_spec (Log._id l) (Log._id x)); [contradiction|].
    reflexivity.
Qed.

Lemma space_whiteSpace : RegExp.space = RegExp.Sym whiteSpace.
Proof. reflexivity. Qed.

Lemma dot_sameLine : RegExp.dot = RegExp.Sym sameLine.
Proof. reflexivity. Qed.

(** Two words with white space between them match the pattern
    [word1\s+word2]. *)
Lemma spaced_matches (kw1 kw2 ws : string) :
  ws <> EmptyString -> allOf whiteSpace ws = true ->
  RegExp.matches
    (RegExp.seq [RegExp.liti kw1; RegExp.plus RegExp.space; RegExp.liti kw2])
    (kw1 ++ ws ++ kw2) = true.
Proof.
  intros N W. cbn [RegExp.seq].
  apply matches_Cat; [apply matches_liti|].
  apply matches_Cat; [|apply matches_liti].
  rewrite space_whiteSpace. now apply matches_plus_class.
Qed.

(** Two words with anything but a line break between them match the
    pattern [word1.*word2]. *)
Lemma gapped_matches (kw1 kw2 gap : string) :
  allOf sameLine gap = true ->
  RegExp.matches
    (RegExp.seq [RegExp.liti kw1; RegExp.Star RegExp.dot; RegExp.liti kw2])
    (kw1 ++ gap ++ kw2) = true.
Proof.
  intros W. cbn [RegExp.seq].
  apply matches_Cat; [apply matches_liti|].
  apply matches_Cat; [|apply matches_liti].
  rewrite dot_sameLine. now apply matches_Star_class.
Qed.

Definition sqlDetection (log : Log.t) : Detection :=
  mkDetection "SQL Injection Attempt Detected" (Log.sourceIp log) 85
    (Some [Log._id log]) "SQL Injection" ["Database"; "Web Application"]%string.

Definition sqlScope (log : Log.t) : bool :=
  Category_eqb (Log.category log) application ||
  Category_eqb (Log.category log) database.

Definition sqlFlagged (log : Log.t) : bool :=
  existsb (fun pattern => RegExp.test pattern (JS.toLowerCase (Log.message log)))
    sqlPatterns.

(** The statements the rule looks for as a keyword, white space and a
    second keyword. *)
Definition sqlKeywords : list (string * string) :=
  [("union", "select"); ("drop", "table"); ("insert", "into");
   ("delete", "from")]%string.

Lemma sqlKeywords_pattern (kw1 kw2 : string) :
  In (kw1, kw2) sqlKeywords ->
  In (RegExp.seq [RegExp.liti kw1; RegExp.plus RegExp.space; RegExp.liti kw2])
    sqlPatterns.
Proof.
  unfold sqlKeywords, sqlPatterns.
  intros [E|[E|[E|[E|[]]]]]; injection E as <- <-.
  - left. reflexivity.
  - do 2 right. left. reflexivity.
  - do 3 right. left. reflexivity.
  - do 4 right. left. reflexivity.
Qed.

Lemma sqlFlagged_spaced (l : Log.t) (kw1 kw2 pre ws post : string) :
  In (kw1, kw2) sqlKeywords ->
  JS.toLowerCase (Log.message l) = pre ++ (kw1 ++ ws ++ kw2) ++ post ->
  ws <> EmptyString -> allOf whiteSpace ws = true ->
  sqlFlagged l = true.
Proof.
  intros K M N W. unfold sqlFlagged. apply existsb_exists.
  eexists. split; [apply (sqlKeywords_pattern kw1 kw2 K)|].
  rewrite M. apply test_substring. now apply spaced_matches.
Qed.

(** X2: in a batch of logs with distinct ids, the SQL-injection rule emits
    at most one detection for a log, however many patterns its message
    matches.  It emits one, of confidence 85 and relating that log alone,
    for an application or database log whose message holds, in any letter
    case, one of [union select], [drop table], [insert into] and
    [delete from] with white space between the two words; it emits none
    for a log of another category. *)
Theorem X2_detectSQLInjection (logs : list Log.t) (l : Log.t)
    (Hids : NoDup (map Log._id logs)) (Hin : In l logs) :
  let emitted := filter (relates (Log._id l)) (detectSQLInjection logs) in
  (forall kw1 kw2 pre ws post,
     Log.category l = application \/ Log.category l = database ->
     In (kw1, kw2) sqlKeywords ->
     JS.toLowerCase (Log.message l) = pre ++ (kw1 ++ ws ++ kw2) ++ post ->
     ws <> EmptyString -> allOf whiteSpace ws = true ->
     emitted = [sqlDetection l]) /\
  (Log.category l <> application -> Log.category l <> database ->
   emitted = []) /\
  (length emitted <= 1)%nat.
Proof.
  intros emitted.
  assert (E : emitted = if sqlScope l && sqlFlagged l then [sqlDetection l]
                        else []).
  { subst emitted.
    exact (perLog_relates sqlScope sqlFlagged sqlDetection logs l
             (fun x => eq_refl) Hids Hin). }
  rewrite E. split; [|split].
  - intros kw1 kw2 pre ws post C K M N W.
    rewrite (sqlFlagged_spaced l kw1 kw2 pre ws post K M N W).
    unfold sqlScope. destruct C as [-> | ->]; reflexivity.
  - intros N1 N2. unfold sqlScope.
    destruct (Log.category l); try reflexivity; contradiction.
  - destruct (sqlScope l && sqlFlagged l); simpl; lia.
Qed.

Definition sqlLogs : list Log.t :=
  [ Log.mk 21 1000 "apache"
      "GET /items?id=1 UNION  SELECT password FROM users; DROP TABLE users"
      None application (Some "198.51.100.7") false;
    Log.mk 22 1001 "sshd" "Failed password for admin" None security
      (Some "198.51.100.7") false ].

Lemma X2_detectSQLInjection_witness :
  filter (relates 21) (detectSQLInjection sqlLogs) =
  [mkDetection "SQL Injection Attempt Detected" (Some "198.51.100.7") 85
     (Some [21%Z]) "SQL Injection" ["Database"; "Web Application"]%string].
Proof.
  refine (proj1 (X2_detectSQLInjection sqlLogs
                   (Log.mk 21 1000 "apache"
                      "GET /items?id=1 UNION  SELECT password FROM users; DROP TABLE users"
                      None application (Some "198.51.100.7") false) _ _)
            "union" "select" "get /items?id=1 " "  "
            " password from users; drop table users" _ _ _ _ _).
  - repeat constructor; simpl; intuition discriminate.
  - left. reflexivity.
  - left. reflexivity.
  - left. reflexivity.
  - reflexivity.
  - discriminate.
  - reflexivity.
Defined.

(** *** The privilege-escalation rule *)

Definition privilegeDetection (log : Log.t) : Detection :=
  mkDetection "Privilege Escalation Attempt Detected" (Log.sourceIp log) 75
    (Some [Log._id log]) "Privilege escalation" ["System"%string].

Definition privilegeScope (log : Log.t) : bool :=
  Category_eqb (Log.category log) system ||
  Category_eqb (Log.category log) security.

Definition privilegeFlagged (log : Log.t) : bool :=
  existsb (fun pattern => RegExp.test pattern (JS.toLowerCase (Log.message log)))
    privilegePatterns.

(** The commands the rule looks for as two words with white space between
    them, and the phrases it looks for as two words on one line. *)
Definition privilegeCommands : list (string * string) :=
  [("sudo", "su"); ("chmod", "777"); ("chown", "root")]%string.

Definition privilegePhrases : list (string * string) :=
  [("privilege", "escalat"); ("admin", "access"); ("root", "shell")]%string.

Lemma privilegeCommands_pattern (kw1 kw2 : string) :
  In (kw1, kw2) privilegeCommands ->
  In (RegExp.seq [RegExp.liti kw1; RegExp.plus RegExp.space; RegExp.liti kw2])
    privilegePatterns.
Proof.
  unfold privilegeCommands, privilegePatterns.
  intros [E|[E|[E|[]]]]; injection E as <- <-.
  - left. reflexivity.
  - do 1 right. left. reflexivity.
  - do 2 right. left. reflexivity.
Qed.

Lemma privilegePhrases_pattern (kw1 kw2 : string) :
  In (kw1, kw2) privilegePhrases ->
  In (RegExp.seq [RegExp.liti kw1; RegExp.Star RegExp.dot; RegExp.liti kw2])
    privilegePatterns.
Proof.
  unfold privilegePhrases, privilegePatterns.
  intros [E|[E|[E|[]]]]; injection E as <- <-.
  - do 3 right. left. reflexivity.
  - do 4 right. left. reflexivity.
  - do 5 right. left. reflexivity.
Qed.

(** X3: in a batch of logs with distinct ids, the privilege-escalation rule
    emits at most one detection for a log.  It emits one, of confidence 75
    and relating that log alone, for a system or security log whose message
    holds, in any letter case, one of the commands [sudo su], [chmod 777]
    and [chown root] with white space between the two words, or one of the
    phrases privilege ... escalat, admin ... access and root ... shell on
    one line; it emits none for a log of another category. *)
Theorem X3_detectPrivilegeEscalation (logs : list Log.t) (l : Log.t)
    (Hids : NoDup (map Log._id logs)) (Hin : In l logs) :
  let emitted := filter (relates (Log._id l)) (detectPrivilegeEscalation logs) in
  let message := JS.toLowerCase (Log.message l) in
  (forall kw1 kw2 pre ws post,
     Log.category l = system \/ Log.category l = security ->
     In (kw1, kw2) privilegeCommands ->
     message = pre ++ (kw1 ++ ws ++ kw2) ++ post ->
     ws <> EmptyString -> allOf whiteSpace ws = true ->
     emitted = [privilegeDetection l]) /\
  (forall kw1 kw2 pre gap post,
     Log.category l = system \/ Log.category l = security ->
     In (kw1, kw2) privilegePhrases ->
     message = pre ++ (kw1 ++ gap ++ kw2) ++ post ->
     allOf sameLine gap = true ->
     emitted = [privilegeDetection l]) /\
  (Log.category l <> system -> Log.category l <> security ->
   emitted = []) /\
  (length emitted <= 1)%nat.
Proof.
  intros emitted message.
  assert (E : emitted = if privilegeScope l && privilegeFlagged l
                        then [privilegeDetection l] else []).
  { subst emitted.
    exact (perLog_relates privilegeScope privilegeFlagged privilegeDetection
             logs l (fun x => eq_refl) Hids Hin). }
  rewrite E. split; [|split; [|split]].
  - intros kw1 kw2 pre ws post C K M N W.
    assert (F : privilegeFlagged l = true).
    { unfold privilegeFlagged. apply existsb_exists.
      eexists. split; [apply (privilegeCommands_pattern kw1 kw2 K)|].
      fold message. rewrite M. apply test_substring.
      now apply spaced_matches. }
    rewrite F. unfold privilegeScope. destruct C as [-> | ->]; reflexivity.
  - intros kw1 kw2 pre gap post C K M W.
    assert (F : privilegeFlagged l = true).
    { unfold privilegeFlagged. apply existsb_exists.
      eexists. split; [apply (privilegePhrases_pattern kw1 kw2 K)|].
      fold message. rewrite M. apply test_substring.
      now apply gapped_matches. }
    rewrite F. unfold privilegeScope. destruct C as [-> | ->]; reflexivity.
  - intros N1 N2. unfold privilegeScope.
    destruct (Log.category l); try reflexivity; contradiction.
  - destruct (privilegeScope l && privilegeFlagged l); simpl; lia.
Qed.

Definition privilegeLog : Log.t :=
  Log.mk 31 1000 "auditd" "Admin console: remote ACCESS granted" None system
    None false.

Lemma X3_detectPrivilegeEscalation_witness :
  filter (relates 31) (detectPrivilegeEscalation [privilegeLog]) =
  [mkDetection "Privilege Escalation Attempt Detected" None 75 (Some [31%Z])
     "Privilege escalation" ["System"%string]].
Proof.
  refine (proj1 (proj2 (X3_detectPrivilegeEscalation [privilegeLog]
                          privilegeLog _ _))
            "admin" "access" EmptyString " console: remote " " granted" _ _ _ _).
  - repeat constructor. simpl. tauto.
  - left. reflexivity.
  - left. reflexivity.
  - do 1 right. left. reflexivity.
  - reflexivity.
  - reflexivity.
Defined.

End PatternRules.

(* ================================================================== *)
(** ** The data-exfiltration rule *)

Section DataExfiltration.

Import IntrusionDetector.
Local Open Scope Z_scope.

(** The logs the rule adds up: those with a size and an address. *)
Definition isTransfer (l : Log.t) : bool :=
  match sizeOf l with
  | Some _ => JS.truthy (Log.sourceIp l)
  | None => false
  end.

Definition sizeOrZero (l : Log.t) : Z := Alert.orElse (sizeOf l) 0.

(** [Number.MAX_SAFE_INTEGER]. *)
Definition MAX_SAFE_INTEGER : Z := 2 ^ 53 - 1.

(** The sizes of a batch are safe when their magnitudes add up to at most
    [Number.MAX_SAFE_INTEGER].  Every size and every sum of sizes of the
    batch is then an integer that a double carries exactly: [parseInt]
    reads each size back from a numeral without exponent, and the sums the
    code computes are the sums of the integers. *)
Definition safeSizes (logs : list Log.t) : Prop :=
  fold_right (fun l acc => Z.abs (sizeOrZero l) + acc) 0 logs
  <= MAX_SAFE_INTEGER.

Lemma addTransfer_groupStep (m : JSMap.t Z) (l : Log.t) :
  addTransfer m l =
  groupStep Z Log.t isTransfer ipOf 0 (fun v e => v + sizeOrZero e) m l.
Proof.
  unfold addTransfer, groupStep, isTransfer, sizeOrZero.
  destruct (sizeOf l) as [size|]; [|reflexivity].
  destruct (JS.truthy (Log.sourceIp l)); reflexivity.
Qed.

Lemma dataTransferByIp_group (logs : list Log.t) :
  dataTransferByIp logs =
  group Z Log.t isTransfer ipOf 0 (fun v e => v + sizeOrZero e) logs.
Proof.
  unfold dataTransferByIp, group. generalize (@nil (string * Z)) as m.
  induction logs as [|l tl IH]; intros m; [reflexivity|].
  simpl. rewrite <- addTransfer_groupStep. apply IH.
Qed.

(** What an address transferred in a batch: the sizes of its logs. *)
Definition carries (ip : string) (l : Log.t) : bool :=
  option_eqb String.eqb (Log.sourceIp l) (Some ip).

Definition transferred (ip : string) (logs : list Log.t) : Z :=
  fold_right (fun l acc => sizeOrZero l + acc) 0 (filter (carries ip) logs).

Lemma fold_left_sizes (es : list Log.t) (acc : Z) :
  fold_left (fun v e => v + sizeOrZero e) es acc =
  acc + fold_right (fun l a => sizeOrZero l + a) 0 es.
Proof.
  revert acc. induction es as [|e tl IH]; simpl; intros acc; [lia|].
  rewrite IH. lia.
Qed.

Lemma transferred_selected (ip : string) (logs : list Log.t) :
  ip <> EmptyString ->
  fold_right (fun l a => sizeOrZero l + a) 0
    (selected Log.t isTransfer ipOf ip logs) =
  transferred ip logs.
Proof.
  intros N. unfold transferred, selected.
  induction logs as [|l tl IH]; [reflexivity|]. simpl.
  assert (K : String.eqb (ipOf l) ip = carries ip l).
  { unfold ipOf, carries.
    destruct (Log.sourceIp l) as [s|]; simpl; [reflexivity|].
    destruct ip; [contradiction | reflexivity]. }
  rewrite K. destruct (carries ip l) eqn:C.
  - assert (T : JS.truthy (Log.sourceIp l) = true).
    { unfold carries in C. apply option_eqb_string_eq in C. rewrite C.
      destruct ip; [contradiction | reflexivity]. }
    assert (I : isTransfer l =
                match sizeOf l with Some _ => true | None => false end).
    { unfold isTransfer. now rewrite T. }
    rewrite I. destruct (sizeOf l) as [size|] eqn:S; simpl.
    + now rewrite IH.
    + rewrite IH. unfold sizeOrZero. rewrite S. reflexivity.
  - rewrite andb_false_r. exact IH.
Qed.

Definition exfiltrationDetection (sourceIp : string) : Detection :=
  mkDetection ("Potential Data Exfiltration from " ++ sourceIp)
    (Some sourceIp) 70 None "Data exfiltration"
    ["Data Storage"; "Network"]%string.

Definition exfiltrationEntry (th : Thresholds) (entry : string * Z)
    : list Detection :=
  let (sourceIp, totalSize) := entry in
  if dataTransferThreshold th <? totalSize
  then [exfiltrationDetection sourceIp]
  else [].

Lemma exfiltration_fromIp (th : Thresholds) (ip : string) (m : JSMap.t Z) :
  NoDup (JSMap.keys m) ->
  filter (fromIp ip) (flat_map (exfiltrationEntry th) m) =
  match JSMap.get ip m with
  | Some totalSize => exfiltrationEntry th (ip, totalSize)
  | None => []
  end.
Proof.
  induction m as [|[k total] tl IH]; simpl; intros ND; [reflexivity|].
  inversion ND as [|? ? Hn ND']; subst.
  rewrite filter_app, (IH ND').
  destruct (String.eqb_spec k ip) as [->|N].
  - rewrite (not_In_keys_get _ ip tl Hn), app_nil_r.
    destruct (dataTransferThreshold th <? total); simpl; [|reflexivity].
    unfold fromIp. simpl. now rewrite String.eqb_refl.
  - assert (F : filter (fromIp ip)
                  (if dataTransferThreshold th <? total
                   then [exfiltrationDetection k] else []) = []).
    { destruct (dataTransferThreshold th <? total); simpl; [|reflexivity].
      unfold fromIp. simpl.
      destruct (String.eqb_spec k ip); [contradiction | reflexivity]. }
    now rewrite F.
Qed.

(** X1: for a non-negative transfer threshold and a batch whose sizes are
    safe integers, adding up to at most 2^53 - 1 in magnitude, the
    data-exfiltration rule emits exactly one detection for an address, of
    confidence 70 and with no related logs, when the sizes of the logs
    that carry the address add up to more than the threshold, and none
    when they do not. *)
Theorem X1_detectDataExfiltration (th : Thresholds)
    (logs : list Log.t) (ip : string)
    (Hip : ip <> EmptyString)
    (Hth : 0 <= dataTransferThreshold th)
    (Hsafe : safeSizes logs) :
  let emitted := filter (fromIp ip) (detectDataExfiltration th logs) in
  (dataTransferThreshold th < transferred ip logs ->
   emitted =
     [mkDetection ("Potential Data Exfiltration from " ++ ip) (Some ip) 70
        None "Data exfiltration" ["Data Storage"; "Network"]%string]) /\
  (transferred ip logs <= dataTransferThreshold th -> emitted = []).
Proof.
  intros emitted. subst emitted.
  change (detectDataExfiltration th logs)
    with (flat_map (exfiltrationEntry th) (dataTransferByIp logs)).
  rewrite exfiltration_fromIp
    by (rewrite dataTransferByIp_group; apply NoDup_keys_group).
  rewrite dataTransferByIp_group, get_group.
  pose proof (transferred_selected ip logs Hip) as T.
  destruct (selected Log.t isTransfer ipOf ip logs) as [|e es].
  - simpl in T. split; [intros H; exfalso; lia | reflexivity].
  - rewrite fold_left_sizes, T. unfold exfiltrationEntry.
    destruct (Z.ltb_spec (dataTransferThreshold th) (0 + transferred ip logs)).
    + split; [reflexivity | intros H'; exfalso; lia].
    + split; [intros H'; exfalso; lia | reflexivity].
Qed.

Definition upload (id size : Z) : Log.t :=
  Log.mk id (1000 + id) "nginx" "PUT /backup" (Some (Log.mkDetails (Some size)))
    network (Some "203.0.113.10") false.

Lemma X1_detectDataExfiltration_witness :
  filter (fromIp "203.0.113.10")
    (detectDataExfiltration alertThresholds
       [upload 1 60000000; upload 2 60000000]) =
  [mkDetection "Potential Data Exfiltration from 203.0.113.10"
     (Some "203.0.113.10") 70 None "Data exfiltration"
     ["Data Storage"; "Network"]%string].
Proof.
  refine (proj1 (X1_detectDataExfiltration alertThresholds
                   [upload 1 60000000; upload 2 60000000] "203.0.113.10"
                   _ _ _)
            _).
  - discriminate.
  - simpl. lia.
  - unfold safeSizes, MAX_SAFE_INTEGER. simpl. lia.
  - reflexivity.
Defined.

End DataExfiltration.

(* ================================================================== *)
(** ** A log is evaluated by one cycle, and the range of the risk score *)

Section CycleOnce.

Import IntrusionDetector.
Local Open Scope Z_scope.

(** What a cycle does to the stored logs: it marks its batch. *)
Lemma logs_runDetectionCycle (th : Thresholds) (rules : list Rule) (now : Z)
    (w : World.t) :
  World.logs (runDetectionCycle th rules now w) =
  map (fun l =>
         if existsb (Z.eqb (Log._id l)) (map Log._id (recentLogs th now w))
         then Log.setProcessed true l else l)
    (World.logs w).
Proof.
  rewrite runDetectionCycle_eq. cbv zeta. cbn [World.logs World.log].
  destruct (recentLogs th now w) as [|b batch] eqn:B.
  - cbn [map length Nat.ltb Nat.leb]. rewrite logs_runRules. simpl.
    symmetry. rewrite <- (map_id (World.logs w)) at 2. reflexivity.
  - cbn [length Nat.ltb Nat.leb]. unfold markProcessed.
    cbn [World.logs World.setLogs]. now rewrite logs_runRules.
Qed.

(** The rules of the constructor find nothing in an empty batch. *)
Lemma runRules_empty_batch (th : Thresholds) (now : Z) (w : World.t) :
  runRules th detectionRules now [] w = w.
Proof. reflexivity. Qed.

(** X4: after a detection cycle, a later cycle fetches only logs that
    arrived in between, whatever the rules are; with the rules of the
    constructor and no new log, the later cycle changes nothing but the
    journal, to which it adds its start and its end. *)
Theorem X4_runDetectionCycle_evaluates_once (th : Thresholds)
    (rules : list Rule) (now1 now2 : Z) (w : World.t) (arrived : list Log.t)
    (Hnow : now1 <= now2) :
  let w1 := runDetectionCycle th rules now1 w in
  (forall l,
     In l (recentLogs th now2 (World.setLogs (World.logs w1 ++ arrived) w1)) ->
     In l arrived) /\
  (rules = detectionRules ->
   runDetectionCycle th rules now2 w1 =
   World.log DetectionCycleCompleted (World.log DetectionCycleStarted w1)).
Proof.
  intros w1.
  assert (Old : forall l, In l (World.logs w1) ->
                  now2 - timeWindow th <= Log.timestamp l ->
                  Log.processed l = false -> False).
  { intros l Hl Ht Hp. subst w1. rewrite logs_runDetectionCycle in Hl.
    apply in_map_iff in Hl. destruct Hl as [x [E Hx]].
    destruct (existsb (Z.eqb (Log._id x))
                (map Log._id (recentLogs th now1 w))) eqn:M.
    - subst l. simpl in Hp. discriminate.
    - subst l.
      assert (R : In x (recentLogs th now1 w)).
      { apply recentLogs_spec. repeat split; [assumption | lia | assumption]. }
      assert (M' : existsb (Z.eqb (Log._id x))
                     (map Log._id (recentLogs th now1 w)) = true).
      { apply existsb_id. now apply in_map. }
      congruence. }
  split.
  - intros l Hl. apply recentLogs_spec in Hl.
    destruct Hl as (Hl & Ht & Hp). cbn [World.logs World.setLogs] in Hl.
    apply in_app_or in Hl. destruct Hl as [Hl|Hl]; [|exact Hl].
    exfalso. exact (Old l Hl Ht Hp).
  - intros ->.
    assert (B : recentLogs th now2 w1 = []).
    { destruct (recentLogs th now2 w1) as [|l tl] eqn:B; [reflexivity|].
      exfalso.
      assert (Hl : In l (recentLogs th now2 w1)) by (rewrite B; now left).
      apply recentLogs_spec in Hl. destruct Hl as (Hl & Ht & Hp).
      exact (Old l Hl Ht Hp). }
    rewrite runDetectionCycle_eq. cbv zeta. rewrite B.
    now rewrite runRules_empty_batch.
Qed.

Definition loginWorld : World.t :=
  World.mk
    [Log.mk 11 1000 "sshd" "Failed password for admin" None security
       (Some "203.0.113.10") false]
    [] [] 0.

Lemma X4_runDetectionCycle_evaluates_once_witness :
  runDetectionCycle alertThresholds detectionRules 2000
    (runDetectionCycle alertThresholds detectionRules 1500 loginWorld) =
  World.log DetectionCycleCompleted
    (World.log DetectionCycleStarted
       (runDetectionCycle alertThresholds detectionRules 1500 loginWorld)).
Proof.
  refine (proj2 (X4_runDetectionCycle_evaluates_once alertThresholds
                   detectionRules 1500 2000 loginWorld [] _) eq_refl).
  lia.
Defined.

End CycleOnce.

Section RiskScoreRange.

Local Open Scope R_scope.

Lemma severityWeight_range (s : Severity) :
  2 <= Alert.severityWeight s <= 10.
Proof. destruct s; simpl; lra. Qed.

(** X7: in every world the services reach, the risk score of a stored
    alert is at most 10; when its confidence lies between 0 and 100, the
    score is not negative, is the weight of the severity times the
    confidence over 100 (the cap of 10 does not cut), and is 10 only for a
    critical alert of confidence 100. *)
Theorem X7_riskScore_range (w : World.t) (a : Alert.t)
    (Hreach : Reachable w) (Hin : In a (World.alerts w)) :
  Alert.riskScore a <= 10 /\
  (0 <= Alert.confidence a <= 100 ->
   0 <= Alert.riskScore a /\
   Alert.riskScore a =
     Alert.severityWeight (Alert.severity a) * (Alert.confidence a / 100) /\
   (Alert.riskScore a = 10 ->
    Alert.severity a = critical /\ Alert.confidence a = 100)).
Proof.
  pose proof (Reachable_riskScoreOk w Hreach) as S.
  unfold Stored in S. rewrite Forall_forall in S.
  specialize (S a Hin). unfold riskScoreOk in S. rewrite S.
  pose proof (severityWeight_range (Alert.severity a)) as W.
  split; [apply Rmin_l|].
  intros [C0 C1].
  assert (P : 0 <= Alert.severityWeight (Alert.severity a) *
                   (Alert.confidence a / 100) <= 10) by nra.
  rewrite Rmin_right by lra. split; [lra|]. split; [reflexivity|].
  intros E. destruct (Alert.severity a); simpl in *;
    try (exfalso; lra). split; [reflexivity | lra].
Qed.

Lemma X7_riskScore_range_witness :
  let r :=
    IntrusionDetector.createAlert IntrusionDetector.alertThresholds 2000
      bruteForceData World.empty in
  Alert.riskScore (fst r) <= 10.
Proof.
  exact (proj1 (X7_riskScore_range
                  (snd (IntrusionDetector.createAlert
                          IntrusionDetector.alertThresholds 2000
                          bruteForceData World.empty))
                  (fst (IntrusionDetector.createAlert
                          IntrusionDetector.alertThresholds 2000
                          bruteForceData World.empty))
                  (reach_createAlert World.empty
                     IntrusionDetector.alertThresholds 2000 bruteForceData
                     reach_empty)
                  (or_introl eq_refl))).
Defined.

End RiskScoreRange.

(* ================================================================== *)
(** ** The switch of the detector and its rule table *)

Section DetectorSwitch.

Import DetectorService.

(** The calls that start and stop the detector. *)
Inductive Call : Type := Initialize | Start | Stop.

Definition call (st : DetectorService.t * Host.t) (c : Call)
    : DetectorService.t * Host.t :=
  match c with
  | Initialize => initialize (fst st) (snd st)
  | Start => startDetection (fst st) (snd st)
  | Stop => stopDetection (fst st) (snd st)
  end.

Definition run (calls : list Call) : DetectorService.t * Host.t :=
  fold_left call calls (constructor, Host.start).

Definition isInitialize (c : Call) : bool :=
  match c with Initialize => true | _ => false end.

(** The monitoring interval is alive exactly while the detector runs. *)
Definition Monitored (st : DetectorService.t * Host.t) : Prop :=
  Host.intervals (snd st) =
  if isRunning (fst st)
  then match detectionInterval (fst st) with
       | Some handle => [(handle, 30000%Z)]
       | None => []
       end
  else [].

Definition Switched (st : DetectorService.t * Host.t) : Prop :=
  Monitored st /\
  (isRunning (fst st) = true -> detectionInterval (fst st) <> None).

Lemma Switched_startDetection (d : DetectorService.t) (h : Host.t) :
  Switched (d, h) -> Switched (startDetection d h).
Proof.
  intros [M R]. unfold Switched, Monitored, startDetection in *.
  simpl in *. destruct (isRunning d) eqn:Run; simpl.
  - rewrite Run. now split.
  - rewrite M. simpl. split; [reflexivity | discriminate].
Qed.

Lemma Switched_stopDetection (d : DetectorService.t) (h : Host.t) :
  Switched (d, h) -> Switched (stopDetection d h).
Proof.
  intros [M R]. unfold Switched, Monitored, stopDetection in *.
  simpl in *. destruct (isRunning d) eqn:Run; simpl.
  - split; [|discriminate].
    destruct (detectionInterval d) as [handle|]; [|now elim R].
    simpl. rewrite M. simpl. now rewrite Nat.eqb_refl.
  - rewrite Run. split; [exact M | discriminate].
Qed.

Lemma initialize_eq (d : DetectorService.t) (h : Host.t) :
  initialize d h =
  (fst (startDetection d
          (Host.log "info" "Initializing Intrusion Detection service" h)),
   schedulePeriodicDetection
     (snd (startDetection d
             (Host.log "info" "Initializing Intrusion Detection service" h)))).
Proof.
  unfold initialize.
  now destruct (startDetection d
                  (Host.log "info" "Initializing Intrusion Detection service"
                     h)).
Qed.

Lemma Switched_call (st : DetectorService.t * Host.t) (c : Call) :
  Switched st -> Switched (call st c).
Proof.
  destruct st as [d h]. intros S. destruct c; simpl.
  - rewrite initialize_eq.
    assert (S1 : Switched
                   (startDetection d
                      (Host.log "info"
                         "Initializing Intrusion Detection service" h))).
    { apply Switched_startDetection. exact S. }
    destruct (startDetection d
                (Host.log "info" "Initializing Intrusion Detection service"
                   h)) as [d1 h1].
    exact S1.
  - now apply Switched_startDetection.
  - now apply Switched_stopDetection.
Qed.

Lemma cronJobs_call (st : DetectorService.t * Host.t) (c : Call) :
  length (Host.cronJobs (snd (call st c))) =
  (length (Host.cronJobs (snd st)) + if isInitialize c then 2 else 0)%nat.
Proof.
  destruct st as [d h]. destruct c; simpl.
  - rewrite initialize_eq. unfold startDetection, monitorForIntrusions.
    destruct (isRunning d); simpl; rewrite !length_app; simpl; lia.
  - unfold startDetection. destruct (isRunning d); simpl; lia.
  - unfold stopDetection. destruct (isRunning d); simpl; [|lia].
    destruct (detectionInterval d); simpl; lia.
Qed.

(** X6: after any sequence of [initialize], [startDetection] and
    [stopDetection] on a new detector, the monitoring interval of 30
    seconds is the only interval alive while the detector runs, and no
    interval is alive while it does not; every [initialize] leaves two
    cron jobs that no call removes. *)
Theorem X6_startDetection_stopDetection (calls : list Call) :
  let d := fst (run calls) in
  let h := snd (run calls) in
  (isRunning d = true ->
   exists handle,
     detectionInterval d = Some handle /\
     Host.intervals h = [(handle, 30000%Z)]) /\
  (isRunning d = false -> Host.intervals h = []) /\
  length (Host.cronJobs h) = (2 * length (filter isInitialize calls))%nat.
Proof.
  intros d h. subst d h. unfold run.
  assert (G : forall st,
            Switched st ->
            Switched (fold_left call calls st) /\
            length (Host.cronJobs (snd (fold_left call calls st))) =
            (length (Host.cronJobs (snd st)) +
             2 * length (filter isInitialize calls))%nat).
  { induction calls as [|c tl IH]; intros st S; simpl.
    - split; [exact S | lia].
    - destruct (IH (call st c) (Switched_call st c S)) as [S' L].
      split; [exact S'|]. rewrite L, cronJobs_call.
      destruct (isInitialize c); simpl; lia. }
  destruct (G (constructor, Host.start)) as [[M R] L].
  { split; [reflexivity | discriminate]. }
  unfold Monitored in M.
  split; [|split].
  - intros Run. rewrite Run in M. specialize (R Run).
    destruct (detectionInterval (fst (fold_left call calls
                                        (constructor, Host.start))))
      as [handle|]; [|contradiction].
    now exists handle.
  - intros Run. now rewrite Run in M.
  - rewrite L. reflexivity.
Qed.

End DetectorSwitch.

Section RuleTable.

Import DetectorService.
Import IntrusionDetector.

Definition named (ruleName : string) (r : Rule) : bool :=
  String.eqb (name r) ruleName.

Definition disable : Updates := mkUpdates None None None None (Some false).

Lemma assignFirst_length (ruleName : string) (u : Updates) (rules : list Rule) :
  length (assignFirst ruleName u rules) = length rules.
Proof.
  induction rules as [|r tl IH]; simpl; [reflexivity|].
  destruct (String.eqb (name r) ruleName); simpl; [reflexivity|].
  now rewrite IH.
Qed.

Lemma filter_all (A : Type) (p : A -> bool) (l : list A) :
  (forall x, In x l -> p x = true) -> filter p l = l.
Proof.
  induction l as [|x tl IH]; simpl; intros H; [reflexivity|].
  rewrite (H x (or_introl eq_refl)). f_equal. apply IH.
  intros y Hy. apply H. now right.
Qed.

Lemma runRules_cons (th : Thresholds) (r : Rule) (rules : list Rule)
    (now : Z) (logs : list Log.t) (w : World.t) :
  runRules th (r :: rules) now logs w =
  runRules th rules now logs
    (if enabled r then executeDetectionRule th now r logs w else w).
Proof. reflexivity. Qed.

Lemma runRules_disabled (th : Thresholds) (ruleName : string)
    (rules : list Rule) (now : Z) (logs : list Log.t) (w : World.t) :
  NoDup (map name rules) ->
  runRules th (assignFirst ruleName disable rules) now logs w =
  runRules th (filter (fun r => negb (named ruleName r)) rules) now logs w.
Proof.
  revert w. induction rules as [|r tl IH]; intros w ND; [reflexivity|].
  inversion ND as [|? ? Hn ND']; subst. cbn [assignFirst filter].
  unfold named at 1. destruct (String.eqb_spec (name r) ruleName) as [E|E].
  - cbn [negb]. rewrite runRules_cons. cbn [assign disable u_enabled enabled
      Alert.orElse].
    rewrite filter_all; [reflexivity|].
    intros x Hx. unfold named.
    destruct (String.eqb_spec (name x) ruleName) as [Ex|Ex]; [|reflexivity].
    exfalso. apply Hn. rewrite E, <- Ex. now apply in_map.
  - cbn [negb]. rewrite !runRules_cons. apply IH. exact ND'.
Qed.

(** X5: [updateDetectionRule] with a name that no rule has changes neither
    the detector nor the log; no update changes the number of rules that
    [getStatus] reports; and when the names of the rules are distinct, a
    cycle of the detector after a rule was switched off by name is the
    cycle of the table without that rule. *)
Theorem X5_updateDetectionRule (ruleName : string)
    (d : DetectorService.t) (h : Host.t) (now : Z) (w : World.t)
    (Hnames : NoDup (map name (DetectorService.detectionRules d))) :
  let unknown :=
    forall r, In r (DetectorService.detectionRules d) -> name r <> ruleName in
  let d' := fst (updateDetectionRule ruleName disable d h) in
  (unknown -> forall u, updateDetectionRule ruleName u d h = (d, h)) /\
  (forall u,
     rulesCount (getStatus (fst (updateDetectionRule ruleName u d h))) =
     rulesCount (getStatus d)) /\
  runDetectionCycle (DetectorService.alertThresholds d')
    (DetectorService.detectionRules d') now w =
  runDetectionCycle (DetectorService.alertThresholds d)
    (filter (fun r => negb (named ruleName r))
       (DetectorService.detectionRules d)) now w.
Proof.
  intros unknown d'. split; [|split].
  - intros U u. unfold updateDetectionRule.
    destruct (find (fun r => String.eqb (name r) ruleName)
                (DetectorService.detectionRules d)) as [r|] eqn:F;
      [|reflexivity].
    apply find_some in F. destruct F as [Hr E].
    apply String.eqb_eq in E. now elim (U r Hr).
  - intros u. unfold updateDetectionRule.
    destruct (find (fun r => String.eqb (name r) ruleName)
                (DetectorService.detectionRules d)); [|reflexivity].
    simpl. apply assignFirst_length.
  - subst d'. unfold updateDetectionRule.
    destruct (find (fun r => String.eqb (name r) ruleName)
                (DetectorService.detectionRules d)) as [r|] eqn:F.
    + cbn [fst setRules DetectorService.alertThresholds
           DetectorService.detectionRules].
      rewrite !runDetectionCycle_eq. cbv zeta.
      now rewrite runRules_disabled.
    + cbn [fst]. rewrite filter_all; [reflexivity|].
      intros x Hx. unfold named.
      destruct (String.eqb (name x) ruleName) eqn:E; [|reflexivity].
      exfalso. pose proof (find_none _ _ F x Hx) as Q. simpl in Q. congruence.
Qed.

Lemma X5_updateDetectionRule_witness :
  rulesCount
    (getStatus
       (fst (updateDetectionRule "Brute Force Detection" disable
               DetectorService.constructor Host.start))) = 5%nat.
Proof.
  refine (proj1 (proj2 (X5_updateDetectionRule "Brute Force Detection"
                          DetectorService.constructor Host.start 0
                          World.empty _)) disable).
  repeat constructor; simpl; intuition discriminate.
Defined.

End RuleTable.

(* ================================================================== *)
(** ** The notification queue *)

Section QueueFlush.

Import NotificationService.

Lemma processAll_fst (now : Z) (s : NotificationService.t)
    (q : list Notification) (w : World.t) :
  fst (processAll now s q w) =
  map (fun n => if isPending n then delivered now n else n) q.
Proof.
  revert w. induction q as [|n tl IH]; intros w; [reflexivity|].
  rewrite processAll_cons. cbn [map].
  destruct (isPending n); cbn [fst]; rewrite IH; reflexivity.
Qed.

Lemma filter_none (A : Type) (p : A -> bool) (l : list A) :
  (forall x, In x l -> p x = false) -> filter p l = [].
Proof.
  induction l as [|x tl IH]; simpl; intros H; [reflexivity|].
  rewrite (H x (or_introl eq_refl)). apply IH.
  intros y Hy. apply H. now right.
Qed.

Lemma processNotificationQueue_empties (now : Z) (s : NotificationService.t)
    (w : World.t) :
  notificationQueue (fst (processNotificationQueue now s w)) = [].
Proof.
  rewrite processNotificationQueue_fst.
  destruct (notificationQueue s) as [|n q]; [reflexivity|].
  apply filter_none. intros x Hx.
  pose proof (processAll_delivered now s (n :: q)
                (World.log (ProcessingNotifications (length (n :: q))) w)) as D.
  rewrite Forall_forall in D. now rewrite (D x Hx).
Qed.

(** X9: a call of [processNotificationQueue] that runs to its end marks
    every pending notification sent after one attempt and leaves the queue
    empty; so enqueueing a notification for a critical alert empties the
    queue, and enqueueing one for another alert appends it to the queue. *)
Theorem X9_processNotificationQueue_flushes (now : Z)
    (s : NotificationService.t)
    (w : World.t) :
  (forall q w0,
     fst (processAll now s q w0) =
     map (fun n =>
            if isPending n
            then mkNotification (alertId n) (alert n) (notif_channels n)
                   (priority n) (createdAt n) (attempts n + 1) (maxAttempts n)
                   sent (Some now)
            else n) q) /\
  notificationQueue (fst (processNotificationQueue now s w)) = [] /\
  (forall a chans,
     notificationQueue (fst (queueNotification now a chans s w)) =
     match Alert.severity a with
     | critical => []
     | _ =>
         (notificationQueue s ++
          [mkNotification (Alert._id a) a chans
             (calculatePriority (Alert.severity a)) now 0 3 pending None])%list
     end).
Proof.
  split; [|split].
  - intros q w0. apply processAll_fst.
  - apply processNotificationQueue_empties.
  - intros a chans. unfold queueNotification.
    destruct (Alert.severity a); try reflexivity.
    apply processNotificationQueue_empties.
Qed.

End QueueFlush.

(* ================================================================== *)
(** ** A channel that is switched off *)

Section DisabledChannel.

Import NotificationService.
Import NotificationAdmin.

(** What the handlers of a notification write to the journal. *)
Definition announced (s : NotificationService.t) (n : Notification)
    : list Entry :=
  flat_map
    (fun channelName =>
       match List.find (fun c => String.eqb (name c) channelName)
               (notificationChannels s) with
       | Some channel =>
           if enabled channel
           then [ChannelNotification channelName (Alert.title (alert n))]
           else []
       | None => []
       end)
    (notif_channels n).

Lemma handlers_journal (s : NotificationService.t) (n : Notification)
    (w : World.t) :
  World.journal (handlers s n w) = (World.journal w ++ announced s n)%list.
Proof.
  unfold handlers, announced. generalize (notif_channels n) as cs.
  intros cs. revert w.
  induction cs as [|c tl IH]; simpl; intros w; [now rewrite app_nil_r|].
  rewrite IH.
  destruct (List.find (fun c0 => String.eqb (name c0) c)
              (notificationChannels s)) as [ch|]; [|reflexivity].
  destruct (enabled ch); [|reflexivity].
  simpl. now rewrite <- app_assoc.
Qed.

Lemma processNotification_journal (now : Z) (s : NotificationService.t)
    (n : Notification) (w : World.t) :
  World.journal (snd (processNotification now s n w)) =
  (World.journal w ++ announced s n ++ [NotificationSent (alertId n)])%list.
Proof.
  rewrite processNotification_eq. cbn [snd World.journal World.log].
  unfold updateAlertNotificationStatus, World.findByIdAndUpdate.
  cbn [World.journal World.setAlerts].
  now rewrite handlers_journal, <- app_assoc.
Qed.

Lemma find_setEnabled (channelName : string) (b : bool)
    (channels : list Channel) (c : Channel) :
  List.find (fun x => String.eqb (name x) channelName)
    (setEnabled channelName b channels) = Some c ->
  enabled c = b.
Proof.
  induction channels as [|x tl IH]; simpl; [discriminate|].
  destruct (String.eqb (name x) channelName) eqn:E; simpl.
  - rewrite E. intros [= <-]. reflexivity.
  - rewrite E. exact IH.
Qed.

Lemma announced_disabled (channelName : string) (s : NotificationService.t)
    (h : Host.t) (n : Notification) (title : string) :
  ~ In (ChannelNotification channelName title)
      (announced (fst (updateNotificationChannel channelName false s h)) n).
Proof.
  unfold announced. intros H.
  apply (proj1 (in_flat_map _ _ _)) in H. destruct H as [c [_ H]].
  destruct (List.find (fun x => String.eqb (name x) c)
              (notificationChannels
                 (fst (updateNotificationChannel channelName false s h))))
    as [ch|] eqn:F; [|easy].
  destruct (enabled ch) eqn:En; [|easy].
  destruct H as [H|[]]. injection H as -> _.
  unfold updateNotificationChannel in F.
  destruct (List.find (fun x => String.eqb (name x) channelName)
              (notificationChannels s)) as [c0|] eqn:F0; cbn [fst] in F.
  - cbn [notificationChannels] in F.
    apply find_setEnabled in F. congruence.
  - congruence.
Qed.

(** X10: after [updateNotificationChannel(name, false)], processing a
    notification never runs the handler of that channel; the notification
    is still reported sent and recorded on its alert under all its channel
    names, so that no later scan of the tier escalates the alert. *)
Theorem X10_disabled_channel (channelName : string)
    (s : NotificationService.t) (h : Host.t) (now : Z) (n : Notification)
    (w : World.t) (a : Alert.t)
    (Hids : NoDup (ids (World.alerts w)))
    (Ha : In a (World.alerts w))
    (Hn : alertId n = Alert._id a) :
  let s' := fst (updateNotificationChannel channelName false s h) in
  let w' := snd (processNotification now s' n w) in
  (exists written,
     World.journal w' =
       (World.journal w ++ written ++ [NotificationSent (alertId n)])%list /\
     forall title, ~ In (ChannelNotification channelName title) written) /\
  In (Alert.setNotifications
        (Alert.notifications a ++
         [Alert.mkNotification (JS.join "," (notif_channels n))
            "security-team" now "sent"]) a)
     (World.alerts w') /\
  (forall rule,
     In rule escalationRules -> notif_channels n = channels rule ->
     exists a',
       In a' (World.alerts w') /\ Alert._id a' = Alert._id a /\
       forall now', toEscalate now' rule a' = false).
Proof.
  intros s' w'. split; [|split].
  - exists (announced s' n). split.
    + subst w'. apply processNotification_journal.
    + intros title. apply announced_disabled.
  - subst w'. rewrite processNotification_alerts, Hn.
    now apply (updateById_In (pushRecord (record now n)) a).
  - intros rule Hr Hc.
    destruct (delivery_notifies now s' n w a rule Hids Ha Hn Hc Hr)
      as (a' & Ha' & Hid & _ & Hnot).
    exists a'. split; [exact Ha' | split; [exact Hid|]].
    intros now'. unfold toEscalate. rewrite Hnot. apply andb_false_r.
Qed.

End DisabledChannel.

Section DisabledChannelExample.

Import NotificationService.
Import NotificationAdmin.

(** The escalation of the stale critical alert with the e-mail channel
    switched off. *)
Definition staleEscalation : Notification :=
  mkNotification 1 staleAlert ["email"; "webhook"; "dashboard"] 1 400000 0 3
    pending None.

Lemma X10_disabled_channel_witness :
  In (Alert.setNotifications
        (Alert.notifications staleAlert ++
         [Alert.mkNotification "email,webhook,dashboard" "security-team"
            400000 "sent"]) staleAlert)
     (World.alerts
        (snd (processNotification 400000
                (fst (updateNotificationChannel "email" false initial
                        Host.start))
                staleEscalation staleWorld))).
Proof.
  refine (proj1 (proj2 (X10_disabled_channel "email"
                          initial Host.start 400000 staleEscalation staleWorld
                          staleAlert _ _ _))).
  - repeat constructor. simpl. tauto.
  - left. reflexivity.
  - reflexivity.
Defined.

End DisabledChannelExample.

(* ================================================================== *)
(** ** The cleanup of old notification records *)

Section Cleanup.

Import NotificationService.
Local Open Scope Z_scope.

(** What the cleanup leaves of an alert: the records sent at the cutoff
    date or later. *)
Definition cleaned (cutoffDate : Z) (a : Alert.t) : Alert.t :=
  Alert.setNotifications
    (filter (fun n => negb (Alert.sentAt n <? cutoffDate))
       (Alert.notifications a)) a.

Lemma cleanupOldNotifications_alerts (cutoffDate : Z) (w : World.t) :
  World.alerts (cleanupOldNotifications cutoffDate w) =
  map (cleaned cutoffDate) (World.alerts w).
Proof. reflexivity. Qed.

Lemma cleanupOldNotifications_ids (cutoffDate : Z) (w : World.t) :
  ids (World.alerts (cleanupOldNotifications cutoffDate w)) =
  ids (World.alerts w).
Proof.
  rewrite cleanupOldNotifications_alerts. unfold ids. rewrite map_map.
  reflexivity.
Qed.

(** X11: [cleanupOldNotifications] keeps on every alert the notification
    records sent at the cutoff date, thirty days before the call, or
    later.  It never makes an alert count as notified; an alert with a
    record that is kept and names a channel of its tier stays notified; and
    an active alert whose records are all older, that is due on its tier
    and has no notification pending in the queue, is enqueued again, once,
    by the next escalation scan. *)
Theorem X11_cleanupOldNotifications_reopens_escalation (cutoffDate now' : Z)
    (s : NotificationService.t)
    (w : World.t) (a : Alert.t) (rule : EscalationRule)
    (Hids : NoDup (ids (World.alerts w)))
    (Ha : In a (World.alerts w))
    (Hrule : In rule escalationRules)
    (Hsev : Alert.severity a = severity rule) :
  let w' := cleanupOldNotifications cutoffDate w in
  let a' :=
    Alert.setNotifications
      (filter (fun n => negb (Alert.sentAt n <? cutoffDate))
         (Alert.notifications a)) a in
  In a' (World.alerts w') /\
  (notNotifiedVia (channels rule) a = true ->
   notNotifiedVia (channels rule) a' = true) /\
  ((exists n, In n (Alert.notifications a) /\ cutoffDate <= Alert.sentAt n /\
              RegExp.test (channelsPattern (channels rule)) (Alert.method n)
                = true) ->
   notNotifiedVia (channels rule) a' = false) /\
  ((forall n, In n (Alert.notifications a) -> Alert.sentAt n < cutoffDate) ->
   Alert.status a = active ->
   Alert.createdAt a <= now' - escalateAfter rule ->
   NotPendingFor (Alert._id a) (notificationQueue s) ->
   enqueued (Alert._id a)
     (World.journal (snd (checkEscalations now' escalationRules s w'))) =
   (enqueued (Alert._id a) (World.journal w') + 1)%nat).
Proof.
  intros w' a'.
  assert (Ha' : In a' (World.alerts w')).
  { subst w'. rewrite cleanupOldNotifications_alerts.
    change a' with (cleaned cutoffDate a). now apply in_map. }
  split; [exact Ha'|]. split; [|split].
  - unfold notNotifiedVia. rewrite !negb_true_iff.
    intros H. apply not_true_is_false. intros E.
    apply existsb_exists in E. destruct E as [n [Hn T]].
    subst a'. cbn [Alert.notifications Alert.setNotifications] in Hn.
    apply filter_In in Hn. destruct Hn as [Hn _].
    assert (E : existsb
                  (fun n => RegExp.test (channelsPattern (channels rule))
                              (Alert.method n))
                  (Alert.notifications a) = true).
    { apply existsb_exists. now exists n. }
    congruence.
  - intros [n (Hn & Hs & T)]. unfold notNotifiedVia.
    apply negb_false_iff. apply existsb_exists. exists n.
    split; [|exact T]. subst a'.
    cbn [Alert.notifications Alert.setNotifications].
    apply filter_In. split; [exact Hn|].
    apply negb_true_iff. apply Z.ltb_ge. exact Hs.
  - intros Hold Hact Hage Hq.
    assert (N : Alert.notifications a' = []).
    { subst a'. cbn [Alert.notifications Alert.setNotifications].
      apply filter_none. intros n Hn. apply negb_false_iff.
      apply Z.ltb_lt. now apply Hold. }
    assert (T : toEscalate now' rule a' = true).
    { unfold toEscalate, notNotifiedVia. rewrite N. simpl.
      rewrite andb_true_r.
      change (Alert.severity a') with (Alert.severity a).
      change (Alert.status a') with (Alert.status a).
      change (Alert.createdAt a') with (Alert.createdAt a).
      rewrite Hsev, Hact.
      assert (S : Severity_eqb (severity rule) (severity rule) = true)
        by now apply Severity_eqb_eq.
      rewrite S. simpl. apply Z.leb_le. exact Hage. }
    destruct (escalationRules_split rule Hrule)
      as (before & after & E & Fb & Fa).
    rewrite <- Hsev in Fb, Fa.
    assert (U : Untouched a' (s, World.log CheckingEscalations w')).
    { split; [exact Ha'|]. split; [|exact Hq].
      cbn [snd World.log World.alerts]. subst w'.
      now rewrite cleanupOldNotifications_ids. }
    rewrite checkEscalations_scan, E.
    change (Alert._id a) with (Alert._id a').
    rewrite (scan_once a' now' before after rule
               (s, World.log CheckingEscalations w') Fb Fa T U).
    cbn [snd]. rewrite enqueued_log. cbn [queuedFor]. lia.
Qed.

End Cleanup.

Section CleanupExample.

Import NotificationService.

(** A critical alert escalated forty days ago and still active. *)
Definition forgottenAlert : Alert.t :=
  Alert.mk 1 "SQL Injection Attempt Detected" critical "sql_injection" active
    (Some "198.51.100.7") ["Database"; "Web Application"]%string
    (Some "SQL Injection") 85 (17 / 2) [31]%Z None "signature" []
    [Alert.mkNotification "email,webhook,dashboard" "security-team" 400000
       "sent"]
    None None None 0.

Definition forgottenWorld : World.t := World.mk [] [forgottenAlert] [] 2.

Lemma X11_cleanupOldNotifications_reopens_escalation_witness :
  enqueued 1
    (World.journal
       (snd (checkEscalations 3456400000 escalationRules initial
               (cleanupOldNotifications 864000000 forgottenWorld)))) =
  (enqueued 1
     (World.journal (cleanupOldNotifications 864000000 forgottenWorld)) + 1)%nat.
Proof.
  refine (proj2 (proj2 (proj2
            (X11_cleanupOldNotifications_reopens_escalation
               864000000 3456400000 initial forgottenWorld forgottenAlert
               criticalTier _ _ _ _))) _ _ _ _).
  - repeat constructor. simpl. tauto.
  - left. reflexivity.
  - left. reflexivity.
  - reflexivity.
  - intros n [<-|[]]. simpl. lia.
  - reflexivity.
  - simpl. lia.
  - intros n [].
Defined.

End CleanupExample.

(* ================================================================== *)
(** ** The daily summary *)

Section DailySummary.

Import NotificationAdmin.
Local Open Scope Z_scope.

Definition createdWithin (from to : Z) (a : Alert.t) : bool :=
  (from <=? Alert.createdAt a) && (Alert.createdAt a <? to).

Definition hasSeverity (sev : Severity) (a : Alert.t) : bool :=
  Severity_eqb (Alert.severity a) sev.

Lemma count_by_severity (l : list Alert.t) :
  (count (hasSeverity critical) l + count (hasSeverity high) l +
   count (hasSeverity medium) l + count (hasSeverity low) l)%nat = length l.
Proof.
  unfold count, hasSeverity. induction l as [|a tl IH]; [reflexivity|].
  simpl. destruct (Alert.severity a); simpl; lia.
Qed.

Lemma count_le (p : Alert.t -> bool) (l : list Alert.t) :
  (count p l <= length l)%nat.
Proof. unfold count. apply List.filter_length_le. Qed.

Lemma sendDailySummary_eq (yesterday today : Z) (w : World.t) :
  let matched := filter (createdWithin yesterday today) (World.alerts w) in
  sendDailySummary yesterday today w =
  mkSummary (length matched)
    (count (hasSeverity critical) matched) (count (hasSeverity high) matched)
    (count (hasSeverity medium) matched) (count (hasSeverity low) matched)
    (count (fun a => Status_eqb (Alert.status a) resolved) matched).
Proof.
  intros matched. unfold sendDailySummary, aggregate.
  fold (createdWithin yesterday today). fold matched.
  destruct matched; reflexivity.
Qed.

(** X12: the daily summary counts the alerts created from the first
    midnight on and before the second; the counts of the four severities
    add up to the total, the resolved alerts are at most the total, and the
    summary is all zero when no alert was created in between. *)
Theorem X12_sendDailySummary_counts (yesterday today : Z) (w : World.t) :
  let summary := sendDailySummary yesterday today w in
  total summary =
    length (filter (fun a => (yesterday <=? Alert.createdAt a) &&
                             (Alert.createdAt a <? today))
              (World.alerts w)) /\
  (critical_count summary + high_count summary + medium_count summary +
   low_count summary)%nat = total summary /\
  (resolved_count summary <= total summary)%nat /\
  ((forall a, In a (World.alerts w) ->
              Alert.createdAt a < yesterday \/ today <= Alert.createdAt a) ->
   summary = mkSummary 0 0 0 0 0 0).
Proof.
  intros summary. subst summary. rewrite sendDailySummary_eq. cbv zeta.
  cbn [total critical_count high_count medium_count low_count resolved_count].
  split; [reflexivity|]. split; [apply count_by_severity|].
  split; [apply count_le|].
  intros H.
  rewrite (filter_none _ (createdWithin yesterday today) (World.alerts w)).
  - reflexivity.
  - intros a Ha. unfold createdWithin.
    destruct (H a Ha) as [L|L].
    + apply andb_false_iff. left. apply Z.leb_gt. exact L.
    + apply andb_false_iff. right. apply Z.ltb_ge. exact L.
Qed.

End DailySummary.

(* ================================================================== *)
(** ** The stages of an attack chain *)

Section AttackStages.

Import CorrelationEngine.
Import CorrelationRules.

Definition attackStages : list string :=
  ["reconnaissance"; "initial_access"; "privilege_escalation";
   "lateral_movement"; "data_exfiltration"].

(** The events [identifyAttackStages] looks at. *)
Definition eventsOf (events : Events) : list Event :=
  (map LogEvent (logs events) ++ map AlertEvent (alerts events))%list.

Lemma insertByTime_In (e x : Event) (sorted : list Event) :
  In x (insertByTime e sorted) <-> x = e \/ In x sorted.
Proof.
  induction sorted as [|y tl IH]; simpl.
  - split; intros [H|H]; auto; easy.
  - destruct (timeOf e <? timeOf y)%Z; simpl.
    + split; intros [H|H]; auto.
    + rewrite IH. split; intros H; tauto.
Qed.

Lemma sortByTime_In (x : Event) (events : list Event) :
  In x (sortByTime events) <-> In x events.
Proof.
  unfold sortByTime.
  assert (G : forall acc,
            In x (fold_left (fun sorted e => insertByTime e sorted)
                    events acc) <-> In x events \/ In x acc).
  { induction events as [|e tl IH]; simpl; intros acc; [tauto|].
    rewrite IH, insertByTime_In. split; intros H; intuition auto. }
  rewrite G. simpl. tauto.
Qed.

Lemma stageOf_attackStages (message stage : string) :
  stageOf message = Some stage -> In stage attackStages.
Proof.
  unfold stageOf, attackStages.
  repeat match goal with
         | |- context [if ?c then _ else _] => destruct c
         end; intros [= <-]; simpl; auto 6.
Qed.

Lemma existsb_eqb_In (x : string) (l : list string) :
  existsb (String.eqb x) l = true <-> In x l.
Proof.
  rewrite existsb_exists. split.
  - intros [y [Hy E]]. apply String.eqb_eq in E. now subst.
  - intros H. exists x. split; [exact H | apply String.eqb_refl].
Qed.

(** The stages collected from a list of events, on top of [stages]. *)
Lemma noteStages_spec (events : list Event) (stages : list string) :
  NoDup stages ->
  NoDup (fold_left noteStage events stages) /\
  forall s,
    In s (fold_left noteStage events stages) <->
    In s stages \/ exists e, In e events /\ stageOf (messageOf e) = Some s.
Proof.
  revert stages. induction events as [|e tl IH]; intros stages ND.
  - simpl. split; [exact ND|]. intros s. split; [now left|].
    intros [H|[e [[] _]]]. exact H.
  - cbn [fold_left].
    assert (ND1 : NoDup (noteStage stages e) /\
                  forall s, In s (noteStage stages e) <->
                            In s stages \/ stageOf (messageOf e) = Some s).
    { unfold noteStage. destruct (stageOf (messageOf e)) as [st|].
      - destruct (existsb (String.eqb st) stages) eqn:X.
        + split; [exact ND|]. intros s. split; [now left|].
          intros [H|[= <-]]; [exact H | now apply existsb_eqb_In].
        + split.
          * apply NoDup_app; [exact ND | repeat constructor; easy|].
            intros x Hx [Q|[]]. subst x.
            apply existsb_eqb_In in Hx. congruence.
          * intros s. rewrite in_app_iff. simpl. split.
            -- intros [H|[<-|[]]]; [now left | now right].
            -- intros [H|[= <-]]; [now left | right; now left].
      - split; [exact ND|]. intros s. split; [now left|].
        intros [H|H]; [exact H | discriminate]. }
    destruct ND1 as [ND1 M1].
    destruct (IH (noteStage stages e) ND1) as [ND2 M2].
    split; [exact ND2|]. intros s. rewrite M2, M1. split.
    + intros [[H|H]|[x [Hx S]]].
      * now left.
      * right. exists e. split; [now left | exact H].
      * right. exists x. split; [now right | exact S].
    + intros [H|[x [[<-|Hx] S]]].
      * left. now left.
      * left. now right.
      * right. now exists x.
Qed.

Lemma identifyAttackStages_collects (events : Events) :
  NoDup (identifyAttackStages events) /\
  forall stage,
    In stage (identifyAttackStages events) <->
    exists e, In e (eventsOf events) /\
              stageOf (messageOf e) = Some stage.
Proof.
  unfold identifyAttackStages. cbv zeta. fold (eventsOf events).
  destruct (noteStages_spec (sortByTime (eventsOf events)) [])
    as [ND M]; [constructor|].
  split; [exact ND|].
  intros s. rewrite M. split.
  - intros [[]|[e [He S]]]. exists e. split; [|exact S].
    now apply sortByTime_In.
  - intros [e [He S]]. right. exists e. split; [|exact S].
    now apply sortByTime_In.
Qed.

Lemma identifyAttackStages_known (events : Events) :
  incl (identifyAttackStages events) attackStages.
Proof.
  intros s Hs. apply (proj2 (identifyAttackStages_collects events)) in Hs.
  destruct Hs as [e [_ S]].
  now apply (stageOf_attackStages (messageOf e)).
Qed.

Lemma identifyAttackStages_length (events : Events) :
  (length (identifyAttackStages events) <= 5)%nat.
Proof.
  exact (NoDup_incl_length (proj1 (identifyAttackStages_collects events))
           (identifyAttackStages_known events)).
Qed.

(** X13: [identifyAttackStages] returns each stage at most once; a stage is
    returned exactly when the message of some log, or the title of some
    alert, of the events is classified as that stage; so the result is
    among the five stages and has at most five elements. *)
Theorem X13_identifyAttackStages (events : Events) :
  let stages := identifyAttackStages events in
  NoDup stages /\
  (forall stage,
     In stage stages <->
     exists e, In e (eventsOf events) /\
               stageOf (messageOf e) = Some stage) /\
  incl stages attackStages /\
  (length stages <= 5)%nat.
Proof.
  intros stages. subst stages.
  destruct (identifyAttackStages_collects events) as [ND M].
  split; [exact ND|]. split; [exact M|].
  assert (I : incl (identifyAttackStages events) attackStages).
  { intros s Hs. apply M in Hs. destruct Hs as [e [_ S]].
    now apply (stageOf_attackStages (messageOf e)). }
  split; [exact I|].
  apply (NoDup_incl_length ND I).
Qed.

End AttackStages.

(* ================================================================== *)
(** ** The attack-chain rule *)

Section AttackChain.

Import CorrelationEngine.
Import CorrelationRules.
Local Open Scope R_scope.

Definition hasIp (e : Event) : bool :=
  match e with
  | LogEvent log => JS.truthy (Log.sourceIp log)
  | AlertEvent alert => JS.truthy (Alert.sourceIp alert)
  end.

Definition ipOfEvent (e : Event) : string :=
  match e with
  | LogEvent log => IntrusionDetector.ipOf log
  | AlertEvent alert => alertIp alert
  end.

Definition addEvent (events : Events) (e : Event) : Events :=
  match e with
  | LogEvent log => mkEvents (logs events ++ [log]) (alerts events)
  | AlertEvent alert => mkEvents (logs events) (alerts events ++ [alert])
  end.

Lemma eventsByIp_group (ls : list Log.t) (als : list Alert.t) :
  eventsByIp ls als =
  group Events Event hasIp ipOfEvent (mkEvents [] []) addEvent
    (map LogEvent ls ++ map AlertEvent als).
Proof.
  unfold eventsByIp, group. rewrite fold_left_app.
  assert (L : forall m,
            fold_left pushLog ls m =
            fold_left (groupStep Events Event hasIp ipOfEvent (mkEvents [] [])
                         addEvent) (map LogEvent ls) m).
  { induction ls as [|l tl IH]; intros m; [reflexivity|]. simpl.
    rewrite IH. reflexivity. }
  rewrite L. generalize (fold_left
    (groupStep Events Event hasIp ipOfEvent (mkEvents [] []) addEvent)
    (map LogEvent ls) []) as m.
  induction als as [|a tl IH]; intros m; [reflexivity|]. simpl.
  rewrite IH. reflexivity.
Qed.

(** Every key of a grouping is the key of a selected element. *)
Lemma group_key (V E : Type) (sel : E -> bool) (key : E -> string) (init : V)
    (add : V -> E -> V) (l : list E) (k : string) (v : V) :
  In (k, v) (group V E sel key init add l) ->
  exists e, In e l /\ sel e = true /\ key e = k.
Proof.
  intros H. apply In_get in H; [|apply NoDup_keys_group].
  rewrite get_group in H.
  destruct (selected E sel key k l) as [|e es] eqn:S; [discriminate|].
  assert (He : In e (selected E sel key k l)) by (rewrite S; now left).
  unfold selected in He. apply filter_In in He. destruct He as [He Q].
  apply andb_true_iff in Q. destruct Q as [Q1 Q2].
  apply String.eqb_eq in Q2. now exists e.
Qed.

Lemma eventsByIp_key (ls : list Log.t) (als : list Alert.t) (ip : string)
    (events : Events) :
  In (ip, events) (eventsByIp ls als) -> ip <> EmptyString.
Proof.
  rewrite eventsByIp_group. intros H. apply group_key in H.
  destruct H as [e (_ & S & <-)].
  destruct e as [l|a]; simpl in *.
  - unfold IntrusionDetector.ipOf.
    destruct (Log.sourceIp l) as [[|c s]|]; simpl in *; discriminate.
  - unfold alertIp.
    destruct (Alert.sourceIp a) as [[|c s]|]; simpl in *; discriminate.
Qed.

(** The confidence of a chain of three, four or five stages. *)
Lemma chain_confidence (n : nat) :
  (3 <= n <= 5)%nat ->
  JS.Math_min 95 (60 + INR n * 10) = 90 /\ n = 3%nat \/
  JS.Math_min 95 (60 + INR n * 10) = 95 /\ (4 <= n)%nat.
Proof.
  intros [L U].
  assert (C : n = 3%nat \/ n = 4%nat \/ n = 5%nat) by lia.
  unfold JS.Math_min.
  destruct C as [E|[E|E]]; subst n; simpl.
  - left. split; [|reflexivity]. rewrite Rmin_right; lra.
  - right. split; [|lia]. rewrite Rmin_left; lra.
  - right. split; [|lia]. rewrite Rmin_left; lra.
Qed.

(** The severity of a candidate that is at least 80% certain. *)
Lemma severity_confident (cd : CorrelationData) (c : R) :
  confidence cd = Some c -> 80 <= c ->
  calculateCorrelationSeverity cd =
  if (3 <=? length (Alert.orElse (affectedAssets cd) []))%nat
  then critical else high.
Proof.
  intros C L. unfold calculateCorrelationSeverity. rewrite C. simpl.
  destruct (Req_dec_T c 0) as [E|E]; [lra|].
  assert (G80 : JS.geb c 80 = true) by (apply geb_true; lra).
  assert (G70 : JS.geb c 70 = true) by (apply geb_true; lra).
  rewrite G80, G70. simpl.
  now destruct (3 <=? length (Alert.orElse (affectedAssets cd) []))%nat.
Qed.

Definition chainEntry (now : Z) (entry : string * Events)
    : list CorrelationData :=
  let (sourceIp, events) := entry in
  if (3 <=? length (identifyAttackStages events))%nat
  then [attackChain now sourceIp events (identifyAttackStages events)]
  else [].

Lemma chain_sourceIps (now : Z) (m : JSMap.t Events) :
  NoDup (JSMap.keys m) ->
  NoDup (map sourceIp (flat_map (chainEntry now) m)).
Proof.
  induction m as [|[k ev] tl IH]; intros ND; [constructor|].
  cbn [JSMap.keys map fst] in ND. fold (JSMap.keys tl) in ND.
  inversion ND as [|? ? Hn ND']; subst.
  cbn [flat_map chainEntry]. rewrite map_app.
  apply NoDup_app; [| now apply IH |].
  - destruct (3 <=? length (identifyAttackStages ev))%nat;
      [constructor; [intros [] | constructor] | constructor].
  - intros x Hx Hy.
    destruct (3 <=? length (identifyAttackStages ev))%nat; [|easy].
    destruct Hx as [<-|[]]. cbn [sourceIp attackChain] in Hy.
    apply in_map_iff in Hy. destruct Hy as [c [Ec Hc]].
    apply (proj1 (in_flat_map _ _ _)) in Hc. destruct Hc as [[k' ev'] [Hk Hc]].
    cbn [chainEntry] in Hc.
    destruct (3 <=? length (identifyAttackStages ev'))%nat; [|easy].
    destruct Hc as [<-|[]]. cbn [sourceIp attackChain] in Ec.
    injection Ec as ->.
    apply Hn. change k with (fst (k, ev')). unfold JSMap.keys.
    now apply in_map.
Qed.

(** X14: the attack-chain rule yields at most one candidate for an
    address; every candidate names a non-empty address, has confidence 90
    or 95, and is rated critical when it names three assets or more and
    high otherwise, never medium or low. *)
Theorem X14_detectAttackChain (now : Z) (ls : list Log.t)
    (als : list Alert.t) (timeWindow : Z) :
  let candidates := detectAttackChain now ls als timeWindow in
  NoDup (map sourceIp candidates) /\
  forall cd,
    In cd candidates ->
    (exists ip, sourceIp cd = Some ip /\ ip <> EmptyString) /\
    (confidence cd = Some 90 \/ confidence cd = Some 95) /\
    calculateCorrelationSeverity cd =
      (if (3 <=? length (Alert.orElse (affectedAssets cd) []))%nat
       then critical else high).
Proof.
  intros candidates. subst candidates.
  change (detectAttackChain now ls als timeWindow)
    with (flat_map (chainEntry now) (eventsByIp ls als)).
  split.
  - apply chain_sourceIps. rewrite eventsByIp_group. apply NoDup_keys_group.
  - intros cd H. apply (proj1 (in_flat_map _ _ _)) in H.
    destruct H as [[ip ev] [He Hc]]. unfold chainEntry in Hc.
    destruct (Nat.leb_spec 3 (length (identifyAttackStages ev))) as [L|L];
      [|easy].
    destruct Hc as [<-|[]].
    pose proof (identifyAttackStages_length ev) as U.
    destruct (chain_confidence (length (identifyAttackStages ev)))
      as [[C _]|[C _]]; [lia | |].
    + split; [exists ip; split; [reflexivity|];
              now apply (eventsByIp_key ls als ip ev)|].
      split; [left; simpl; now rewrite C|].
      apply (severity_confident _ 90); [simpl; now rewrite C | lra].
    + split; [exists ip; split; [reflexivity|];
              now apply (eventsByIp_key ls als ip ev)|].
      split; [right; simpl; now rewrite C|].
      apply (severity_confident _ 95); [simpl; now rewrite C | lra].
Qed.

End AttackChain.

Section AttackChainExample.

Import CorrelationEngine CorrelationRules.

(** A scan, a login and an export from one address: three stages, in the
    order of the events. *)
Definition intrusion : list Log.t :=
  [ Log.mk 31 1000 "firewall" "Port scan from 192.0.2.44" None network
      (Some "192.0.2.44") false;
    Log.mk 32 2000 "sshd" "Accepted login for root" None security
      (Some "192.0.2.44") false;
    Log.mk 33 3000 "db01" "Large data export started" None database
      (Some "192.0.2.44") false ].

Example intrusion_stages :
  identifyAttackStages (mkEvents intrusion []) =
  ["reconnaissance"; "initial_access"; "data_exfiltration"]%string.
Proof. reflexivity. Qed.

Example intrusion_detected (now : Z) :
  detectAttackChain now intrusion [] 1800000 =
  [attackChain now "192.0.2.44" (mkEvents intrusion [])
     ["reconnaissance"; "initial_access"; "data_exfiltration"]%string].
Proof. reflexivity. Qed.

End AttackChainExample.

(* ================================================================== *)
(** ** The coordinated-attack rule *)

Section SetFacts.

Lemma JSSet_add_In (s : JSSet.t) (x y : string) :
  In y (JSSet.add s x) <-> In y s \/ y = x.
Proof.
  unfold JSSet.add, JSSet.has. destruct (existsb (String.eqb x) s) eqn:E.
  - split; [now left|]. intros [H| ->]; [exact H|].
    now apply existsb_eqb_In.
  - rewrite in_app_iff. simpl. split.
    + intros [H|[<-|[]]]; [now left | now right].
    + intros [H| ->]; [now left | right; now left].
Qed.

Lemma JSSet_add_NoDup (s : JSSet.t) (x : string) :
  NoDup s -> NoDup (JSSet.add s x).
Proof.
  intros ND. unfold JSSet.add, JSSet.has.
  destruct (existsb (String.eqb x) s) eqn:E; [exact ND|].
  apply NoDup_app; [exact ND | repeat constructor; easy|].
  intros y Hy [Q|[]]. subst y. apply existsb_eqb_In in Hy. congruence.
Qed.

Lemma JSSet_addAll (l : list string) (s : JSSet.t) :
  NoDup s ->
  NoDup (fold_left JSSet.add l s) /\
  forall y, In y (fold_left JSSet.add l s) <-> In y s \/ In y l.
Proof.
  revert s. induction l as [|x tl IH]; intros s ND; simpl.
  - split; [exact ND|]. intros y. tauto.
  - destruct (IH (JSSet.add s x) (JSSet_add_NoDup s x ND)) as [ND' M].
    split; [exact ND'|]. intros y. rewrite M, JSSet_add_In.
    split; intros H; intuition auto.
Qed.

Lemma JSSet_from_NoDup (l : list string) : NoDup (JSSet.from l).
Proof. apply JSSet_addAll. constructor. Qed.

Lemma JSSet_from_In (l : list string) (y : string) :
  In y (JSSet.from l) <-> In y l.
Proof.
  unfold JSSet.from.
  destruct (JSSet_addAll l [] (NoDup_nil _)) as [_ M]. rewrite M.
  simpl. tauto.
Qed.

End SetFacts.

Section KeyedEntries.

Variables V C : Type.
Variable entry : string * V -> list C.
Variable keyOf : C -> option string.
Hypothesis entry_key :
  forall k v c, In c (entry (k, v)) -> keyOf c = Some k.

(** The candidates a rule emits for one key of its map. *)
Lemma entries_for_key (m : JSMap.t V) (k : string) :
  NoDup (JSMap.keys m) ->
  filter (fun c => option_eqb String.eqb (keyOf c) (Some k))
    (flat_map entry m) =
  match JSMap.get k m with
  | Some v => entry (k, v)
  | None => []
  end.
Proof.
  induction m as [|[k' v'] tl IH]; intros ND; [reflexivity|].
  cbn [JSMap.keys map fst] in ND. fold (JSMap.keys tl) in ND.
  inversion ND as [|? ? Hn ND']; subst.
  cbn [flat_map JSMap.get]. rewrite filter_app, (IH ND').
  destruct (String.eqb_spec k' k) as [->|N].
  - rewrite (not_In_keys_get _ k tl Hn), app_nil_r.
    apply filter_all. intros c Hc. rewrite (entry_key k v' c Hc).
    simpl. apply String.eqb_refl.
  - rewrite (filter_none _ _ (entry (k', v'))); [reflexivity|].
    intros c Hc. rewrite (entry_key k' v' c Hc). simpl.
    now apply String.eqb_neq.
Qed.

End KeyedEntries.

Section CoordinatedAttack.

Import CorrelationEngine.
Import CorrelationRules.
Local Open Scope R_scope.

Lemma ipGroups_group (als : list Alert.t) :
  ipGroups als =
  group (list Alert.t) Alert.t (fun _ => true) bucketKey []
    (fun v a => (v ++ [a])%list) als.
Proof. reflexivity. Qed.

Lemma ipGroups_get (key : string) (alertGroup : list Alert.t)
    (als : list Alert.t) :
  In (key, alertGroup) (ipGroups als) ->
  alertGroup = filter (fun a => String.eqb (bucketKey a) key) als.
Proof.
  rewrite ipGroups_group. intros H.
  apply In_get in H; [|apply NoDup_keys_group].
  rewrite get_group in H. unfold selected in H. simpl in H.
  destruct (filter (fun e => String.eqb (bucketKey e) key) als) as [|e es];
    [discriminate|].
  injection H as <-. now rewrite fold_left_snoc.
Qed.

Lemma coordinated_confidence (n : nat) :
  (3 <= n)%nat ->
  JS.Math_min 90 (50 + INR n * 10) = if (n =? 3)%nat then 80 else 90.
Proof.
  intros L. unfold JS.Math_min.
  destruct (Nat.eqb_spec n 3) as [->|N].
  - simpl. rewrite Rmin_right; lra.
  - assert (4 <= n)%nat by lia.
    assert (INR 4 <= INR n) by now apply le_INR.
    assert (INR 4 = 4) by (simpl; lra).
    rewrite Rmin_left; lra.
Qed.

(** X15: a candidate of the coordinated-attack rule has no source address
    and no related logs; it stands for the alerts of one type and one
    five-minute bucket, among which there are at least three distinct
    non-empty addresses; its confidence is 80 for three addresses and 90
    for more; it is rated critical when it names three assets or more and
    high otherwise. *)
Theorem X15_detectCoordinatedAttack (now : Z) (ls : list Log.t)
    (als : list Alert.t) (timeWindow : Z) (cd : CorrelationData)
    (Hcd : In cd (detectCoordinatedAttack now ls als timeWindow)) :
  sourceIp cd = None /\ relatedLogs cd = None /\
  (exists key,
     let alertGroup := filter (fun a => String.eqb (bucketKey a) key) als in
     let ips := uniqueIps alertGroup in
     NoDup ips /\ (3 <= length ips)%nat /\
     (forall ip, In ip ips <->
                 ip <> EmptyString /\
                 exists a, In a alertGroup /\ Alert.sourceIp a = Some ip) /\
     confidence cd = Some (if (length ips =? 3)%nat then 80 else 90)) /\
  calculateCorrelationSeverity cd =
    (if (3 <=? length (Alert.orElse (affectedAssets cd) []))%nat
     then critical else high).
Proof.
  unfold detectCoordinatedAttack in Hcd.
  apply (proj1 (in_flat_map _ _ _)) in Hcd.
  destruct Hcd as [[key alertGroup] [Hg Hc]].
  destruct (Nat.leb_spec 3 (JSSet.size (uniqueIps alertGroup))) as [L|L];
    [|easy].
  destruct Hc as [<-|[]].
  pose proof (ipGroups_get key alertGroup als Hg) as G.
  unfold JSSet.size in L.
  pose proof (coordinated_confidence _ L) as C.
  split; [reflexivity|]. split; [reflexivity|]. split.
  - exists key. cbv zeta. rewrite <- G.
    split; [apply JSSet_from_NoDup|]. split; [exact L|]. split.
    + intros ip. unfold uniqueIps. rewrite JSSet_from_In, filter_In.
      rewrite in_map_iff. split.
      * intros [[a [E Ha]] T]. split; [now destruct ip|].
        exists a. split; [exact Ha|]. unfold alertIp in E.
        destruct (Alert.sourceIp a) as [s|]; simpl in E; [now subst|].
        subst ip. discriminate.
      * intros [N [a [Ha E]]]. split; [|now destruct ip].
        exists a. split; [|exact Ha]. unfold alertIp. now rewrite E.
    + cbn [confidence coordinatedAttack]. unfold JSSet.size. now rewrite C.
  - apply (severity_confident _
             (if (length (uniqueIps alertGroup) =? 3)%nat then 80 else 90)).
    + cbn [confidence coordinatedAttack]. unfold JSSet.size. now rewrite C.
    + destruct (length (uniqueIps alertGroup) =? 3)%nat; lra.
Qed.

End CoordinatedAttack.

Section CoordinatedAttackExample.

Import CorrelationEngine.
Import CorrelationRules.

(** Three brute-force alerts of one five-minute bucket, from three
    addresses. *)
Definition bruteForceAlert (id : Z) (ip : string) : Alert.t :=
  Alert.mk id ("Brute Force Attack Detected from " ++ ip) high "brute_force"
    active (Some ip) ["Authentication System"]
    (Some "Authentication brute force") 85 (34 / 5) [] None "signature" [] []
    None None None (600000 + id).

Definition wave : list Alert.t :=
  [bruteForceAlert 1 "203.0.113.10"; bruteForceAlert 2 "203.0.113.11";
   bruteForceAlert 3 "203.0.113.12"].

Lemma wave_groups : ipGroups wave = [("brute_force-2", wave)].
Proof. reflexivity. Qed.

Lemma wave_detected (now : Z) :
  In (coordinatedAttack now "brute_force-2" wave)
     (detectCoordinatedAttack now [] wave 1800000).
Proof.
  unfold detectCoordinatedAttack. rewrite wave_groups.
  cbn [flat_map]. left. reflexivity.
Qed.

Lemma X15_detectCoordinatedAttack_witness :
  sourceIp (coordinatedAttack 700000 "brute_force-2" wave) = None.
Proof.
  exact (proj1 (X15_detectCoordinatedAttack 700000 [] wave 1800000
                  (coordinatedAttack 700000 "brute_force-2" wave)
                  (wave_detected 700000))).
Defined.

End CoordinatedAttackExample.

(* ================================================================== *)
(** ** The lateral-movement and data-breach rules *)

Section LateralMovement.

Import CorrelationEngine.
Import CorrelationRules.
Local Open Scope R_scope.

Variable userOf : Log.t -> option string.

(** The logs the rule tracks: security events with an address and a
    user. *)
Definition isMovement (log : Log.t) : bool :=
  Category_eqb (Log.category log) security &&
  JS.truthy (Log.sourceIp log) && JS.truthy (userOf log).

Definition track (pattern : Pattern) (log : Log.t) : Pattern :=
  mkPattern (JSSet.add (systems pattern) (Log.source log))
    (events pattern ++ [log]).

Lemma movementPatterns_group (ls : list Log.t) :
  movementPatterns userOf ls =
  group Pattern Log.t isMovement (movementKey userOf) (mkPattern [] []) track
    ls.
Proof. reflexivity. Qed.

Lemma track_all (es : list Log.t) (p : Pattern) :
  fold_left track es p =
  mkPattern (fold_left JSSet.add (map Log.source es) (systems p))
    (events p ++ es).
Proof.
  revert p. induction es as [|e tl IH]; intros p; simpl.
  - rewrite app_nil_r. now destruct p.
  - rewrite IH. simpl. now rewrite <- app_assoc.
Qed.

Lemma movementPatterns_get (key : string) (pattern : Pattern)
    (ls : list Log.t) :
  In (key, pattern) (movementPatterns userOf ls) ->
  let tracked :=
    filter (fun l => isMovement l && String.eqb (movementKey userOf l) key)
      ls in
  pattern = mkPattern (JSSet.from (map Log.source tracked)) tracked.
Proof.
  rewrite movementPatterns_group. intros H tracked.
  apply In_get in H; [|apply NoDup_keys_group].
  rewrite get_group in H. unfold selected in H. fold tracked in H.
  destruct tracked as [|e es]; [discriminate|].
  injection H as <-. now rewrite track_all.
Qed.

Lemma lateral_confidence (n : nat) :
  (3 <= n)%nat -> JS.Math_min 85 (40 + INR n * 15) = 85.
Proof.
  intros L. unfold JS.Math_min.
  assert (INR 3 <= INR n) by now apply le_INR.
  assert (INR 3 = 3) by (simpl; lra).
  rewrite Rmin_left; lra.
Qed.

(** X16: every candidate of the lateral-movement rule has confidence 85
    and is rated critical; it relates the security logs of one user and
    address, and its assets are the distinct systems those logs come from,
    three or more. *)
Theorem X16_detectLateralMovement (now : Z) (ls : list Log.t)
    (als : list Alert.t) (timeWindow : Z) (cd : CorrelationData)
    (Hcd : In cd (detectLateralMovement userOf now ls als timeWindow)) :
  confidence cd = Some 85 /\
  calculateCorrelationSeverity cd = critical /\
  exists key,
    let tracked :=
      filter (fun l => isMovement l && String.eqb (movementKey userOf l) key)
        ls in
    relatedLogs cd = Some (map Log._id tracked) /\
    exists visited,
      affectedAssets cd = Some visited /\
      NoDup visited /\ (3 <= length visited)%nat /\
      forall system,
        In system visited <->
        exists l, In l tracked /\ Log.source l = system.
Proof.
  unfold detectLateralMovement in Hcd.
  apply (proj1 (in_flat_map _ _ _)) in Hcd.
  destruct Hcd as [[key pattern] [Hp Hc]].
  destruct (Nat.leb_spec 3 (JSSet.size (systems pattern))) as [L|L]; [|easy].
  destruct Hc as [<-|[]].
  pose proof (movementPatterns_get key pattern ls Hp) as G. cbv zeta in G.
  unfold JSSet.size in L.
  assert (C : confidence (lateralMovement now key pattern) = Some 85).
  { cbn [confidence lateralMovement]. unfold JSSet.size.
    now rewrite (lateral_confidence _ L). }
  split; [exact C|]. split.
  - rewrite (severity_confident _ 85 C) by lra.
    cbn [affectedAssets lateralMovement Alert.orElse].
    destruct (Nat.leb_spec 3 (length (systems pattern))); [reflexivity | lia].
  - exists key. cbv zeta. split.
    + cbn [relatedLogs lateralMovement]. rewrite G at 1. reflexivity.
    + exists (systems pattern). split; [reflexivity|].
      split; [rewrite G; apply JSSet_from_NoDup|]. split; [exact L|].
      intros system. rewrite G at 1. cbn [systems].
      rewrite JSSet_from_In, in_map_iff.
      split; intros [l [H1 H2]]; exists l; now split.
Qed.

End LateralMovement.

Section DataBreach.

Import CorrelationEngine.
Import CorrelationRules.
Local Open Scope Z_scope.

Definition note (indicators : Indicators) (log : Log.t) : Indicators :=
  mkIndicators (breachEvents indicators ++ [log])
    (match IntrusionDetector.sizeOf log with
     | Some size => dataVolume indicators + size
     | None => dataVolume indicators
     end).

Definition hasAddress (log : Log.t) : bool := JS.truthy (Log.sourceIp log).

Lemma breachIndicators_group (ls : list Log.t) :
  breachIndicators ls =
  group Indicators Log.t hasAddress IntrusionDetector.ipOf (mkIndicators [] 0)
    note (filter isBreachEvent ls).
Proof. reflexivity. Qed.

Definition volume (ls : list Log.t) : Z :=
  fold_right (fun l acc => sizeOrZero l + acc) 0 ls.

Lemma note_all (es : list Log.t) (i : Indicators) :
  fold_left note es i =
  mkIndicators (breachEvents i ++ es) (dataVolume i + volume es).
Proof.
  revert i. induction es as [|e tl IH]; intros i; simpl.
  - rewrite app_nil_r, Z.add_0_r. now destruct i.
  - rewrite IH. simpl. rewrite <- app_assoc. f_equal.
    unfold sizeOrZero. destruct (IntrusionDetector.sizeOf e); simpl; lia.
Qed.

(** The logs the rule collects for an address. *)
Definition breachFrom (ip : string) (l : Log.t) : bool :=
  isBreachEvent l && carries ip l.

Lemma selected_breachFrom (ip : string) (ls : list Log.t) :
  ip <> EmptyString ->
  selected Log.t hasAddress IntrusionDetector.ipOf ip (filter isBreachEvent ls) =
  filter (breachFrom ip) ls.
Proof.
  intros N. unfold selected. induction ls as [|l tl IH]; [reflexivity|].
  cbn [filter]. unfold breachFrom at 1.
  destruct (isBreachEvent l); cbn [filter andb]; [|exact IH].
  rewrite IH. unfold hasAddress, carries, IntrusionDetector.ipOf.
  destruct (Log.sourceIp l) as [[|c s]|]; simpl; try reflexivity.
  destruct ip; [contradiction | reflexivity].
Qed.

(** A candidate that names two assets is rated high whatever its
    confidence. *)
Lemma severity_two_assets (cd : CorrelationData) (a b : string) :
  affectedAssets cd = Some [a; b] -> calculateCorrelationSeverity cd = high.
Proof.
  intros H. unfold calculateCorrelationSeverity. rewrite H.
  cbn [Alert.orElse length Nat.leb].
  now rewrite andb_false_r, orb_true_r.
Qed.

Definition breachEntry (now : Z) (entry : string * Indicators)
    : list CorrelationData :=
  let (sourceIp, indicators) := entry in
  if (50 * 1024 * 1024 <? dataVolume indicators) ||
     (5 <=? length (breachEvents indicators))%nat
  then [dataBreach now sourceIp indicators]
  else [].

(** X17: for logs whose sizes are safe integers, adding up to at most
    2^53 - 1 in magnitude, the data-breach rule yields exactly one
    candidate for an address when the logs of that address whose message
    names a database, a file, a download, an export or a backup are five
    or more, or carry more than 50 MB, and none otherwise; the candidate
    relates those logs, has confidence 80 when both hold and 60 when one
    does, and is rated high. *)
Theorem X17_detectDataBreachPattern (now : Z) (ls : list Log.t)
    (als : list Alert.t) (timeWindow : Z) (ip : string)
    (Hip : ip <> EmptyString)
    (Hsafe : safeSizes ls) :
  let collected := filter (breachFrom ip) ls in
  let highVolume := 50 * 1024 * 1024 < volume collected in
  let multipleAccess := (5 <= length collected)%nat in
  let emitted :=
    filter (fun cd => option_eqb String.eqb (sourceIp cd) (Some ip))
      (detectDataBreachPattern now ls als timeWindow) in
  (highVolume \/ multipleAccess ->
   exists cd,
     emitted = [cd] /\
     relatedLogs cd = Some (map Log._id collected) /\
     (highVolume /\ multipleAccess -> confidence cd = Some 80%R) /\
     (~ (highVolume /\ multipleAccess) -> confidence cd = Some 60%R) /\
     affectedAssets cd = Some ["Database"; "File System"]%string /\
     calculateCorrelationSeverity cd = high) /\
  (~ highVolume -> ~ multipleAccess -> emitted = []).
Proof.
  intros collected highVolume multipleAccess emitted.
  assert (E : emitted =
              match collected with
              | [] => []
              | _ => breachEntry now
                       (ip, mkIndicators collected (volume collected))
              end).
  { subst emitted.
    change (detectDataBreachPattern now ls als timeWindow)
      with (flat_map (breachEntry now) (breachIndicators ls)).
    rewrite (entries_for_key Indicators CorrelationData (breachEntry now)
               sourceIp).
    - rewrite breachIndicators_group, get_group, selected_breachFrom
        by assumption.
      fold collected. destruct collected as [|e es]; [reflexivity|].
      now rewrite note_all.
    - intros k v c Hc. unfold breachEntry in Hc.
      destruct ((50 * 1024 * 1024 <? dataVolume v) ||
                (5 <=? length (breachEvents v))%nat); [|easy].
      destruct Hc as [<-|[]]. reflexivity.
    - rewrite breachIndicators_group. apply NoDup_keys_group. }
  rewrite E. subst highVolume multipleAccess.
  destruct collected as [|e es] eqn:Q.
  - cbn [volume fold_right length].
    split; [intros [H|H]; exfalso; lia | reflexivity].
  - rewrite <- Q. unfold breachEntry.
    cbn [dataVolume breachEvents].
    destruct (Z.ltb_spec (50 * 1024 * 1024) (volume collected)) as [V|V];
      destruct (Nat.leb_spec 5 (length collected)) as [A|A]; cbn [orb].
    + split; [|intros H; contradiction]. intros _.
      eexists. split; [reflexivity|]. split; [reflexivity|].
      unfold dataBreach. cbn [confidence dataVolume breachEvents].
      destruct (Z.ltb_spec (50 * 1024 * 1024) (volume collected)); [|lia].
      destruct (Nat.leb_spec 5 (length collected)); [|lia].
      cbn [andb]. split; [reflexivity|]. split; [tauto|].
      split; [reflexivity|].
      now apply (severity_two_assets _ "Database" "File System").
    + split; [|intros H; contradiction]. intros _.
      eexists. split; [reflexivity|]. split; [reflexivity|].
      unfold dataBreach. cbn [confidence dataVolume breachEvents].
      destruct (Z.ltb_spec (50 * 1024 * 1024) (volume collected)); [|lia].
      destruct (Nat.leb_spec 5 (length collected)); [lia|].
      cbn [andb]. split; [intros [_ K]; lia|]. split; [reflexivity|].
      split; [reflexivity|].
      now apply (severity_two_assets _ "Database" "File System").
    + split; [|intros _ H; contradiction]. intros _.
      eexists. split; [reflexivity|]. split; [reflexivity|].
      unfold dataBreach. cbn [confidence dataVolume breachEvents].
      destruct (Z.ltb_spec (50 * 1024 * 1024) (volume collected)); [lia|].
      cbn [andb]. split; [intros [K _]; lia|]. split; [reflexivity|].
      split; [reflexivity|].
      now apply (severity_two_assets _ "Database" "File System").
    + split; [intros [H|H]; exfalso; lia | reflexivity].
Qed.

End DataBreach.

Section CorrelationExamples.

Import CorrelationEngine.
Import CorrelationRules.

(** One user on three systems. *)
Definition adminOf (l : Log.t) : option string := Some "admin".

Definition hop (id : Z) (system : string) : Log.t :=
  Log.mk id (1000 + id) system "Accepted password for admin" None security
    (Some "10.0.0.5") false.

Definition hops : list Log.t := [hop 1 "web01"; hop 2 "db01"; hop 3 "files01"].

Lemma hops_patterns :
  movementPatterns adminOf hops =
  [("admin-10.0.0.5", mkPattern ["web01"; "db01"; "files01"] hops)].
Proof. reflexivity. Qed.

Lemma hops_detected (now : Z) :
  In (lateralMovement now "admin-10.0.0.5"
        (mkPattern ["web01"; "db01"; "files01"] hops))
     (detectLateralMovement adminOf now hops [] 7200000).
Proof.
  unfold detectLateralMovement. rewrite hops_patterns.
  cbn [flat_map]. left. reflexivity.
Qed.

Lemma X16_detectLateralMovement_witness :
  calculateCorrelationSeverity
    (lateralMovement 5000 "admin-10.0.0.5"
       (mkPattern ["web01"; "db01"; "files01"] hops)) = critical.
Proof.
  exact (proj1 (proj2 (X16_detectLateralMovement adminOf 5000 hops []
                         7200000 _ (hops_detected 5000)))).
Defined.

(** Five downloads from one address. *)
Definition download (id : Z) : Log.t :=
  Log.mk id (1000 + id) "nginx" "GET /export/customers.csv download" None
    application (Some "10.0.0.5") false.

Definition downloads : list Log.t :=
  [download 1; download 2; download 3; download 4; download 5].

Lemma X17_detectDataBreachPattern_witness :
  exists cd,
    filter (fun cd => option_eqb String.eqb (sourceIp cd) (Some "10.0.0.5"))
      (detectDataBreachPattern 5000 downloads [] 3600000) = [cd] /\
    relatedLogs cd = Some [1; 2; 3; 4; 5]%Z /\
    calculateCorrelationSeverity cd = high.
Proof.
  destruct (proj1 (X17_detectDataBreachPattern 5000 downloads []
                     3600000 "10.0.0.5" ltac:(discriminate)
                     ltac:(unfold safeSizes, MAX_SAFE_INTEGER; simpl; lia))
              (or_intror (le_n 5)))
    as (cd & E & R & _ & _ & _ & S).
  exists cd. split; [exact E|]. split; [exact R | exact S].
Defined.

End CorrelationExamples.

(* ================================================================== *)
(** ** The correlation ids *)

Section Numerals.

(** The strings without a dash. *)
Fixpoint dashFree (s : string) : bool :=
  match s with
  | EmptyString => true
  | String c s' => negb (Ascii.eqb c "-") && dashFree s'
  end.

Lemma string_of_uint_dashFree (d : Decimal.uint) :
  dashFree (NilEmpty.string_of_uint d) = true.
Proof. induction d; simpl; auto. Qed.

Lemma to_int_nonneg (n : Z) :
  (0 <= n)%Z ->
  exists d, Z.to_int n = Decimal.Pos d /\ d <> Decimal.Nil.
Proof.
  intros H. destruct n as [|p|p]; [| |lia].
  - exists (Decimal.D0 Decimal.Nil). split; [reflexivity | discriminate].
  - exists (Pos.to_uint p). split; [reflexivity|].
    apply Unsigned.to_uint_nonnil.
Qed.

Lemma numberToString_nonneg (n : Z) :
  (0 <= n)%Z ->
  exists d, Z.to_int n = Decimal.Pos d /\
            JSString.numberToString n = NilEmpty.string_of_uint d.
Proof.
  intros H. destruct (to_int_nonneg n H) as [d [E N]].
  exists d. split; [exact E|]. unfold JSString.numberToString. rewrite E.
  simpl. now destruct d.
Qed.

Lemma numberToString_dashFree (n : Z) :
  (0 <= n)%Z -> dashFree (JSString.numberToString n) = true.
Proof.
  intros H. destruct (numberToString_nonneg n H) as [d [_ ->]].
  apply string_of_uint_dashFree.
Qed.

Lemma numberToString_inj (n m : Z) :
  (0 <= n)%Z -> (0 <= m)%Z ->
  JSString.numberToString n = JSString.numberToString m -> n = m.
Proof.
  intros Hn Hm E.
  destruct (numberToString_nonneg n Hn) as [d [Dn Sn]].
  destruct (numberToString_nonneg m Hm) as [e [Dm Sm]].
  rewrite Sn, Sm in E.
  assert (Q : Some d = Some e).
  { rewrite <- (NilEmpty.usu d), <- (NilEmpty.usu e). now rewrite E. }
  injection Q as ->.
  rewrite <- (DecimalZ.of_to n), <- (DecimalZ.of_to m). now rewrite Dn, Dm.
Qed.

(** Two strings cut at their first dash agree part by part. *)
Lemma dash_split (a b x y : string) :
  dashFree a = true -> dashFree b = true ->
  a ++ "-" ++ x = b ++ "-" ++ y -> a = b /\ x = y.
Proof.
  revert b. induction a as [|c a IH]; intros b Ha Hb E.
  - destruct b as [|c b]; simpl in *.
    + injection E as ->. now split.
    + injection E as <- _. simpl in Hb. discriminate.
  - destruct b as [|d b]; simpl in *.
    + injection E as -> _. simpl in Ha. discriminate.
    + injection E as -> E.
      apply andb_true_iff in Ha. apply andb_true_iff in Hb.
      destruct (IH b (proj2 Ha) (proj2 Hb) E) as [-> ->]. now split.
Qed.

End Numerals.

Section CorrelationIds.

Import CorrelationEngine.
Import CorrelationRules.

Variable userOf : Log.t -> option string.

(** What the four rules of the engine yield at one instant. *)
Definition candidates (now : Z) (ls : list Log.t) (als : list Alert.t)
    (timeWindow : Z) : list CorrelationData :=
  (detectAttackChain now ls als timeWindow ++
   detectCoordinatedAttack now ls als timeWindow ++
   detectLateralMovement userOf now ls als timeWindow ++
   detectDataBreachPattern now ls als timeWindow)%list.

(** The shape of a correlation id: the kind, the instant, the subject. *)
Definition Stamped (now : Z) (cd : CorrelationData) : Prop :=
  exists kind subject,
    dashFree kind = true /\
    correlationId cd =
      Some (kind ++ "-" ++ JSString.numberToString now ++ "-" ++ subject).

Lemma candidates_Stamped (now : Z) (ls : list Log.t) (als : list Alert.t)
    (timeWindow : Z) (cd : CorrelationData) :
  In cd (candidates now ls als timeWindow) -> Stamped now cd.
Proof.
  unfold candidates. rewrite !in_app_iff. intros [H|[H|[H|H]]].
  - unfold detectAttackChain in H. apply (proj1 (in_flat_map _ _ _)) in H.
    destruct H as [[ip ev] [_ H]].
    destruct (3 <=? length (identifyAttackStages ev))%nat; [|easy].
    destruct H as [<-|[]]. exists "CHAIN", (JSString.remove "." ip).
    split; reflexivity.
  - unfold detectCoordinatedAttack in H.
    apply (proj1 (in_flat_map _ _ _)) in H.
    destruct H as [[key g] [_ H]].
    destruct (3 <=? JSSet.size (uniqueIps g))%nat; [|easy].
    destruct H as [<-|[]].
    exists "COORD", (hd EmptyString (JSString.split "-" key)).
    split; reflexivity.
  - unfold detectLateralMovement in H.
    apply (proj1 (in_flat_map _ _ _)) in H.
    destruct H as [[key p] [_ H]].
    destruct (3 <=? JSSet.size (systems p))%nat; [|easy].
    destruct H as [<-|[]].
    exists "LATERAL", (hd EmptyString (JSString.split "-" key)).
    split; reflexivity.
  - unfold detectDataBreachPattern in H.
    apply (proj1 (in_flat_map _ _ _)) in H.
    destruct H as [[ip ind] [_ H]].
    destruct ((50 * 1024 * 1024 <? dataVolume ind)%Z ||
              (5 <=? length (breachEvents ind))%nat); [|easy].
    destruct H as [<-|[]]. exists "BREACH", (JSString.remove "." ip).
    split; reflexivity.
Qed.

Lemma Stamped_instant (now1 now2 : Z) (cd1 cd2 : CorrelationData) :
  (0 <= now1)%Z -> (0 <= now2)%Z ->
  Stamped now1 cd1 -> Stamped now2 cd2 ->
  correlationId cd1 = correlationId cd2 -> now1 = now2.
Proof.
  intros H1 H2 (k1 & s1 & K1 & E1) (k2 & s2 & K2 & E2) E.
  rewrite E1, E2 in E. injection E as E.
  destruct (dash_split _ _ _ _ K1 K2 E) as [_ E'].
  destruct (dash_split _ _ _ _ (numberToString_dashFree now1 H1)
              (numberToString_dashFree now2 H2) E') as [N _].
  now apply numberToString_inj.
Qed.

(** X18: the candidates the four correlation rules yield at two different
    instants of a clock that is not negative never share a correlation
    id; so the lookup that [createCorrelatedAlert] makes for a candidate
    never finds an alert that carries the id of a candidate of another
    instant. *)
Theorem X18_correlationId_never_repeats (now1 now2 : Z)
    (ls1 ls2 : list Log.t) (als1 als2 : list Alert.t) (tw1 tw2 : Z)
    (cd1 cd2 : CorrelationData)
    (Hnow1 : (0 <= now1)%Z) (Hnow2 : (0 <= now2)%Z)
    (Hlater : now1 <> now2)
    (Hcd1 : In cd1 (candidates now1 ls1 als1 tw1))
    (Hcd2 : In cd2 (candidates now2 ls2 als2 tw2)) :
  correlationId cd1 <> correlationId cd2 /\
  forall a,
    Alert.correlationId a = correlationId cd1 ->
    sameCorrelation cd2 a = false.
Proof.
  assert (N : correlationId cd1 <> correlationId cd2).
  { intros E. apply Hlater.
    apply (Stamped_instant now1 now2 cd1 cd2 Hnow1 Hnow2); [| |exact E].
    - now apply (candidates_Stamped now1 ls1 als1 tw1).
    - now apply (candidates_Stamped now2 ls2 als2 tw2). }
  split; [exact N|].
  intros a Ha. unfold sameCorrelation.
  destruct (option_eqb String.eqb (Alert.correlationId a)
              (correlationId cd2)) eqn:Q; [|reflexivity].
  apply option_eqb_string_eq in Q. congruence.
Qed.

End CorrelationIds.

Section CorrelationIdExample.

Import CorrelationEngine.
Import CorrelationRules.

Lemma downloads_indicators :
  breachIndicators downloads = [("10.0.0.5", mkIndicators downloads 0)].
Proof. reflexivity. Qed.

Lemma downloads_detected (userOf : Log.t -> option string) (now : Z) :
  In (dataBreach now "10.0.0.5" (mkIndicators downloads 0))
     (candidates userOf now downloads [] 3600000).
Proof.
  unfold candidates. rewrite !in_app_iff. do 3 right.
  unfold detectDataBreachPattern. rewrite downloads_indicators.
  cbn [flat_map]. left. reflexivity.
Qed.

Lemma X18_correlationId_never_repeats_witness :
  correlationId (dataBreach 5000 "10.0.0.5" (mkIndicators downloads 0)) <>
  correlationId (dataBreach 305000 "10.0.0.5" (mkIndicators downloads 0)).
Proof.
  refine (proj1 (X18_correlationId_never_repeats adminOf 5000 305000 downloads
                   downloads [] [] 3600000 3600000 _ _ _ _ _
                   (downloads_detected adminOf 5000)
                   (downloads_detected adminOf 305000))); lia.
Defined.

End CorrelationIdExample.

(* ================================================================== *)
(** ** The threat level of a collected log *)

Section ThreatLevel.

Import LogCollector.

(** The document [storeLog] saves for the output of a parser. *)
Definition stored (id : Z) (logData : LogData) : LogDoc.t :=
  LogDoc.preSave (newLog id logData).

(** Whether the schema accepts the document made of the output of a
    parser; the id plays no part. *)
Definition accepted (logData : LogData) : bool :=
  LogDoc.validate (newLog 0 logData).

Lemma storeLog_accepted (logData : LogData) (st : Store) :
  accepted logData = true ->
  storeLog logData st =
  mkStore (docs st ++ [stored (nextId st) logData]) (nextId st + 1)
    (if (7 <=? data_severity logData)%Z
     then highSeverity st ++ [nextId st] else highSeverity st)
    (rejected st).
Proof.
  intros A. unfold storeLog.
  change (LogDoc.validate (newLog (nextId st) logData))
    with (accepted logData).
  rewrite A. reflexivity.
Qed.

Lemma storeLog_rejected (logData : LogData) (st : Store) :
  accepted logData = false ->
  storeLog logData st =
  mkStore (docs st) (nextId st + 1) (highSeverity st)
    (rejected st ++ [nextId st]).
Proof.
  intros A. unfold storeLog.
  change (LogDoc.validate (newLog (nextId st) logData))
    with (accepted logData).
  rewrite A. reflexivity.
Qed.

(** X19: a log parsed by [parseSecurityLog] and stored has the threat level
    the pre-save hook computes.  For a security event (a message with
    Failed, authentication or login) it is high at level warn and medium
    otherwise, never the level the parser had set; for another entry it is
    low for debug and info, medium for warn or no level, critical for
    error and critical.  When the schema accepts the log, [storeLog]
    writes that document, and notes it as of high severity for a security
    event at level warn and for another entry at level error or
    critical. *)
Theorem X19_parseSecurityLog_threatLevel (now id : Z) (entry : RawEntry) :
  let logData := parseSecurityLog now entry in
  let log := stored id logData in
  (isSecurityEvent entry = true ->
   LogDoc.threatLevel log =
     (if isWarn (level entry) then high else medium) /\
   Some (LogDoc.threatLevel log) <> data_threatLevel logData) /\
  (isSecurityEvent entry = false ->
   LogDoc.threatLevel log =
     match level entry with
     | Some Level.debug | Some Level.info => low
     | Some Level.warn | None => medium
     | Some Level.error | Some Level.critical => critical
     end) /\
  (accepted logData = true ->
   storeLog logData (mkStore [] id [] []) =
   mkStore [log] (id + 1)
     (if (if isSecurityEvent entry then isWarn (level entry)
          else match level entry with
               | Some Level.error | Some Level.critical => true
               | _ => false
               end)
      then [id] else [])
     []).
Proof.
  intros logData log. split; [|split].
  - subst log logData.
    unfold stored, LogDoc.preSave, newLog, parseSecurityLog.
    cbn [data_category data_severity data_threatLevel LogDoc.category
         LogDoc.severity LogDoc.threatLevel Category_eqb andb].
    intros ->.
    destruct (isWarn (level entry)); simpl; split;
      [reflexivity | discriminate | reflexivity | discriminate].
  - subst log logData.
    unfold stored, LogDoc.preSave, newLog, parseSecurityLog.
    cbn [data_category data_severity data_threatLevel LogDoc.category
         LogDoc.severity LogDoc.threatLevel Category_eqb andb].
    intros ->. destruct (level entry) as [[]|]; reflexivity.
  - intros A. rewrite (storeLog_accepted logData _ A).
    cbn [docs nextId highSeverity rejected app]. fold log.
    f_equal. subst logData. unfold parseSecurityLog.
    cbn [data_severity].
    destruct (isSecurityEvent entry).
    + destruct (isWarn (level entry)); reflexivity.
    + destruct (level entry) as [[]|]; reflexivity.
Qed.

(** X20: a log parsed by [parseSystemLog] or [parseApacheLog] and stored
    has threat level low for debug and info, medium for warn or no level
    and high for error and critical, never critical; an entry without a
    level is stored at level info with severity 5, an entry at level info
    with severity 3.  That document is what [storeLog] writes when the
    schema accepts it. *)
Theorem X20_system_and_web_logs_never_critical (now id : Z) (entry : RawEntry)
    (parser : Z -> RawEntry -> LogData)
    (Hparser : parser = parseSystemLog \/ parser = parseApacheLog) :
  let log := stored id (parser now entry) in
  LogDoc.threatLevel log =
    match level entry with
    | Some Level.debug | Some Level.info => low
    | Some Level.warn | None => medium
    | Some Level.error | Some Level.critical => high
    end /\
  LogDoc.threatLevel log <> critical /\
  (level entry = None ->
   LogDoc.level log = Level.info /\ LogDoc.severity log = 5%Z) /\
  (level entry = Some Level.info -> LogDoc.severity log = 3%Z) /\
  (accepted (parser now entry) = true ->
   docs (storeLog (parser now entry) (mkStore [] id [] [])) = [log]).
Proof.
  intros log.
  assert (S : (accepted (parser now entry) = true ->
               docs (storeLog (parser now entry) (mkStore [] id [] []))
               = [log])).
  { intros A. rewrite (storeLog_accepted _ _ A). reflexivity. }
  revert S. generalize (accepted (parser now entry)).
  generalize (docs (storeLog (parser now entry) (mkStore [] id [] []))).
  intros ds b S. subst log.
  destruct Hparser as [-> | ->];
    revert S;
    unfold stored, LogDoc.preSave, newLog, parseSystemLog, parseApacheLog;
    cbn [data_category data_severity data_threatLevel data_level
         LogDoc.category LogDoc.severity LogDoc.threatLevel LogDoc.level
         Category_eqb andb];
    intros S;
    (split; [|split; [|split; [|split; [|exact S]]]]);
    destruct (level entry) as [[]|]; simpl;
      repeat split; try reflexivity; try discriminate; intros; discriminate.
Qed.

Lemma X20_system_and_web_logs_never_critical_witness :
  LogDoc.threatLevel
    (stored 1
       (parseSystemLog 1000
          (mkRawEntry None (Some Level.critical) (Some "kernel")
             "Out of memory: killed process" None))) = high.
Proof.
  exact (proj1 (X20_system_and_web_logs_never_critical 1000 1
                  (mkRawEntry None (Some Level.critical) (Some "kernel")
                     "Out of memory: killed process" None)
                  parseSystemLog (or_introl eq_refl))).
Defined.

End ThreatLevel.

(* ================================================================== *)
(** ** From the collector to the detector *)

Section LowerCase.

Lemma prefix_toLowerCase (sub s : string) :
  String.prefix sub s = true ->
  String.prefix (JS.toLowerCase sub) (JS.toLowerCase s) = true.
Proof.
  revert s. induction sub as [|a sub IH]; intros s; [now destruct s|].
  destruct s as [|b s]; simpl; [discriminate|].
  destruct (ascii_dec a b) as [->|N]; [|discriminate].
  intros H. destruct (ascii_dec (JS.lowerChar b) (JS.lowerChar b));
    [now apply IH | contradiction].
Qed.

(** What a string contains it still contains, in lower case, once it is
    put in lower case. *)
Lemma includes_toLowerCase (s sub : string) :
  JS.includes s sub = true ->
  JS.includes (JS.toLowerCase s) (JS.toLowerCase sub) = true.
Proof.
  induction s as [|c s IH]; simpl.
  - rewrite orb_false_r. intros H.
    apply (prefix_toLowerCase sub EmptyString) in H. simpl in H.
    rewrite H. reflexivity.
  - intros H. apply orb_true_iff in H. destruct H as [H|H].
    + apply (prefix_toLowerCase sub (String c s)) in H. simpl in H.
      rewrite H. reflexivity.
    + rewrite (IH H). apply orb_true_r.
Qed.

End LowerCase.

Section Pipeline.

Import LogCollector.
Import IntrusionDetector.
Local Open Scope R_scope.

Variable parser : Z -> RawEntry -> LogData.
Variable now : Z.

(** The documents a source adds to the collection, from the next id on. *)
Fixpoint storedFrom (id : Z) (entries : list RawEntry) : list LogDoc.t :=
  match entries with
  | [] => []
  | entry :: tl =>
      ((if accepted (parser now entry)
        then [stored id (parser now entry)] else []) ++
       storedFrom (id + 1) tl)%list
  end.

Lemma collectFromSource_docs (entries : list RawEntry) (st : Store) :
  docs (collectFromSource parser now entries st) =
  (docs st ++ storedFrom (nextId st) entries)%list.
Proof.
  unfold collectFromSource. revert st.
  induction entries as [|e tl IH]; intros st; simpl.
  - now rewrite app_nil_r.
  - rewrite IH. destruct (accepted (parser now e)) eqn:A.
    + rewrite (storeLog_accepted _ _ A). cbn [docs nextId].
      now rewrite <- app_assoc.
    + rewrite (storeLog_rejected _ _ A). reflexivity.
Qed.

Lemma storedFrom_length (id : Z) (entries : list RawEntry) :
  (forall entry, In entry entries -> accepted (parser now entry) = true) ->
  length (storedFrom id entries) = length entries.
Proof.
  revert id. induction entries as [|e tl IH]; intros id A; simpl;
    [reflexivity|].
  rewrite (A e (or_introl eq_refl)). simpl.
  rewrite IH; [reflexivity|]. intros x Hx. apply A. now right.
Qed.

Lemma storedFrom_In (id : Z) (entries : list RawEntry) (d : LogDoc.t) :
  In d (storedFrom id entries) ->
  exists i entry,
    In entry entries /\ accepted (parser now entry) = true /\
    d = stored i (parser now entry).
Proof.
  revert id. induction entries as [|e tl IH]; intros id; simpl; [easy|].
  intros H. apply in_app_or in H. destruct H as [H|H].
  - destruct (accepted (parser now e)) eqn:A; [|destruct H].
    destruct H as [<-|[]]. exists id, e.
    split; [now left | split; [exact A | reflexivity]].
  - destruct (IH _ H) as (i & x & Hx & A & E). exists i, x.
    split; [now right | split; [exact A | exact E]].
Qed.

Lemma storedFrom_rejected (id : Z) (entries : list RawEntry) :
  (forall entry, In entry entries -> accepted (parser now entry) = false) ->
  storedFrom id entries = [].
Proof.
  revert id. induction entries as [|e tl IH]; intros id A; simpl;
    [reflexivity|].
  rewrite (A e (or_introl eq_refl)). simpl.
  apply IH. intros x Hx. apply A. now right.
Qed.

End Pipeline.

Section BruteForcePipeline.

Import LogCollector.
Import IntrusionDetector.
Local Open Scope R_scope.

Lemma detectBruteForce_fromIp (th : Thresholds) (logs : list Log.t)
    (ip : string) :
  ip <> EmptyString ->
  filter (fromIp ip) (detectBruteForce th logs) =
  match filter (failedLoginFrom ip) logs with
  | [] => []
  | es => bruteForceEntry th (ip, es)
  end.
Proof.
  intros Hip.
  change (detectBruteForce th logs)
    with (flat_map (bruteForceEntry th) (failedAttempts logs)).
  rewrite bruteForce_fromIp.
  - rewrite failedAttempts_get, selected_failedLoginFrom by assumption.
    now destruct (filter (failedLoginFrom ip) logs).
  - rewrite failedAttempts_group. apply NoDup_keys_group.
Qed.

Lemma failure_is_counted (now id : Z) (entry : RawEntry) (ip : string) :
  JS.includes (message entry) "Failed" = true ->
  detailsIp entry = Some ip ->
  failedLoginFrom (JSString.trim ip)
    (LogDoc.view (stored id (parseSecurityLog now entry))) = true.
Proof.
  intros F D. unfold failedLoginFrom, stored, LogDoc.view, LogDoc.preSave,
    newLog, parseSecurityLog.
  cbn [Log.category Log.message Log.sourceIp LogDoc.category LogDoc.message
       LogDoc.sourceIp data_category data_message data_sourceIp
       Category_eqb andb].
  rewrite D. cbn [option_map option_eqb]. rewrite String.eqb_refl.
  rewrite andb_true_r.
  exact (includes_toLowerCase (message entry) "Failed" F).
Qed.

(** X21: when five or more entries that the schema accepts, whose message
    contains Failed and whose details name one address, are collected from
    the security source into an empty collection, the brute-force rule
    with the thresholds of the constructor emits, over the stored logs,
    exactly one detection for the trimmed address, of confidence
    min(95, 60 + 5 * count), relating all of them. *)
Theorem X21_collected_failures_raise_brute_force (now : Z)
    (entries : list RawEntry) (ip : string)
    (Hfailed : forall entry,
       In entry entries ->
       JS.includes (message entry) "Failed" = true /\
       detailsIp entry = Some ip)
    (Haccepted : forall entry,
       In entry entries -> accepted (parseSecurityLog now entry) = true)
    (Hip : JSString.trim ip <> EmptyString)
    (Hmany : (5 <= length entries)%nat) :
  let st := collectFromSource parseSecurityLog now entries emptyStore in
  let logs := map LogDoc.view (docs st) in
  exists d,
    filter (fromIp (JSString.trim ip)) (detectBruteForce alertThresholds logs)
      = [d] /\
    sourceIp d = Some (JSString.trim ip) /\
    confidence d = Rmin 95 (60 + 5 * INR (length entries)) /\
    relatedLogs d = Some (map Log._id logs).
Proof.
  intros st logs.
  assert (D : docs st = storedFrom parseSecurityLog now 0 entries).
  { subst st. now rewrite collectFromSource_docs. }
  assert (A : filter (failedLoginFrom (JSString.trim ip)) logs = logs).
  { apply filter_all. intros l Hl. subst logs.
    apply in_map_iff in Hl. destruct Hl as [d [<- Hd]].
    rewrite D in Hd. apply storedFrom_In in Hd.
    destruct Hd as (i & e & He & _ & ->).
    destruct (Hfailed e He) as [F I]. now apply failure_is_counted. }
  assert (L : length logs = length entries).
  { subst logs. rewrite length_map, D.
    now apply storedFrom_length. }
  rewrite detectBruteForce_fromIp by assumption. rewrite A.
  destruct logs as [|l tl] eqn:Q; [simpl in L; lia|].
  rewrite <- Q in *. unfold bruteForceEntry.
  destruct (Nat.leb_spec (bruteForceAttempts alertThresholds) (length logs))
    as [T|T]; [|simpl in T; lia].
  eexists. split; [reflexivity|]. split; [reflexivity|]. split.
  - unfold bruteForceDetection, confidence, JS.Math_min. rewrite L.
    f_equal. lra.
  - reflexivity.
Qed.

End BruteForcePipeline.

Section SchemaValidation.

Import LogCollector.

Lemma malformed_address_rejected (parser : Z -> RawEntry -> LogData)
    (now : Z) (entry : RawEntry) (ip : string) :
  parser = parseSystemLog \/ parser = parseApacheLog \/
  parser = parseSecurityLog ->
  detailsIp entry = Some ip ->
  JSString.trim ip <> EmptyString ->
  RegExp.matches LogDoc.addressFormat (JSString.trim ip) = false ->
  accepted (parser now entry) = false.
Proof.
  intros Hparser Hip Hsome Hform.
  assert (E : LogDoc.sourceIp (newLog 0 (parser now entry)) =
              Some (JSString.trim ip)).
  { destruct Hparser as [-> | [-> | ->]];
      unfold newLog, parseSystemLog, parseApacheLog, parseSecurityLog;
      cbn [LogDoc.sourceIp data_sourceIp]; rewrite Hip; reflexivity. }
  unfold accepted, LogDoc.validate. rewrite E.
  destruct (JSString.trim ip) as [|c tl]; [contradiction|].
  rewrite Hform. apply andb_false_r.
Qed.

(** X25: entries whose details name an address that, once trimmed, is not
    empty and has neither the form of four groups of one to three digits
    nor that of eight groups of one to four hexadecimal digits are never
    stored, whatever parser of the collector reads them: collecting them
    leaves the collection and the notes of high severity as they were, and
    logs one error for each entry. *)
Theorem X25_malformed_address_is_never_stored
    (parser : Z -> RawEntry -> LogData) (now : Z) (ip : string)
    (entries : list RawEntry) (st : Store)
    (Hparser : parser = parseSystemLog \/ parser = parseApacheLog \/
               parser = parseSecurityLog)
    (Hip : forall entry, In entry entries -> detailsIp entry = Some ip)
    (Hsome : JSString.trim ip <> EmptyString)
    (Hform : RegExp.matches LogDoc.addressFormat (JSString.trim ip) = false) :
  let st' := collectFromSource parser now entries st in
  docs st' = docs st /\
  highSeverity st' = highSeverity st /\
  length (rejected st') = (length (rejected st) + length entries)%nat.
Proof.
  intros st'. subst st'. unfold collectFromSource. revert st.
  induction entries as [|e tl IH]; intros st.
  - simpl. repeat split. lia.
  - cbn [fold_left].
    assert (A : accepted (parser now e) = false).
    { apply (malformed_address_rejected parser now e ip); try assumption.
      apply Hip. now left. }
    rewrite (storeLog_rejected _ _ A).
    destruct (IH (fun x Hx => Hip x (or_intror Hx))
                (mkStore (docs st) (nextId st + 1) (highSeverity st)
                   (rejected st ++ [nextId st])))
      as (D & H & R).
    rewrite D, H, R. cbn [docs highSeverity rejected].
    rewrite length_app. simpl. repeat split. lia.
Qed.

End SchemaValidation.

Section LogCleanup.

Import LogCollector.
Import IntrusionDetector.
Local Open Scope Z_scope.

Lemma filter_map_filter (A B : Type) (f : A -> B) (p : B -> bool)
    (q : A -> bool) (l : list A) :
  (forall x, p (f x) = true -> q x = true) ->
  filter p (map f (filter q l)) = filter p (map f l).
Proof.
  intros H. induction l as [|x tl IH]; [reflexivity|]. simpl.
  destruct (q x) eqn:Q; simpl.
  - now rewrite IH.
  - destruct (p (f x)) eqn:P; [|exact IH].
    rewrite (H x P) in Q. discriminate.
Qed.

(** X22: [cleanupOldLogs] keeps every log that is at or after the cutoff
    date or whose level is not debug or info, and removes the others; when
    the cutoff date is not after the start of the detection window, the
    batch a detection cycle fetches is the same before and after the
    cleanup. *)
Theorem X22_cleanupOldLogs (th : Thresholds)
    (now cutoffDate : Z) (st : Store) (w : World.t)
    (Hcutoff : cutoffDate <= now - timeWindow th) :
  let st' := cleanupOldLogs cutoffDate st in
  recentLogs th now (World.setLogs (map LogDoc.view (docs st')) w) =
  recentLogs th now (World.setLogs (map LogDoc.view (docs st)) w) /\
  (forall d,
     In d (docs st') <->
     In d (docs st) /\
     (cutoffDate <= LogDoc.timestamp d \/
      (LogDoc.level d <> Level.debug /\ LogDoc.level d <> Level.info))).
Proof.
  intros st'. subst st'. split.
  - unfold recentLogs, cleanupOldLogs. cbn [World.logs World.setLogs docs].
    f_equal. apply filter_map_filter. intros d H.
    apply andb_true_iff in H. destruct H as [H _]. apply Z.leb_le in H.
    cbn [Log.timestamp LogDoc.view] in H.
    apply negb_true_iff. apply andb_false_iff. left. apply Z.ltb_ge. lia.
  - intros d. unfold cleanupOldLogs. cbn [docs]. rewrite filter_In.
    rewrite negb_true_iff, andb_false_iff, Z.ltb_ge, orb_false_iff.
    split; intros [H1 H2]; (split; [exact H1|]).
    + destruct H2 as [H2|[H2 H3]]; [now left|]. right.
      split; intros E; rewrite E in *; discriminate.
    + destruct H2 as [H2|[H2 H3]]; [now left|]. right.
      destruct (LogDoc.level d); try contradiction; split; reflexivity.
Qed.

End LogCleanup.

Section CollectorExamples.

Import LogCollector.
Import IntrusionDetector.
Local Open Scope R_scope.

(** A failed password as the [sshd] source reports it. *)
Definition failure : RawEntry :=
  mkRawEntry (Some 1000%Z) (Some Level.warn) (Some "sshd")
    "Failed password for user admin from 203.0.113.10"
    (Some (LogDoc.mkDetails (Some " 203.0.113.10") None (Some "admin"))).

Lemma X21_collected_failures_raise_brute_force_witness :
  exists d,
    filter (fromIp "203.0.113.10")
      (detectBruteForce alertThresholds
         (map LogDoc.view
            (docs (collectFromSource parseSecurityLog 2000
                     [failure; failure; failure; failure; failure]
                     emptyStore)))) = [d] /\
    confidence d = Rmin 95 (60 + 5 * INR 5).
Proof.
  destruct (X21_collected_failures_raise_brute_force 2000
              [failure; failure; failure; failure; failure] " 203.0.113.10")
    as (d & E & _ & C & _).
  - intros e H. simpl in H.
    destruct H as [<-|[<-|[<-|[<-|[<-|[]]]]]]; split; reflexivity.
  - intros e H. simpl in H.
    destruct H as [<-|[<-|[<-|[<-|[<-|[]]]]]]; reflexivity.
  - discriminate.
  - simpl. lia.
  - exists d. split; [exact E | exact C].
Defined.

(** The same failure from an address in the short form of IPv6. *)
Definition shortFormFailure : RawEntry :=
  mkRawEntry (Some 1000%Z) (Some Level.warn) (Some "sshd")
    "Failed password for user admin from 2001:db8::1"
    (Some (LogDoc.mkDetails (Some "2001:db8::1") None (Some "admin"))).

Lemma X25_malformed_address_is_never_stored_witness :
  docs (collectFromSource parseSecurityLog 2000
          [shortFormFailure; shortFormFailure; shortFormFailure;
           shortFormFailure; shortFormFailure]
          emptyStore) = [].
Proof.
  refine (proj1 (X25_malformed_address_is_never_stored parseSecurityLog 2000
                   "2001:db8::1"
                   [shortFormFailure; shortFormFailure; shortFormFailure;
                    shortFormFailure; shortFormFailure]
                   emptyStore _ _ _ _)).
  - right. right. reflexivity.
  - intros e H. simpl in H.
    destruct H as [<-|[<-|[<-|[<-|[<-|[]]]]]]; reflexivity.
  - discriminate.
  - reflexivity.
Defined.

Lemma X22_cleanupOldLogs_witness :
  recentLogs alertThresholds 8000000000
    (World.setLogs
       (map LogDoc.view
          (docs (cleanupOldLogs 224000000
                   (collectFromSource parseSecurityLog 2000 [failure]
                      emptyStore))))
       World.empty) =
  recentLogs alertThresholds 8000000000
    (World.setLogs
       (map LogDoc.view
          (docs (collectFromSource parseSecurityLog 2000 [failure]
                   emptyStore)))
       World.empty).
Proof.
  refine (proj1 (X22_cleanupOldLogs alertThresholds
                   8000000000 224000000
                   (collectFromSource parseSecurityLog 2000 [failure]
                      emptyStore)
                   World.empty _)).
  simpl. lia.
Defined.

End CollectorExamples.

(* ================================================================== *)
(** ** The list of unassigned alerts *)

Section SortFacts.

Import AlertQueries.

Variable A : Type.
Variable before : A -> A -> bool.

Lemma insert_In (x y : A) (sorted : list A) :
  In y (insert before x sorted) <-> y = x \/ In y sorted.
Proof.
  induction sorted as [|z tl IH]; simpl.
  - split; intros [H|H]; auto; easy.
  - destruct (before x z); simpl.
    + split; intros [H|H]; auto.
    + rewrite IH. split; intros H; tauto.
Qed.

Lemma insert_length (x : A) (sorted : list A) :
  length (insert before x sorted) = S (length sorted).
Proof.
  induction sorted as [|z tl IH]; simpl; [reflexivity|].
  destruct (before x z); simpl; [reflexivity | now rewrite IH].
Qed.

Lemma sort_spec (l : list A) :
  length (sort before l) = length l /\
  forall y, In y (sort before l) <-> In y l.
Proof.
  unfold sort.
  assert (G : forall acc,
            length (fold_left (fun sorted x => insert before x sorted) l acc) =
              (length l + length acc)%nat /\
            forall y,
              In y (fold_left (fun sorted x => insert before x sorted) l acc)
              <-> In y l \/ In y acc).
  { induction l as [|x tl IH]; simpl; intros acc.
    - split; [reflexivity | intros y; tauto].
    - destruct (IH (insert before x acc)) as [L M]. split.
      + rewrite L, insert_length. lia.
      + intros y. rewrite M, insert_In. split; intros H; intuition auto. }
  destruct (G []) as [L M]. split.
  - rewrite L. simpl. lia.
  - intros y. rewrite M. simpl. tauto.
Qed.

Lemma insert_Permutation (x : A) (sorted : list A) :
  Permutation (insert before x sorted) (x :: sorted).
Proof.
  induction sorted as [|z tl IH]; simpl; [reflexivity|].
  destruct (before x z); [reflexivity|].
  rewrite IH. apply perm_swap.
Qed.

Lemma sort_Permutation (l : list A) : Permutation (sort before l) l.
Proof.
  unfold sort.
  assert (G : forall acc,
            Permutation
              (fold_left (fun sorted x => insert before x sorted) l acc)
              (l ++ acc)).
  { induction l as [|x tl IH]; intros acc; simpl; [reflexivity|].
    rewrite IH, insert_Permutation. symmetry. apply Permutation_middle. }
  rewrite (G []). now rewrite app_nil_r.
Qed.

(** The order of the result, for a ranking that the sort keys respect. *)
Variable rank : A -> nat.
Hypothesis before_rank : forall x y, before x y = true -> (rank y <= rank x)%nat.
Hypothesis after_rank : forall x y, before x y = false -> (rank x <= rank y)%nat.

Definition ranked (x y : A) : Prop := (rank y <= rank x)%nat.

Lemma insert_sorted (x : A) (sorted : list A) :
  StronglySorted ranked sorted -> StronglySorted ranked (insert before x sorted).
Proof.
  induction 1 as [|z tl S IH F]; simpl.
  - constructor; constructor.
  - destruct (before x z) eqn:B.
    + constructor; [now constructor|]. constructor.
      * now apply before_rank.
      * rewrite Forall_forall in *. intros y Hy. unfold ranked in *.
        specialize (F y Hy). specialize (before_rank x z B). lia.
    + constructor; [exact IH|]. rewrite Forall_forall in *.
      intros y Hy. apply insert_In in Hy. destruct Hy as [->|Hy].
      * now apply after_rank.
      * now apply F.
Qed.

Lemma sort_sorted (l : list A) : StronglySorted ranked (sort before l).
Proof.
  unfold sort.
  assert (G : forall acc, StronglySorted ranked acc ->
            StronglySorted ranked
              (fold_left (fun sorted x => insert before x sorted) l acc)).
  { induction l as [|x tl IH]; simpl; intros acc S; [exact S|].
    apply IH. now apply insert_sorted. }
  apply G. constructor.
Qed.

End SortFacts.

Section UnassignedAlerts.

Import AlertQueries.

(** The place of a severity in the list of unassigned alerts: the order of
    the words, last letter first. *)
Definition listedRank (s : Severity) : nat :=
  match s with
  | medium => 3
  | low => 2
  | high => 1
  | critical => 0
  end.

Definition rankOf (d : Assigned) : nat :=
  listedRank (Alert.severity (alert d)).

Lemma severityThenNewerFirst_before (x y : Assigned) :
  severityThenNewerFirst x y = true -> (rankOf y <= rankOf x)%nat.
Proof.
  unfold severityThenNewerFirst, rankOf.
  destruct (Alert.severity (alert x)), (Alert.severity (alert y)); simpl;
    intros H; try lia; discriminate.
Qed.

Lemma severityThenNewerFirst_after (x y : Assigned) :
  severityThenNewerFirst x y = false -> (rankOf x <= rankOf y)%nat.
Proof.
  unfold severityThenNewerFirst, rankOf.
  destruct (Alert.severity (alert x)), (Alert.severity (alert y)); simpl;
    intros H; try lia; discriminate.
Qed.

Lemma StronglySorted_nth (A : Type) (R : A -> A -> Prop) (l : list A)
    (i j : nat) (x y : A) :
  StronglySorted R l -> (i < j)%nat ->
  nth_error l i = Some x -> nth_error l j = Some y -> R x y.
Proof.
  intros S. revert i j. induction S as [|z tl S IH F]; intros i j Lt Hi Hj.
  - destruct i; discriminate.
  - destruct j as [|j]; [lia|]. destruct i as [|i]; simpl in *.
    + injection Hi as <-. rewrite Forall_forall in F. apply F.
      now apply (nth_error_In tl j).
    + apply (IH i j); [lia | assumption | assumption].
Qed.

(** X8: [getUnassignedAlerts] lists exactly the active alerts that nobody
    is assigned to, in descending order of the name of the severity as a
    string: the medium alerts, then the low, then the high, and the
    critical alerts last. *)
Theorem X8_getUnassignedAlerts_order (collection : list Assigned) :
  let listed := getUnassignedAlerts collection in
  (forall d,
     In d listed <->
     In d collection /\ assignedTo d = None /\
     Alert.status (alert d) = active) /\
  length listed =
    length (filter
              (fun d =>
                 match assignedTo d with None => true | Some _ => false end &&
                 Status_eqb (Alert.status (alert d)) active)
              collection) /\
  forall i j x y,
    (i < j)%nat ->
    nth_error listed i = Some x -> nth_error listed j = Some y ->
    (listedRank (Alert.severity (alert y)) <=
     listedRank (Alert.severity (alert x)))%nat /\
    (Alert.severity (alert x) = critical ->
     Alert.severity (alert y) = critical) /\
    (Alert.severity (alert y) = medium ->
     Alert.severity (alert x) = medium).
Proof.
  intros listed. subst listed. unfold getUnassignedAlerts.
  set (unassigned :=
         filter
           (fun d =>
              match assignedTo d with None => true | Some _ => false end &&
              Status_eqb (Alert.status (alert d)) active)
           collection).
  destruct (sort_spec Assigned severityThenNewerFirst unassigned) as [L M].
  split; [|split; [exact L|]].
  - intros d. rewrite M. unfold unassigned. rewrite filter_In.
    rewrite andb_true_iff, Status_eqb_eq.
    destruct (assignedTo d); split; intros (H1 & H2 & H3);
      repeat split; try assumption; try reflexivity; discriminate.
  - intros i j x y Lt Hi Hj.
    pose proof (sort_sorted Assigned severityThenNewerFirst rankOf
                  severityThenNewerFirst_before severityThenNewerFirst_after
                  unassigned) as S.
    pose proof (StronglySorted_nth _ _ _ i j x y S Lt Hi Hj) as R.
    unfold ranked, rankOf in R. split; [exact R|].
    split; intros E; rewrite E in R;
      [destruct (Alert.severity (alert y)) | destruct (Alert.severity (alert x))];
      simpl in R; try reflexivity; lia.
Qed.

End UnassignedAlerts.

(* ================================================================== *)
(** ** Pagination, and the route that marks logs *)

Section NewestFirst.

Import AlertQueries.

Definition newer (x y : Alert.t) : Prop :=
  (Alert.createdAt y < Alert.createdAt x)%Z.

Definition notOlder (x y : Alert.t) : Prop :=
  (Alert.createdAt y <= Alert.createdAt x)%Z.

Lemma insert_notOlder (x : Alert.t) (sorted : list Alert.t) :
  StronglySorted notOlder sorted ->
  StronglySorted notOlder (insert newerFirst x sorted).
Proof.
  induction 1 as [|z tl S IH F]; simpl.
  - constructor; constructor.
  - unfold newerFirst at 1.
    destruct (Z.ltb_spec (Alert.createdAt z) (Alert.createdAt x)) as [B|B].
    + constructor; [now constructor|]. constructor.
      * unfold notOlder. lia.
      * rewrite Forall_forall in *. intros y Hy. unfold notOlder in *.
        specialize (F y Hy). lia.
    + constructor; [exact IH|]. rewrite Forall_forall in *.
      intros y Hy. apply insert_In in Hy. destruct Hy as [->|Hy].
      * exact B.
      * now apply F.
Qed.

Lemma sort_notOlder (l : list Alert.t) :
  StronglySorted notOlder (sort newerFirst l).
Proof.
  unfold sort.
  assert (G : forall acc, StronglySorted notOlder acc ->
            StronglySorted notOlder
              (fold_left (fun sorted x => insert newerFirst x sorted) l acc)).
  { induction l as [|x tl IH]; simpl; intros acc S; [exact S|].
    apply IH. now apply insert_notOlder. }
  apply G. constructor.
Qed.

(** Alerts of distinct dates come out strictly newest first: the order
    of the result does not depend on how the sort treats equal keys. *)
Lemma sort_newer (l : list Alert.t) :
  NoDup (map Alert.createdAt l) ->
  StronglySorted newer (sort newerFirst l).
Proof.
  intros ND.
  assert (ND' : NoDup (map Alert.createdAt (sort newerFirst l))).
  { apply (Permutation_NoDup (l := map Alert.createdAt l)); [|exact ND].
    apply Permutation_map. symmetry. apply sort_Permutation. }
  pose proof (sort_notOlder l) as S.
  induction S as [|x tl S IH F]; [constructor|].
  simpl in ND'. inversion ND' as [|? ? NI ND'']; subst.
  constructor; [now apply IH|].
  rewrite Forall_forall in *. intros y Hy. specialize (F y Hy).
  unfold newer, notOlder in *.
  assert (Alert.createdAt y <> Alert.createdAt x).
  { intros E. apply NI. rewrite <- E. now apply in_map. }
  lia.
Qed.

End NewestFirst.

Section Pagination.

Import AlertQueries.

(** The page [page] of a list cut in pages of [limit] elements. *)
Definition pageOf (A : Type) (limit : nat) (l : list A) (page : nat) : list A :=
  firstn limit (skipn ((page - 1) * limit) l).

Lemma pages_concat (A : Type) (limit n : nat) (l : list A) :
  (length l <= n * limit)%nat ->
  concat (map (pageOf A limit l) (seq 1 n)) = l.
Proof.
  revert l. induction n as [|n IH]; intros l H.
  - destruct l; [reflexivity | simpl in H; lia].
  - cbn [seq map concat]. rewrite <- seq_shift, map_map.
    rewrite (map_ext_in _ (pageOf A limit (skipn limit l))).
    + rewrite IH.
      * unfold pageOf. simpl. apply firstn_skipn.
      * rewrite length_skipn. simpl in H. lia.
    + intros p Hp. apply in_seq in Hp. unfold pageOf.
      rewrite skipn_skipn. do 2 f_equal.
      replace (S p - 1)%nat with (S (p - 1)) by lia. simpl. lia.
Qed.

(** The number of pages the route reports covers the alerts, and no page
    less would. *)
Lemma Zceil_pages (total limit : nat) :
  (1 <= limit)%nat ->
  let pages := Z.to_nat (Zceil (INR total / INR limit)) in
  (total <= pages * limit)%nat /\
  ((pages - 1) * limit < total \/ total = 0 /\ pages = 0)%nat.
Proof.
  intros Hl pages.
  pose proof (Zceil_bound (INR total / INR limit)) as [Lo Hi].
  assert (Lpos : (0 < INR limit)%R) by (apply lt_0_INR; lia).
  assert (Tpos : (0 <= INR total)%R) by apply pos_INR.
  set (z := Zceil (INR total / INR limit)) in *.
  assert (Hi' : (INR total <= IZR z * INR limit)%R).
  { apply (Rmult_le_compat_r (INR limit)) in Hi; [|lra].
    unfold Rdiv in Hi. rewrite Rmult_assoc, Rinv_l in Hi; lra. }
  assert (Lo' : ((IZR z - 1) * INR limit < INR total)%R).
  { apply (Rmult_lt_compat_r (INR limit)) in Lo; [|lra].
    unfold Rdiv in Lo. rewrite (Rmult_assoc (INR total)), Rinv_l in Lo; lra. }
  assert (Z0 : (0 <= z)%Z).
  { apply le_IZR. apply Rle_trans with (INR total / INR limit)%R; [|lra].
    apply Rmult_le_pos; [lra|]. apply Rlt_le. now apply Rinv_0_lt_compat. }
  rewrite !INR_IZR_INZ in Hi', Lo'.
  rewrite <- mult_IZR in Hi'. apply le_IZR in Hi'.
  rewrite <- minus_IZR, <- mult_IZR in Lo'. apply lt_IZR in Lo'.
  subst pages. split; [nia|].
  destruct (Z.eq_dec z 0) as [E|E].
  - right. rewrite E in *. simpl. split; [lia | reflexivity].
  - left. nia.
Qed.

(** X23: for a limit between 1 and 100 and alerts of distinct creation
    dates, the pages 1 to [pages] of the alert list, put end to end, hold
    each alert the filter accepts once, strictly newest first; a page
    after the last is empty, no page is longer than the limit, and the
    last page is not empty when there is an alert to list. *)
Theorem X23_listAlerts_pages (query : Alert.t -> bool)
    (limit : nat) (w : World.t)
    (Hlimit : (1 <= limit <= 100)%nat)
    (Hdistinct : NoDup (map Alert.createdAt (World.find query w))) :
  let count := Z.to_nat (pages (snd (listAlerts query 1 limit w))) in
  let all :=
    concat (map (fun page => fst (listAlerts query page limit w))
              (seq 1 count)) in
  Permutation all (World.find query w) /\
  StronglySorted newer all /\
  (forall page, (count < page)%nat ->
                fst (listAlerts query page limit w) = []) /\
  (forall page, (1 <= page)%nat ->
                (length (fst (listAlerts query page limit w)) <= limit)%nat) /\
  (all <> [] -> fst (listAlerts query count limit w) <> []).
Proof.
  intros count all.
  assert (Hl : (1 <= limit)%nat) by lia.
  set (sorted := sort newerFirst (World.find query w)).
  destruct (sort_spec Alert.t newerFirst (World.find query w)) as [L _].
  fold sorted in L.
  destruct (Zceil_pages (length (World.find query w)) limit Hl)
    as [Cover Tight].
  cbv zeta in Cover, Tight.
  change (Z.to_nat (Zceil (INR (length (World.find query w)) / INR limit)))
    with count in Cover, Tight.
  rewrite <- L in Cover, Tight.
  assert (P : forall page,
            fst (listAlerts query page limit w) =
            pageOf Alert.t limit sorted page)
    by reflexivity.
  assert (E : all = sorted).
  { subst all. rewrite (map_ext _ (pageOf Alert.t limit sorted)) by exact P.
    now apply pages_concat. }
  rewrite E. split; [|split; [|split; [|split]]].
  - apply sort_Permutation.
  - now apply sort_newer.
  - intros page H. rewrite P. unfold pageOf.
    rewrite skipn_all2; [now destruct limit | nia].
  - intros page _. rewrite P. unfold pageOf. rewrite length_firstn. lia.
  - intros N. rewrite P. unfold pageOf.
    destruct Tight as [T|[T _]];
      [|destruct sorted; [contradiction | discriminate]].
    intros Q. apply (f_equal (@length Alert.t)) in Q.
    rewrite length_firstn, length_skipn in Q. simpl in Q. lia.
Qed.

End Pagination.

Section ProcessRoute.

Import AlertQueries.
Import IntrusionDetector.

Lemma markProcessed_logs (logIds : list Z) (w : World.t) :
  World.logs (markProcessed logIds w) =
  map (fun l =>
         if existsb (Z.eqb (Log._id l)) logIds
         then Log.setProcessed true l else l)
    (World.logs w).
Proof. reflexivity. Qed.

(** X24: the route that marks logs as processed answers 400 to an empty
    list and changes nothing.  For another list it answers 200; it marks
    every log the list names, leaves the other logs and the alerts as they
    were, and a second call with the same list changes no log; no log the
    list names is fetched by a detection cycle afterwards. *)
Theorem X24_postProcess (logIds : list Z)
    (w : World.t) (th : Thresholds) (now : Z) :
  let first := postProcess logIds w in
  let second := postProcess logIds (snd first) in
  (logIds = [] -> first = (400%nat, w)) /\
  (logIds <> [] ->
   fst first = 200%nat /\
   map Log._id (World.logs (snd first)) = map Log._id (World.logs w) /\
   (forall l, In l (World.logs (snd first)) -> In (Log._id l) logIds ->
              Log.processed l = true) /\
   (forall l, In l (World.logs w) -> ~ In (Log._id l) logIds ->
              In l (World.logs (snd first))) /\
   World.alerts (snd first) = World.alerts w /\
   World.logs (snd second) = World.logs (snd first)) /\
  (forall l, In l (recentLogs th now (snd first)) ->
             ~ In (Log._id l) logIds).
Proof.
  intros first second. subst second first.
  split; [|split].
  - intros ->. reflexivity.
  - intros N. destruct logIds as [|i ids]; [contradiction|].
    cbn [postProcess fst snd].
    set (logIds := i :: ids).
    split; [reflexivity|].
    rewrite !markProcessed_logs.
    split; [|split; [|split; [|split]]].
    + rewrite map_map. apply map_ext. intros l.
      now destruct (existsb (Z.eqb (Log._id l)) logIds).
    + intros l Hl Hid. apply in_map_iff in Hl. destruct Hl as [x [<- Hx]].
      destruct (existsb (Z.eqb (Log._id x)) logIds) eqn:E; [reflexivity|].
      apply not_true_iff_false in E. exfalso. apply E.
      apply existsb_exists. exists (Log._id x).
      split; [exact Hid | apply Z.eqb_refl].
    + intros l Hl Hid. apply in_map_iff. exists l. split; [|exact Hl].
      destruct (existsb (Z.eqb (Log._id l)) logIds) eqn:E; [|reflexivity].
      exfalso. apply Hid. apply existsb_exists in E.
      destruct E as [j [Hj E]]. apply Z.eqb_eq in E. now rewrite E.
    + reflexivity.
    + rewrite map_map. apply map_ext. intros l.
      destruct (existsb (Z.eqb (Log._id l)) logIds) eqn:E.
      * cbn [Log._id Log.setProcessed]. now rewrite E.
      * now rewrite E.
  - intros l Hl Hid. apply recentLogs_spec in Hl.
    destruct Hl as (Hl & _ & Hp).
    destruct logIds as [|i ids]; [easy|].
    cbn [postProcess snd] in Hl. rewrite markProcessed_logs in Hl.
    apply in_map_iff in Hl. destruct Hl as [x [E Hx]].
    destruct (existsb (Z.eqb (Log._id x)) (i :: ids)) eqn:X.
    + subst l. cbn [Log.processed Log.setProcessed] in Hp. discriminate.
    + subst l. apply not_true_iff_false in X. apply X.
      apply existsb_exists. exists (Log._id x).
      split; [exact Hid | apply Z.eqb_refl].
Qed.

End ProcessRoute.

Section PaginationExample.

Import AlertQueries.

Definition threeAlerts : World.t :=
  World.mk []
    [bruteForceAlert 1 "203.0.113.10"; bruteForceAlert 2 "203.0.113.11";
     bruteForceAlert 3 "203.0.113.12"] [] 4.

Lemma X23_listAlerts_pages_witness :
  StronglySorted newer
    (concat
       (map (fun page => fst (listAlerts (fun _ => true) page 2 threeAlerts))
          (seq 1
             (Z.to_nat
                (pages (snd (listAlerts (fun _ => true) 1 2 threeAlerts))))))).
Proof.
  refine (proj1 (proj2 (X23_listAlerts_pages (fun _ => true) 2
                          threeAlerts _ _))).
  - lia.
  - repeat constructor; simpl; intuition discriminate.
Defined.

End PaginationExample.
